(** * urllib3 [src/urllib3/_async/connection.py]: a shallow embedding

    The connection module serialises one HTTP/1.1 request through the h11
    framing engine, drives the transport's send-and-receive loop, and manages
    the life cycle of one socket.

    - Python objects are records, mutated through a state-passing monad
      whose results are a value or a raised exception; what was written
      before an exception stays written.
    - Generators are step functions on their suspension point.
    - h11 is an interface ([H11]); the backend and the TLS helpers answer
      through [Environment], and the network through a script of steps.
    - Every call made on the transport and the TLS helpers, and
      [send_failed], is recorded in a trace, oldest first; a read of the
      response body is seen on the script, which it consumes. *)

From Stdlib Require Import List String Ascii ZArith NArith Arith Bool Lia.
From Stdlib Require Import Strings.Byte DecimalString HexadecimalString.
From Stdlib Require Import HexadecimalFacts HexadecimalN.
From Equations Require Import Equations.
Import ListNotations.

Local Open Scope string_scope.
Local Open Scope list_scope.

Set Implicit Arguments.

(** ** Python values used by the module *)

(** [bytes] objects. *)
Definition bytes := list byte.

(** The literal [b"..."]. *)
Definition B (s : string) : bytes := list_byte_of_string s.

(** Truthiness of a bytes object: [if piece:]. *)
Definition truthy (piece : bytes) : bool :=
  match piece with
  | [] => false
  | _ :: _ => true
  end.

Definition bytes_eqb (x y : bytes) : bool :=
  if list_eq_dec Byte.byte_eq_dec x y then true else false.

(** Text ([six.text_type]) that the module encodes: a Python str as its
    code points.  Host names and messages, which are only passed on, are
    Rocq strings. *)
Definition text := list N.

(** The literal [u"..."]. *)
Definition T (s : string) : text := map N_of_ascii (list_ascii_of_string s).

(** [text.encode("latin-1")]: one byte for each code point; it fails
    ([UnicodeEncodeError]) on a code point above 255. *)
Fixpoint encode_latin1 (s : text) : option bytes :=
  match s with
  | [] => Some []
  | c :: rest =>
      match Byte.of_N c, encode_latin1 rest with
      | Some b, Some tl => Some (b :: tl)
      | _, _ => None
      end
  end.

(** [text.encode("ascii")]: fails on a code point above 127. *)
Definition is_ascii (c : N) : bool := (c <? 128)%N.

Definition encode_ascii (s : text) : option bytes :=
  if forallb is_ascii s then encode_latin1 s else None.

(** A readable, as what its successive reads can bring: the bytes still to
    come, in the pieces in which they become available.  An in-memory
    buffer is a single piece; a pipe or a raw stream brings its content in
    several, so that a read can be short; an empty piece is a read that
    returns nothing ([b""] or [None]) although more would follow. *)
Definition readable := list bytes.

(** [str(n)] for an integer. *)
Definition str_of_int (n : Z) : string :=
  DecimalString.NilZero.string_of_int (Z.to_int n).

(** A header name is text or bytes; a header value is text, bytes or an
    integer. *)
Inductive header_name :=
| NameText (s : text)
| NameBytes (b : bytes).

Inductive header_value :=
| ValueText (s : text)
| ValueBytes (b : bytes)
| ValueInt (n : Z).

(** The shapes a request body can take, seen through the tests that
    [_make_body_iterable] performs on it. *)
Inductive body :=
| BodyNone
| BodyBytes (data : bytes)
| BodyText (s : text)
| BodyReadable (r : readable)         (* a file-like object: a file, a pipe *)
| BodyIterable (chunks : list bytes)  (* a list, tuple or generator of chunks *)
| BodyOther (type_name : string).     (* anything else, e.g. an int *)

Definition is_None (b : body) : bool :=
  match b with BodyNone => true | _ => false end.

Definition isinstance_bytes (b : body) : bool :=
  match b with BodyBytes _ => true | _ => false end.

Definition hasattr_read (b : body) : bool :=
  match b with BodyReadable _ => true | _ => false end.

(** [isinstance(body, collections.Iterable)]: bytes, text, files and
    sequences are all iterable. *)
Definition isinstance_Iterable (b : body) : bool :=
  match b with
  | BodyBytes _ | BodyText _ | BodyReadable _ | BodyIterable _ => true
  | BodyNone | BodyOther _ => false
  end.

Definition isinstance_text_type (b : body) : bool :=
  match b with BodyText _ => true | _ => false end.

(** [type(body)], as it is printed in the error message. *)
Definition type_name_of (b : body) : string :=
  match b with
  | BodyNone => "<class 'NoneType'>"
  | BodyBytes _ => "<class 'bytes'>"
  | BodyText _ => "<class 'str'>"
  | BodyReadable _ => "<class '_io.BytesIO'>"
  | BodyIterable _ => "<class 'list'>"
  | BodyOther n => n
  end.

(** [urllib3.base.Request] and [urllib3.base.Response]. *)
Record Request := mkRequest {
  method : bytes;
  target : bytes;
  headers : list (header_name * header_value);
  request_body : body
}.

Record Response (Body : Type) := mkResponse {
  status_code : Z;
  response_headers : list (string * string);
  response_body : Body;
  version : bytes
}.

(** The body handle of every response built here is the connection itself. *)
Inductive body_object := SelfConnection.

(** ** The h11 vocabulary *)

Inductive h11_state :=
| IDLE | SEND_BODY | SEND_RESPONSE | DONE | MUST_CLOSE | CLOSED
| ERROR | MIGHT_SWITCH_PROTOCOL | SWITCHED_PROTOCOL.

Definition is_IDLE (s : h11_state) : bool :=
  match s with IDLE => true | _ => false end.

Record h11_Response := mkH11Response {
  h11_status_code : Z;
  h11_headers : list (bytes * bytes);
  http_version : bytes
}.

(** Events handed to [state_machine.send]. *)
Inductive h11_out_event :=
| H11Request (method target : bytes) (headers : list (bytes * bytes))
| H11Data (data : bytes)
| H11EndOfMessage.

(** What [state_machine.next_event] returns. *)
Inductive h11_in_event :=
| NEED_DATA
| InformationalResponse (r : h11_Response)
| ResponseEvent (r : h11_Response)
| DataEvent (data : bytes)
| EndOfMessageEvent
| ConnectionClosedEvent.

Inductive h11_error :=
| LocalProtocolError (msg : string)
| RemoteProtocolError (msg : string).

(** ** Exceptions *)

Definition sock := nat.

Inductive transport_error :=
| SocketTimeout
| SocketError (msg : string)
| CertificateError (msg : string).

Inductive exn :=
| InvalidBodyError (msg : string)
| BadVersionError (http_version : bytes)
| ProtocolError (msg : string)
| FailedTunnelError (msg : string) (response : Response body_object)
| ConnectTimeoutError (msg : string)
| NewConnectionError (msg : string)
| AssertionError
| AttributeError (msg : string)
| RuntimeError (msg : string)
| TypeError (msg : string)
| UnicodeEncodeError
| LoopAbort
| H11Error (e : h11_error)             (* raised inside h11 *)
| TransportError (e : transport_error) (* raised by the backend or by ssl *).

Inductive result (A : Type) :=
| Ok (a : A)
| Raise (e : exn).
Arguments Ok {A} a.
Arguments Raise {A} e.

(** ** Collaborators *)

(** The framing engine: an [h11.Connection] object, with the operations the
    module calls on it.  [buffered] counts the received bytes not yet
    parsed; an informational response is parsed out of at least one of
    them, which is what bounds the event loop of [consume_bytes]. *)
Class H11 (SM : Type) := {
  h11_Connection_CLIENT : SM;
  our_state : SM -> h11_state;
  their_state : SM -> h11_state;
  send : h11_out_event -> SM -> (h11_error + bytes) * SM;
  receive_data : bytes -> SM -> SM;
  next_event : SM -> (h11_error + h11_in_event) * SM;
  send_failed : SM -> SM;
  start_next_cycle : SM -> option h11_error * SM;
  buffered : SM -> nat;
  informational_consumes :
    forall c r c',
      next_event c = (inr (InformationalResponse r), c') ->
      (buffered c' < buffered c)%nat
}.

Inductive verify_mode_t := CERT_NONE | CERT_OPTIONAL | CERT_REQUIRED.

Definition verify_mode_eqb (a b : verify_mode_t) : bool :=
  match a, b with
  | CERT_NONE, CERT_NONE | CERT_OPTIONAL, CERT_OPTIONAL
  | CERT_REQUIRED, CERT_REQUIRED => true
  | _, _ => false
  end.

Record ssl_context := mkSslContext { verify_mode : verify_mode_t }.

(** What [getpeercert()] returns, as far as the module looks at it. *)
Record certificate := mkCertificate {
  subjectAltName : list (string * string);
  commonName : string
}.

(** [datetime.date], ordered as year, month, day. *)
Record date := mkDate { year : Z; month : Z; day : Z }.

Definition date_ltb (a b : date) : bool :=
  (year a <? year b)%Z
  || ((year a =? year b)%Z
      && ((month a <? month b)%Z
          || ((month a =? month b)%Z && (day a <? day b)%Z))).

Inductive warning_category := SystemTimeWarning | SubjectAltNameWarning.

(** The keyword arguments [connect] passes to the backend. *)
Record extra_kw := mkExtraKw {
  kw_source_address : option (string * Z);
  kw_socket_options : option (list (Z * Z * Z))
}.

(** The calls recorded in the trace, oldest first. *)
Inductive call :=
| CallBackendConnect (host : string) (port : Z) (connect_timeout : option Z)
    (kw : extra_kw)
| CallSendAndReceive (s : sock) (read_timeout : option Z)
| WireSend (s : sock) (piece : bytes)   (* a chunk the producer returned *)
| WireFinished (s : sock)               (* the producer returned None *)
| CallForcefulClose (s : sock)
| CallSetReadableWatchState (s : sock) (watch : bool)
| CallStartTls (s : sock) (server_hostname : string) (ctx : ssl_context)
| CallGetPeerCert (s : sock) (binary_form : bool)
| CallAssertFingerprint (der : bytes) (fingerprint : string)
| CallMatchHostname (cert : certificate) (hostname : string)
| CallWarn (category : warning_category)
| CallSendFailed.

(** What the outside world answers: the outcome of each call that can fail
    or that returns something, and the few platform functions the module
    relies on. *)
Class Environment := {
  today : date;
  connect_outcome : string -> Z -> option Z -> extra_kw -> transport_error + sock;
  forceful_close_outcome : sock -> option transport_error;
  start_tls_outcome : sock -> string -> ssl_context -> transport_error + sock;
  peercert : sock -> certificate;
  peercert_binary : sock -> bytes;
  fingerprint_outcome : bytes -> string -> option transport_error;
  hostname_outcome : certificate -> string -> option transport_error;
  (* _ASYNC_MODE = is_async_mode(): false in the generated synchronous copy *)
  _ASYNC_MODE : bool;
  (* socket.inet_pton(socket.AF_INET6, host) succeeds *)
  is_raw_ipv6 : string -> bool;
  (* Request.add_host(host, port, scheme) *)
  add_host : string -> Z -> string -> Request -> Request
}.

(** What the network does next while [send_and_receive_for_a_while] runs. *)
Inductive net_step :=
| NetWritable                       (* the socket takes outgoing bytes *)
| NetReadable (data : bytes)        (* the peer sent [data] *)
| NetFails (e : transport_error).   (* peer gone, OS error, timeout *)

(** ** State and exceptions: the monad *)

(** [this] is the object the running code mutates; the trace and the
    network script are shared by everything. *)
Record state (O : Type) := mkState {
  this : O;
  trace : list call;
  script : list net_step
}.

Definition M (O A : Type) : Type := state O -> result A * state O.

Definition ret {O A} (a : A) : M O A := fun s => (Ok a, s).

Definition raise {O A} (e : exn) : M O A := fun s => (Raise e, s).

Definition bind {O A C} (m : M O A) (k : A -> M O C) : M O C :=
  fun s =>
    match m s with
    | (Ok a, s') => k a s'
    | (Raise e, s') => (Raise e, s')
    end.

Declare Scope py_scope.
Delimit Scope py_scope with py.
Notation "x <- m ;; k" := (bind m (fun x => k))
  (at level 61, m at next level, right associativity) : py_scope.
Notation "m ;; k" := (bind m (fun _ => k))
  (at level 61, right associativity) : py_scope.
Local Open Scope py_scope.

Definition get {O} : M O O := fun s => (Ok (this s), s).

Definition put {O} (o : O) : M O unit :=
  fun s => (Ok tt, mkState o (trace s) (script s)).

Definition record_call {O} (c : call) : M O unit :=
  fun s => (Ok tt, mkState (this s) (trace s ++ [c]) (script s)).

Definition set_script {O} (steps : list net_step) : M O unit :=
  fun s => (Ok tt, mkState (this s) (trace s) steps).

(** Run [m] on a part of the object, as code that was handed a reference
    to that part does; what [m] did to it stays done when [m] raises. *)
Definition zoom {O P A} (proj : P -> O) (upd : O -> P -> P) (m : M O A) : M P A :=
  fun s =>
    let (r, s') := m (mkState (proj (this s)) (trace s) (script s)) in
    (r, mkState (upd (this s') (this s)) (trace s') (script s')).

Definition inspect {A} (a : A) : {x : A | a = x} := exist _ a eq_refl.

(** ** Module-level constants and helpers *)

Definition RECENT_DATE : date := mkDate 2019 1 1.

Definition _SUPPORTED_VERSIONS : list bytes := [B "1.0"; B "1.1"].

(** [x in _SUPPORTED_VERSIONS]. *)
Definition in_bytes_set (x : bytes) (l : list bytes) : bool :=
  existsb (bytes_eqb x) l.

(** [_headers_to_native_string]: h11 hands back bytes, decoded as Latin-1. *)
Definition _headers_to_native_string (hs : list (bytes * bytes)) : list (string * string) :=
  map (fun nv => (string_of_list_byte (fst nv), string_of_list_byte (snd nv))) hs.

(** [_stringify_headers].  The generator is consumed by the constructor of
    [h11.Request], so an encoding error surfaces there. *)
Definition stringify_name (name : header_name) : option bytes :=
  match name with
  | NameText s => encode_ascii s
  | NameBytes b => Some b
  end.

Definition stringify_value (value : header_value) : option bytes :=
  match value with
  | ValueText s => encode_latin1 s
  | ValueInt n => Some (list_byte_of_string (str_of_int n))  (* ASCII digits *)
  | ValueBytes b => Some b
  end.

Fixpoint _stringify_headers (hs : list (header_name * header_value))
  : option (list (bytes * bytes)) :=
  match hs with
  | [] => Some []
  | (name, value) :: rest =>
      match stringify_name name, stringify_value value,
            _stringify_headers rest with
      | Some n, Some v, Some tl => Some ((n, v) :: tl)
      | _, _, _ => None
      end
  end.

Definition blocksize : nat := N.to_nat 8192.

(** [readable.read(n)]: at most [n] bytes, of those that are available;
    what it returns, and the readable afterwards. *)
Definition read (n : nat) (r : readable) : bytes * readable :=
  match r with
  | [] => ([], [])
  | piece :: later =>
      if (List.length piece <=? n)%nat then (piece, later)
      else (firstn n piece, skipn n piece :: later)
  end.

Lemma read_shorter (n : nat) (r : readable) x datablock rest :
  read n r = (x :: datablock, rest) ->
  List.length (List.concat rest) + List.length rest
  < List.length (List.concat r) + List.length r.
Proof.
  unfold read. destruct r as [| piece later]; [ discriminate | ].
  destruct (List.length piece <=? n)%nat eqn:Hlen.
  - intros E. inversion E; subst. cbn [List.concat List.length].
    rewrite List.length_app. lia.
  - intros E. inversion E as [[Hf Hr]]. apply Nat.leb_gt in Hlen.
    cbn [List.concat List.length]. rewrite !List.length_app, List.length_skipn.
    destruct n as [| n]; [ discriminate | ]. lia.
Qed.

(** The loop of [_read_readable]: read a block, stop at the first empty
    one, yield it otherwise.  The result lists the blocks in order. *)
Equations? read_blocks (n : nat) (r : readable) : list bytes
  by wf (List.length (List.concat r) + List.length r) lt :=
read_blocks n r with inspect (read n r) := {
  | exist _ ([], _) _ => [];
  | exist _ (datablock, rest) _ => datablock :: read_blocks n rest }.
Proof.
  eapply read_shorter; eassumption.
Qed.

Definition _read_readable (r : readable) : list bytes :=
  read_blocks blocksize r.

(** [_make_body_iterable].  The tests are the source's, in its order; the
    inner matches only fetch the payload of the shape just recognised. *)
Definition _make_body_iterable (b : body) : exn + list bytes :=
  if is_None b then inr []
  else if isinstance_bytes b then
    match b with BodyBytes data => inr [data] | _ => inr [] end
  else if hasattr_read b then
    match b with BodyReadable r => inr (_read_readable r) | _ => inr [] end
  else if isinstance_Iterable b && negb (isinstance_text_type b) then
    match b with BodyIterable chunks => inr chunks | _ => inr [] end
  else inl (InvalidBodyError ("Unacceptable body type: " ++ type_name_of b)%string).

(** ** Generators

    A generator object is its suspension point; [next] is a step function
    that runs the body up to the following [yield]. *)

Inductive generator_result (G : Type) :=
| Yield (piece : bytes) (g : G)
| StopIteration.
Arguments Yield {G} piece g.
Arguments StopIteration {G}.

(** Where [all_pieces_iter] is suspended. *)
Inductive all_pieces_state :=
| NotStarted
| SentRequest                       (* at the first yield *)
| InBody (rest : list bytes)        (* at the yield of the for loop *)
| SentEndOfMessage                  (* at the last yield *)
| Exhausted.                        (* after the end *)

(** Where the generator returned by [_request_bytes_iterable] is suspended:
    not started, or at [yield piece] with [remaining_pieces] still to be
    pulled. *)
Inductive request_bytes_state :=
| Fresh
| Filtering (remaining_pieces : all_pieces_state)
| Finished.

(** An upper bound on the pieces [all_pieces_iter] can still yield. *)
Definition pieces_left (request : Request) (g : all_pieces_state) : nat :=
  let body_len :=
    match _make_body_iterable (request_body request) with
    | inr chunks => List.length chunks
    | inl _ => 0
    end in
  match g with
  | NotStarted => body_len + 3
  | SentRequest => body_len + 2
  | InBody rest => List.length rest + 2
  | SentEndOfMessage => 1
  | Exhausted => 0
  end.

Section Serialiser.
Context {SM : Type} `{H11 SM}.

(** [state_machine.send(event)]. *)
Definition state_machine_send (event : h11_out_event) : M SM bytes :=
  fun s =>
    let (r, c) := send event (this s) in
    (match r with
     | inl e => Raise (H11Error e)
     | inr data => Ok data
     end, mkState c (trace s) (script s)).

(** One turn of [for chunk in ...: yield state_machine.send(Data(chunk))],
    falling through to the [EndOfMessage] yield when the body is over. *)
Definition next_body_piece (chunks : list bytes)
  : M SM (generator_result all_pieces_state) :=
  match chunks with
  | chunk :: rest =>
      piece <- state_machine_send (H11Data chunk) ;;
      ret (Yield piece (InBody rest))
  | [] =>
      piece <- state_machine_send H11EndOfMessage ;;
      ret (Yield piece SentEndOfMessage)
  end.

(** [next(all_pieces_iter())]. *)
Definition all_pieces_iter (request : Request) (g : all_pieces_state)
  : M SM (generator_result all_pieces_state) :=
  match g with
  | NotStarted =>
      match _stringify_headers (headers request) with
      | None => raise UnicodeEncodeError
      | Some hs =>
          piece <- state_machine_send
                     (H11Request (method request) (target request) hs) ;;
          ret (Yield piece SentRequest)
      end
  | SentRequest =>
      match _make_body_iterable (request_body request) with
      | inl e => raise e
      | inr chunks => next_body_piece chunks
      end
  | InBody rest => next_body_piece rest
  | SentEndOfMessage => ret StopIteration
  | Exhausted => ret StopIteration
  end.

Lemma all_pieces_iter_decreases request g s piece g' s' :
  all_pieces_iter request g s = (Ok (Yield piece g'), s') ->
  pieces_left request g' < pieces_left request g.
Proof.
  unfold all_pieces_iter, next_body_piece, pieces_left, bind, ret, raise,
    state_machine_send.
  destruct g as [| | rest | |].
  - destruct (_stringify_headers (headers request)); [ | discriminate ].
    destruct (send _ (this s)) as [[e | d] c]; intros E; inversion E; lia.
  - destruct (_make_body_iterable (request_body request)) as [e | [| c0 rest]];
      [ discriminate | | ];
      destruct (send _ (this s)) as [[e | d] c]; intros E; inversion E;
      cbn [List.length]; lia.
  - destruct rest as [| c0 rest];
      destruct (send _ (this s)) as [[e | d] c]; intros E; inversion E;
      cbn [List.length]; lia.
  - discriminate.
  - discriminate.
Qed.

(** [for piece in all_pieces_combined_iter: if piece: yield piece], from
    the point where the chained first packet has been dealt with. *)
Equations? filter_pieces (request : Request) (g : all_pieces_state)
  (s : state SM) : result (generator_result request_bytes_state) * state SM
  by wf (pieces_left request g) lt :=
filter_pieces request g s with inspect (all_pieces_iter request g s) := {
  | exist _ (Ok (Yield piece g'), s') _ =>
      if truthy piece then (Ok (Yield piece (Filtering g')), s')
      else filter_pieces request g' s';
  | exist _ (Ok StopIteration, s') _ => (Ok StopIteration, s');
  | exist _ (Raise e, s') _ => (Raise e, s') }.
Proof.
  eapply all_pieces_iter_decreases; eassumption.
Qed.

(** [next(remaining_pieces)] where the caller does not expect the end. *)
Definition next_or_fail (request : Request) (g : all_pieces_state)
  : M SM (bytes * all_pieces_state) :=
  r <- all_pieces_iter request g ;;
  match r with
  | Yield piece g' => ret (piece, g')
  | StopIteration => raise (RuntimeError "generator raised StopIteration")
  end.

(** [next(_request_bytes_iterable(request, state_machine))]. *)
Definition _request_bytes_iterable (request : Request)
  (g : request_bytes_state) : M SM (generator_result request_bytes_state) :=
  match g with
  | Fresh =>
      p1 <- next_or_fail request NotStarted ;;
      p2 <- next_or_fail request (snd p1) ;;
      let first_packet_bytes := (fst p1 ++ fst p2)%list in
      if truthy first_packet_bytes
      then ret (Yield first_packet_bytes (Filtering (snd p2)))
      else filter_pieces request (snd p2)
  | Filtering remaining_pieces => filter_pieces request remaining_pieces
  | Finished => ret StopIteration
  end.

(** An upper bound on the pieces the outer generator can still yield. *)
Definition generator_left (request : Request) (g : request_bytes_state) : nat :=
  match g with
  | Fresh => pieces_left request NotStarted
  | Filtering remaining_pieces => pieces_left request remaining_pieces
  | Finished => 0
  end.

Lemma filter_pieces_decreases request g s piece g' s' :
  filter_pieces request g s = (Ok (Yield piece g'), s') ->
  generator_left request g' < pieces_left request g.
Proof.
  funelim (filter_pieces request g s); try discriminate.
  match goal with
  | Hstep : all_pieces_iter _ _ _ = _ |- _ =>
      pose proof (all_pieces_iter_decreases _ _ _ Hstep) as Hd
  end.
  destruct (truthy piece).
  - intros E. inversion E; subst. exact Hd.
  - intros E.
    match goal with
    | IH : forall _ _ _, filter_pieces _ _ _ = _ -> _ |- _ => apply IH in E
    end.
    lia.
Qed.

Lemma _request_bytes_iterable_decreases request g s piece g' s' :
  _request_bytes_iterable request g s = (Ok (Yield piece g'), s') ->
  generator_left request g' < generator_left request g.
Proof.
  destruct g as [| a |]; cbn [_request_bytes_iterable generator_left].
  - unfold bind, next_or_fail, bind.
    destruct (all_pieces_iter request NotStarted s) as [[[p1 a1 |] | e1] s1] eqn:E1;
      cbn; try discriminate.
    destruct (all_pieces_iter request a1 s1) as [[[p2 a2 |] | e2] s2] eqn:E2;
      cbn; try discriminate.
    apply all_pieces_iter_decreases in E1, E2.
    destruct (truthy (p1 ++ p2)).
    + intros E. inversion E; subst. exact (Nat.lt_trans _ _ _ E2 E1).
    + intros E. apply filter_pieces_decreases in E.
      exact (Nat.lt_trans _ _ _ E (Nat.lt_trans _ _ _ E2 E1)).
  - apply filter_pieces_decreases.
  - discriminate.
Qed.

(** [list(_request_bytes_iterable(request, state_machine))]: pull the
    generator until it stops. *)
Equations? exhaust (request : Request) (g : request_bytes_state)
  (s : state SM) : result (list bytes) * state SM
  by wf (generator_left request g) lt :=
exhaust request g s with inspect (_request_bytes_iterable request g s) := {
  | exist _ (Ok (Yield piece g'), s') _ with exhaust request g' s' => {
      | (Ok pieces, s'') => (Ok (piece :: pieces), s'');
      | (Raise e, s'') => (Raise e, s'') };
  | exist _ (Ok StopIteration, s') _ => (Ok [], s');
  | exist _ (Raise e, s') _ => (Raise e, s') }.
Proof.
  eapply _request_bytes_iterable_decreases; eassumption.
Qed.

End Serialiser.

(** ** The transport loop *)

(** [try: m except LoopAbort: pass], telling whether the sentinel was seen. *)
Definition catch_LoopAbort {O} (m : M O unit) : M O bool :=
  fun s =>
    match m s with
    | (Ok _, s') => (Ok false, s')
    | (Raise LoopAbort, s') => (Ok true, s')
    | (Raise e, s') => (Raise e, s')
    end.

(** Modelled from the spec: the backend's [send_and_receive_for_a_while]
    (the backends are not among the sources).  The loop repeatedly calls the
    producer for the next chunk to write, until it returns none, and the
    consumer on each chunk read; it returns when the consumer raises the
    loop-abort sentinel.  The network's part is the script: when nothing more
    is scripted the read times out. *)
Fixpoint transfer {O} (s : sock) (produce : M O (option bytes))
  (consume : bytes -> M O unit) (steps : list net_step)
  (outgoing_finished : bool) : M O unit :=
  match steps with
  | [] => raise (TransportError SocketTimeout)
  | step :: rest =>
      set_script rest ;;
      match step with
      | NetWritable =>
          if outgoing_finished then transfer s produce consume rest true
          else
            b <- produce ;;
            match b with
            | Some piece =>
                record_call (WireSend s piece) ;;
                transfer s produce consume rest false
            | None =>
                record_call (WireFinished s) ;;
                transfer s produce consume rest true
            end
      | NetReadable data =>
          aborted <- catch_LoopAbort (consume data) ;;
          if aborted : bool then ret tt
          else transfer s produce consume rest outgoing_finished
      | NetFails e => raise (TransportError e)
      end
  end.

(** [sock.send_and_receive_for_a_while(produce, consume, read_timeout)]:
    the call is recorded, then the loop runs on what is scripted. *)
Definition send_and_receive_for_a_while {O} (s : sock)
  (produce : M O (option bytes)) (consume : bytes -> M O unit)
  (read_timeout : option Z) : M O unit :=
  record_call (CallSendAndReceive s read_timeout) ;;
  fun st => transfer s produce consume (script st) false st.

(** ** [_start_http_request] *)

(** The local variables of one call that its closures mutate: the state
    machine it was handed, the request generator, and the [context] dict. *)
Record frame (SM : Type) := mkFrame {
  state_machine : SM;
  request_bytes_iterable : request_bytes_state;
  send_aborted : bool;
  h11_response : option h11_Response
}.

Definition set_state_machine {SM} (c : SM) (f : frame SM) : frame SM :=
  mkFrame c (request_bytes_iterable f) (send_aborted f) (h11_response f).

Definition set_request_bytes_iterable {SM} (g : request_bytes_state)
  (f : frame SM) : frame SM :=
  mkFrame (state_machine f) g (send_aborted f) (h11_response f).

Definition set_send_aborted {SM} (b : bool) (f : frame SM) : frame SM :=
  mkFrame (state_machine f) (request_bytes_iterable f) b (h11_response f).

Definition set_h11_response {SM} (r : option h11_Response) (f : frame SM)
  : frame SM :=
  mkFrame (state_machine f) (request_bytes_iterable f) (send_aborted f) r.

Definition modify {O} (f : O -> O) : M O unit :=
  fun s => (Ok tt, mkState (f (this s)) (trace s) (script s)).

Section Exchange.
Context {SM : Type} `{H11 SM}.

(** [produce_bytes]. *)
Definition produce_bytes (request : Request) : M (frame SM) (option bytes) :=
  f <- get ;;
  r <- zoom (@state_machine SM) set_state_machine
         (_request_bytes_iterable request (request_bytes_iterable f)) ;;
  match r with
  | Yield piece g =>
      modify (set_request_bytes_iterable g) ;;
      ret (Some piece)
  | StopIteration =>
      (* We successfully sent the whole body! *)
      modify (set_request_bytes_iterable Finished) ;;
      modify (set_send_aborted false) ;;
      ret None
  end.

Definition on_machine (c : SM) (s : state (frame SM)) : state (frame SM) :=
  mkState (set_state_machine c (this s)) (trace s) (script s).

(** The [while True] loop of [consume_bytes]. *)
Equations? next_events (s : state (frame SM)) : result unit * state (frame SM)
  by wf (buffered (state_machine (this s))) lt :=
next_events s with inspect (next_event (state_machine (this s))) := {
  | exist _ (inl e, c) _ => (Raise (H11Error e), on_machine c s);
  | exist _ (inr NEED_DATA, c) _ => (Ok tt, on_machine c s);
  | exist _ (inr (InformationalResponse _), c) _ =>
      (* Ignore 1xx responses *)
      next_events (on_machine c s);
  | exist _ (inr (ResponseEvent r), c) _ =>
      (* We have our response! Save it and get out of here. *)
      (Raise LoopAbort,
       mkState (set_h11_response (Some r) (set_state_machine c (this s)))
         (trace s) (script s));
  | exist _ (inr _, c) _ =>
      (* Can't happen *)
      (Raise (RuntimeError "Unexpected h11 event"), on_machine c s) }.
Proof.
  cbn. eapply informational_consumes; eassumption.
Qed.

(** [consume_bytes]. *)
Definition consume_bytes (data : bytes) : M (frame SM) unit :=
  modify (fun f => set_state_machine (receive_data data (state_machine f)) f) ;;
  next_events.

(** [state_machine.send_failed()]. *)
Definition call_send_failed : M (frame SM) unit :=
  record_call CallSendFailed ;;
  modify (fun f => set_state_machine (send_failed (state_machine f)) f).

(** Enter the body of the function with fresh local variables. *)
Definition with_frame {A} (m : M (frame SM) A) : M SM A :=
  zoom (fun c => mkFrame c Fresh true None) (fun f _ => state_machine f) m.

(** The body of [_start_http_request] after the state check, in its frame:
    drive the transport with the two closures, then look at [context]. *)
Definition exchange (request : Request) (s : option sock)
  (read_timeout : option Z) : M (frame SM) h11_Response :=
  match s with
  | None =>
      raise (AttributeError
               "'NoneType' object has no attribute 'send_and_receive_for_a_while'")
  | Some sk =>
      send_and_receive_for_a_while sk (produce_bytes request)
        consume_bytes read_timeout
  end ;;
  f <- get ;;
  match h11_response f with
  | None => raise AssertionError
  | Some r =>
      (if send_aborted f then call_send_failed else ret tt) ;;
      ret r
  end.

Definition _start_http_request (request : Request) (s : option sock)
  (read_timeout : option Z) : M SM h11_Response :=
  c <- get ;;
  (* Before we begin, confirm that the state machine is ok. *)
  if negb (is_IDLE (our_state c)) || negb (is_IDLE (their_state c)) then
    raise (ProtocolError "Invalid internal state transition")
  else
    with_frame (exchange request s read_timeout).

End Exchange.

(** [_response_from_h11]. *)
Definition _response_from_h11 {Body} (r : h11_Response) (body_obj : Body)
  : exn + Response Body :=
  if negb (in_bytes_set (http_version r) _SUPPORTED_VERSIONS) then
    inl (BadVersionError (http_version r))
  else
    let version := (B "HTTP/" ++ http_version r)%list in
    inr (mkResponse (h11_status_code r)
           (_headers_to_native_string (h11_headers r)) body_obj version).

(** ** [HTTP1Connection] *)

(** The [assert_hostname] argument: [None], [False] or a host name. *)
Inductive assert_hostname_t :=
| AssertNone
| AssertFalse
| AssertHost (host : string).

(** [a or b] on host names: the first truthy operand. *)
Definition truthy_text (s : string) : bool :=
  match s with EmptyString => false | String _ _ => true end.

Definition truthy_opt_text (o : option string) : bool :=
  match o with Some s => truthy_text s | None => false end.

(** [s.rstrip(".")]. *)
Fixpoint rstrip_dot (s : string) : string :=
  match s with
  | EmptyString => EmptyString
  | String c rest =>
      match rstrip_dot rest with
      | EmptyString =>
          if Ascii.eqb c "." then EmptyString else String c EmptyString
      | String _ _ as r => String c r
      end
  end.

Definition socket_option : Type := Z * Z * Z.

(** [(socket.IPPROTO_TCP, socket.TCP_NODELAY, 1)]. *)
Definition default_socket_options : list socket_option := [(6, 1, 1)%Z].

Record HTTP1Connection (SM : Type) := mkConnection {
  is_verified : bool;
  conn_read_timeout : option Z;
  _host : string;
  _port : Z;
  _socket_options : option (list socket_option);
  _source_address : option (string * Z);
  _tunnel_host : option string;
  _tunnel_port : option Z;
  _tunnel_headers : list (header_name * header_value);
  _sock : option sock;
  _state_machine : option SM
}.

(** [__init__]; [socket_options = None] stands for the default sentinel. *)
Definition __init__ {SM} (host : string) (port : Z)
  (socket_options : option (option (list socket_option)))
  (source_address : option (string * Z))
  (tunnel_host : option string) (tunnel_port : option Z)
  (tunnel_headers : list (header_name * header_value)) : HTTP1Connection SM :=
  mkConnection false None host port
    (match socket_options with
     | Some given => given
     | None => Some default_socket_options
     end)
    source_address tunnel_host tunnel_port tunnel_headers None None.

Definition set_is_verified {SM} (b : bool) (c : HTTP1Connection SM) :=
  mkConnection b (conn_read_timeout c) (_host c) (_port c) (_socket_options c)
    (_source_address c) (_tunnel_host c) (_tunnel_port c) (_tunnel_headers c)
    (_sock c) (_state_machine c).

Definition set__sock {SM} (s : option sock) (c : HTTP1Connection SM) :=
  mkConnection (is_verified c) (conn_read_timeout c) (_host c) (_port c)
    (_socket_options c) (_source_address c) (_tunnel_host c) (_tunnel_port c)
    (_tunnel_headers c) s (_state_machine c).

Definition set__state_machine {SM} (m : option SM) (c : HTTP1Connection SM) :=
  mkConnection (is_verified c) (conn_read_timeout c) (_host c) (_port c)
    (_socket_options c) (_source_address c) (_tunnel_host c) (_tunnel_port c)
    (_tunnel_headers c) (_sock c) m.

(** [_build_tunnel_request]. *)
Definition _build_tunnel_request `{Environment} (host : string) (port : Z)
  (hdrs : list (header_name * header_value)) : Request :=
  let target :=
    if is_raw_ipv6 host
    then ("[" ++ host ++ "]:" ++ str_of_int port)%string  (* raw IPv6 address *)
    else (host ++ ":" ++ str_of_int port)%string in
  (* target.encode("latin1"): a host name is an 8-bit string here *)
  let target := list_byte_of_string target in
  let tunnel_request := mkRequest (B "CONNECT") target hdrs BodyNone in
  add_host host port "http" tunnel_request.

Section Connection.
Context {SM : Type} `{H11 SM} `{Environment}.

Abbreviation conn := (HTTP1Connection SM).

(** Calls on the socket and on [ssl_util]. *)
Definition outcome {O} (o : option transport_error) : M O unit :=
  match o with
  | Some e => raise (TransportError e)
  | None => ret tt
  end.

Definition sock_forceful_close {O} (s : sock) : M O unit :=
  record_call (CallForcefulClose s) ;;
  outcome (forceful_close_outcome s).

Definition sock_set_readable_watch_state {O} (s : sock) (b : bool) : M O unit :=
  record_call (CallSetReadableWatchState s b).

Definition sock_start_tls {O} (s : sock) (server_hostname : string)
  (ctx : ssl_context) : M O sock :=
  record_call (CallStartTls s server_hostname ctx) ;;
  match start_tls_outcome s server_hostname ctx with
  | inl e => raise (TransportError e)
  | inr tls => ret tls
  end.

Definition assert_fingerprint {O} (der : bytes) (fingerprint : string) : M O unit :=
  record_call (CallAssertFingerprint der fingerprint) ;;
  outcome (fingerprint_outcome der fingerprint).

Definition match_hostname {O} (cert : certificate) (hostname : string) : M O unit :=
  record_call (CallMatchHostname cert hostname) ;;
  outcome (hostname_outcome cert hostname).

(** [a or b] where [a] may be [None], [False] or a host name. *)
Definition or_else (a : option string) (b : string) : string :=
  match a with
  | Some s => if truthy_text s then s else b
  | None => b
  end.

Definition hostname_of (a : assert_hostname_t) : option string :=
  match a with
  | AssertHost h => Some h
  | AssertNone | AssertFalse => None
  end.

(** [assert_hostname or getattr(self, "_tunnel_host", None) or self._host]. *)
Definition choose_check_host (assert_hostname : assert_hostname_t)
  (self : conn) : string :=
  or_else (hostname_of assert_hostname)
    (or_else (_tunnel_host self) (_host self)).

Definition is_not_False (a : assert_hostname_t) : bool :=
  match a with AssertFalse => false | _ => true end.

(** [_wrap_socket]. *)
Definition _wrap_socket (s : sock) (ctx : ssl_context)
  (fingerprint : option string) (assert_hostname : assert_hostname_t)
  : M conn sock :=
  let is_time_off := date_ltb today RECENT_DATE in
  (if is_time_off then record_call (CallWarn SystemTimeWarning) else ret tt) ;;
  self <- get ;;
  let check_host := choose_check_host assert_hostname self in
  (* Stripping trailing dots from the hostname *)
  let check_host := rstrip_dot check_host in
  tls <- sock_start_tls s check_host ctx ;;
  (if truthy_opt_text fingerprint then
     record_call (CallGetPeerCert tls true) ;;
     assert_fingerprint (peercert_binary tls)
       (match fingerprint with Some f => f | None => EmptyString end)
   else if negb (verify_mode_eqb (verify_mode ctx) CERT_NONE)
           && is_not_False assert_hostname then
     record_call (CallGetPeerCert tls false) ;;
     let cert := peercert tls in
     (match subjectAltName cert with
      | [] => record_call (CallWarn SubjectAltNameWarning)
      | _ :: _ => ret tt
      end) ;;
     match_hostname cert check_host
   else ret tt) ;;
  modify (set_is_verified
            (verify_mode_eqb (verify_mode ctx) CERT_REQUIRED
             && (is_not_False assert_hostname || truthy_opt_text fingerprint))) ;;
  ret tls.

(** Lift a plain result into the monad. *)
Definition lift {O A} (r : exn + A) : M O A :=
  match r with
  | inl e => raise e
  | inr a => ret a
  end.

(** Run code on the state machine the connection holds. *)
Definition on_state_machine {A} (c : SM) (m : M SM A) : M conn A :=
  zoom (fun _ => c) (fun c' self => set__state_machine (Some c') self) m.

(** Run code on a state machine of its own, dropped afterwards. *)
Definition on_local_machine {A} (c : SM) (m : M SM A) : M conn A :=
  zoom (fun _ => c) (fun _ self => self) m.

(** [send_request]. *)
Definition send_request (request : Request) (read_timeout : option Z)
  : M conn (Response body_object) :=
  self <- get ;;
  match _state_machine self with
  | None => raise (AttributeError "'NoneType' object has no attribute 'our_state'")
  | Some c =>
      r <- on_state_machine c
             (_start_http_request request (_sock self) read_timeout) ;;
      lift (_response_from_h11 r SelfConnection)
  end.

(** [_tunnel]. *)
Definition _tunnel (s : sock) : M conn unit :=
  self <- get ;;
  (* Basic sanity check that _tunnel is only called at appropriate times. *)
  match _state_machine self with
  | None => raise (AttributeError "'NoneType' object has no attribute 'our_state'")
  | Some c =>
      if negb (is_IDLE (our_state c)) then raise AssertionError
      else
        match _tunnel_host self, _tunnel_port self with
        | Some host, Some port =>
            let tunnel_request :=
              _build_tunnel_request host port (_tunnel_headers self) in
            let tunnel_state_machine := h11_Connection_CLIENT in
            r <- on_local_machine tunnel_state_machine
                   (_start_http_request tunnel_request (Some s) None) ;;
            tunnel_response <- lift (_response_from_h11 r SelfConnection) ;;
            if negb (h11_status_code r =? 200)%Z then
              sock_forceful_close s ;;
              raise (FailedTunnelError "Unable to establish CONNECT tunnel"
                       tunnel_response)
            else ret tt
        | _, _ => raise (TypeError "tunnel host and port must be set")
        end
  end.

(** [close]. *)
Definition close : M conn unit :=
  self <- get ;;
  match _sock self with
  | Some s =>
      (* Make sure self._sock is None even if closing raises an exception *)
      modify (set__state_machine None) ;;
      modify (set__sock None) ;;
      sock_forceful_close s
  | None => ret tt
  end.

(** [_reset]. *)
Definition _reset : M conn unit :=
  self <- get ;;
  match _state_machine self with
  | None => raise (AttributeError "'NoneType' object has no attribute 'start_next_cycle'")
  | Some c =>
      let (r, c') := start_next_cycle c in
      modify (set__state_machine (Some c')) ;;
      match r with
      | Some (LocalProtocolError _) =>
          (* Not re-usable *)
          close
      | Some e => raise (H11Error e)
      | None =>
          match _sock self with
          | Some s => sock_set_readable_watch_state s true
          | None =>
              raise (AttributeError
                       "'NoneType' object has no attribute 'set_readable_watch_state'")
          end
      end
  end.

Definition str_of_timeout (t : option Z) : string :=
  match t with
  | Some n => str_of_int n
  | None => "None"
  end.

(** [connect]. *)
Definition connect (ssl_ctx : option ssl_context) (fingerprint : option string)
  (assert_hostname : assert_hostname_t) (connect_timeout : option Z)
  : M conn unit :=
  self <- get ;;
  match _sock self with
  | Some s =>
      (* We're already connected, move on. *)
      sock_set_readable_watch_state s false
  | None =>
      let kw :=
        mkExtraKw (_source_address self)
          (match _socket_options self with
           | Some ((_ :: _) as opts) => Some opts
           | _ => None
           end) in
      record_call (CallBackendConnect (_host self) (_port self) connect_timeout kw) ;;
      match connect_outcome (_host self) (_port self) connect_timeout kw with
      | inr s =>
          modify (set__sock (Some s)) ;;
          modify (set__state_machine (Some h11_Connection_CLIENT))
      | inl SocketTimeout =>
          raise (ConnectTimeoutError
                   ("Connection to " ++ _host self
                    ++ " timed out. (connect timeout="
                    ++ str_of_timeout connect_timeout ++ ")")%string)
      | inl (SocketError e) =>
          raise (NewConnectionError
                   ("Failed to establish a new connection: " ++ e)%string)
      | inl e => raise (TransportError e)
      end ;;
      match ssl_ctx with
      | None => ret tt
      | Some ctx =>
          self <- get ;;
          match _sock self with
          | None => raise (AttributeError "'NoneType' object has no attribute 'start_tls'")
          | Some raw =>
              (match _tunnel_host self with
               | Some _ =>
                   (* [self._tunnel(self._sock)] is not awaited: in async
                      mode the coroutine is created and never run *)
                   if _ASYNC_MODE then ret tt else _tunnel raw
               | None => ret tt
               end) ;;
              tls <- _wrap_socket raw ctx fingerprint assert_hostname ;;
              modify (set__sock (Some tls))
          end
      end
  end.

(** The property [complete]. *)
Definition complete (self : conn) : bool :=
  match _state_machine self with
  | None => true
  | Some c =>
      let our := our_state c in
      let their := their_state c in
      is_IDLE our && is_IDLE their
  end.

End Connection.

(** ** Iterating over the response body *)

(** Modelled from the spec: the backend's [receive_some(timeout)] returns the
    bytes the peer sent next, empty bytes at the end of the stream (the
    backends are not among the sources).  The network's part is the script:
    steps that only concern writing are passed over, and when nothing more
    is scripted the read times out.  A read leaves no entry in the trace;
    what it took is seen on the script. *)
Fixpoint next_read (steps : list net_step)
  : (transport_error + bytes) * list net_step :=
  match steps with
  | [] => (inl SocketTimeout, [])
  | NetWritable :: rest => next_read rest
  | NetReadable data :: rest => (inr data, rest)
  | NetFails e :: rest => (inl e, rest)
  end.

(** [sock.receive_some(read_timeout)]. *)
Definition receive_some {O} (s : sock) (read_timeout : option Z) : M O bytes :=
  fun st =>
    let (r, rest) := next_read (script st) in
    (match r with
     | inl e => Raise (TransportError e)
     | inr data => Ok data
     end, mkState (this st) (trace st) rest).

Lemma next_read_shorter steps data rest :
  next_read steps = (inr data, rest) ->
  List.length rest < List.length steps.
Proof.
  induction steps as [| step steps IH]; cbn [next_read]; [ discriminate | ].
  destruct step as [| d | e]; cbn [List.length].
  - intros E. apply IH in E. lia.
  - intros E. inversion E; subst. lia.
  - discriminate.
Qed.

Lemma receive_some_shorter {O} s read_timeout (st : state O) data st' :
  receive_some s read_timeout st = (Ok data, st') ->
  List.length (script st') < List.length (script st).
Proof.
  unfold receive_some.
  destruct (next_read (script st)) as [[e | d] rest] eqn:E; intros Er;
    inversion Er; subst; cbn [script].
  eapply next_read_shorter; eassumption.
Qed.

(** What one pull of the body iterator gives: a chunk of the body, or the
    end of the iteration ([raise StopAsyncIteration]). *)
Inductive anext_result :=
| Chunk (data : bytes)
| StopAsyncIteration.

Section BodyIterator.
Context {SM : Type} `{H11 SM}.

Definition with_machine (c : SM) (st : state SM) : state SM :=
  mkState c (trace st) (script st).

(** [_read_until_event]: ask h11 for an event; while it needs data, read
    from the socket and feed h11. *)
Equations? _read_until_event (s : option sock) (read_timeout : option Z)
  (st : state SM) : result h11_in_event * state SM
  by wf (List.length (script st)) lt :=
_read_until_event s read_timeout st with inspect (next_event (this st)) := {
  | exist _ (inl e, c) _ => (Raise (H11Error e), with_machine c st);
  | exist _ (inr NEED_DATA, c) _ with s := {
      | None =>
          (Raise (AttributeError
                    "'NoneType' object has no attribute 'receive_some'"),
           with_machine c st);
      | Some sk
          with inspect (receive_some sk read_timeout (with_machine c st)) := {
          | exist _ (Raise e, st1) _ => (Raise e, st1);
          | exist _ (Ok data, st1) _ =>
              _read_until_event (Some sk) read_timeout
                (with_machine (receive_data data (this st1)) st1) } };
  | exist _ (inr event, c) _ => (Ok event, with_machine c st) }.
Proof.
  all: match goal with
       | E : receive_some _ _ _ = _ |- _ =>
           apply receive_some_shorter in E; cbn in E |- *; exact E
       end.
Qed.

End BodyIterator.

Section ConnectionIterator.
Context {SM : Type} `{H11 SM} `{Environment}.

(** [__anext__]. *)
Definition __anext__ : M (HTTP1Connection SM) anext_result :=
  self <- get ;;
  match _state_machine self with
  | None => raise (AttributeError "'NoneType' object has no attribute 'next_event'")
  | Some c =>
      event <- on_state_machine c
                 (_read_until_event (_sock self) (conn_read_timeout self)) ;;
      match event with
      | DataEvent data => ret (Chunk data)
      | EndOfMessageEvent =>
          _reset ;;
          ret StopAsyncIteration
      | _ =>
          (* can't happen *)
          raise (RuntimeError "Unexpected h11 event")
      end
  end.

End ConnectionIterator.

(** ** A framing engine after the specification

    h11 is a dependency, not part of the module.  The engine below follows
    what the specification says of it (section 4.1 and the wire format of
    section 6); it instantiates [H11] for the concrete scenarios. *)

Module SpecEngine.

Definition CRLF : bytes := [x0d; x0a].

(** How the body of the outgoing request is framed. *)
Inductive framing :=
| ContentLength (remaining : nat)
| Chunked.

Record engine := mkEngine {
  ours : h11_state;
  theirs : h11_state;
  out_framing : framing;
  inbuf : bytes
}.

Definition lower_byte (x : byte) : byte :=
  let n := Byte.to_nat x in
  if ((65 <=? n) && (n <=? 90))%nat
  then match Byte.of_nat (n + 32) with Some y => y | None => x end
  else x.

Definition lower (x : bytes) : bytes := map lower_byte x.

Fixpoint get_header (name : bytes) (hs : list (bytes * bytes)) : option bytes :=
  match hs with
  | [] => None
  | (n, v) :: rest =>
      if bytes_eqb (lower n) name then Some v else get_header name rest
  end.

Definition digit_value (x : byte) : option nat :=
  let n := Byte.to_nat x in
  if ((48 <=? n) && (n <=? 57))%nat then Some (n - 48) else None.

Fixpoint parse_decimal (acc : nat) (x : bytes) : option nat :=
  match x with
  | [] => Some acc
  | d :: rest =>
      match digit_value d with
      | Some v => parse_decimal (10 * acc + v) rest
      | None => None
      end
  end.

(** Modelled from the spec: the framing rule of h11 for an outgoing request,
    [Transfer-Encoding: chunked] first, else [Content-Length: N], else no
    body. *)
Definition framing_of (hs : list (bytes * bytes)) : framing :=
  match get_header (B "transfer-encoding") hs with
  | Some v => if bytes_eqb (lower v) (B "chunked") then Chunked else ContentLength 0
  | None =>
      match get_header (B "content-length") hs with
      | Some v =>
          match v with
          | [] => ContentLength 0
          | _ :: _ =>
              match parse_decimal 0 v with
              | Some n => ContentLength n
              | None => ContentLength 0
              end
          end
      | None => ContentLength 0
      end
  end.

(** [b"%x" % n]: lowercase hexadecimal. *)
Definition hex (n : nat) : bytes :=
  list_byte_of_string
    (HexadecimalString.NilZero.string_of_uint (N.to_hex_uint (N.of_nat n))).

(** Modelled from the spec: the chunk h11 writes for a [Data] event under
    chunked framing, a lowercase-hex size, CRLF, the data, CRLF; an empty
    chunk is suppressed. *)
Definition chunk_frame (data : bytes) : bytes :=
  match data with
  | [] => []
  | _ :: _ => (hex (List.length data) ++ CRLF ++ data ++ CRLF)%list
  end.

(** Modelled from the spec: the terminator h11 writes for [EndOfMessage]
    under chunked framing, [0 CRLF CRLF]. *)
Definition terminator : bytes := (B "0" ++ CRLF ++ CRLF)%list.

(** Modelled from the spec: the request line and header block h11 writes for
    a [Request] event. *)
Definition request_head (method target : bytes) (hs : list (bytes * bytes)) : bytes :=
  (method ++ B " " ++ target ++ B " HTTP/1.1" ++ CRLF
   ++ List.concat (map (fun nv => fst nv ++ B ": " ++ snd nv ++ CRLF) hs)
   ++ CRLF)%list.

Definition poison (e : engine) : engine :=
  mkEngine ERROR (theirs e) (out_framing e) (inbuf e).

(** Modelled from the spec: [send] of h11, the emit side of the engine. *)
Definition send_event (ev : h11_out_event) (e : engine)
  : (h11_error + bytes) * engine :=
  match ev, ours e with
  | H11Request m t hs, IDLE =>
      (inr (request_head m t hs),
       mkEngine SEND_BODY SEND_RESPONSE (framing_of hs) (inbuf e))
  | H11Data d, SEND_BODY =>
      match out_framing e with
      | Chunked => (inr (chunk_frame d), e)
      | ContentLength n =>
          if (List.length d <=? n)%nat
          then (inr d, mkEngine SEND_BODY (theirs e)
                         (ContentLength (n - List.length d)) (inbuf e))
          else (inl (LocalProtocolError "Too much data for declared Content-Length"),
                poison e)
      end
  | H11EndOfMessage, SEND_BODY =>
      match out_framing e with
      | Chunked => (inr terminator, mkEngine DONE (theirs e) Chunked (inbuf e))
      | ContentLength 0 =>
          (inr [], mkEngine DONE (theirs e) (ContentLength 0) (inbuf e))
      | ContentLength (S _) =>
          (inl (LocalProtocolError "Too little data for declared Content-Length"),
           poison e)
      end
  | _, _ =>
      (inl (LocalProtocolError "can't handle event in this state"), poison e)
  end.

Fixpoint is_prefix (p x : bytes) : bool :=
  match p, x with
  | [], _ => true
  | a :: p', b :: x' => Byte.eqb a b && is_prefix p' x'
  | _ :: _, [] => false
  end.

(** Cut [buf] at the first occurrence of [sep]. *)
Fixpoint cut (sep buf : bytes) : option (bytes * bytes) :=
  if is_prefix sep buf then Some ([], skipn (List.length sep) buf)
  else
    match buf with
    | [] => None
    | x :: tl =>
        match cut sep tl with
        | Some (before, after) => Some (x :: before, after)
        | None => None
        end
    end.

(** The CRLF-separated lines of a header block; [fuel] bounds their number. *)
Fixpoint lines (fuel : nat) (block : bytes) : list bytes :=
  match fuel with
  | O => [block]
  | S fuel' =>
      match cut CRLF block with
      | Some (line, rest) => line :: lines fuel' rest
      | None => [block]
      end
  end.

Definition is_digit (x : byte) : bool :=
  match digit_value x with Some _ => true | None => false end.

(** [HTTP/d.d SP ddd ...]: the version bytes and the status code. *)
Definition parse_status_line (line : bytes) : option (bytes * Z) :=
  if is_prefix (B "HTTP/") line then
    match skipn 5 line with
    | a :: dot :: c :: sp :: s1 :: s2 :: s3 :: _ =>
        if is_digit a && Byte.eqb dot x2e && is_digit c && Byte.eqb sp x20 then
          match parse_decimal 0 [s1; s2; s3] with
          | Some code => Some ([a; dot; c], Z.of_nat code)
          | None => None
          end
        else None
    | _ => None
    end
  else None.

Fixpoint lstrip_space (x : bytes) : bytes :=
  match x with
  | c :: rest => if Byte.eqb c x20 then lstrip_space rest else x
  | [] => []
  end.

Fixpoint parse_header_lines (ls : list bytes) : option (list (bytes * bytes)) :=
  match ls with
  | [] => Some []
  | l :: rest =>
      match cut (B ":") l, parse_header_lines rest with
      | Some (name, value), Some tl => Some ((name, lstrip_space value) :: tl)
      | _, _ => None
      end
  end.

Definition parse_head (block : bytes) : option h11_Response :=
  match lines (List.length block) block with
  | status_line :: header_lines =>
      match parse_status_line status_line, parse_header_lines header_lines with
      | Some (ver, code), Some hs => Some (mkH11Response code hs ver)
      | _, _ => None
      end
  | [] => None
  end.

(** Modelled from the spec: [next_event] of h11, the ingest side, as far as
    the status line and header block of a response: [NEED_DATA] until the
    block is complete, then an informational (1xx) or a final response. *)
Definition next (e : engine) : (h11_error + h11_in_event) * engine :=
  match theirs e with
  | SEND_RESPONSE =>
      match cut (CRLF ++ CRLF) (inbuf e) with
      | None => (inr NEED_DATA, e)
      | Some (block, rest) =>
          match parse_head block with
          | Some r =>
              if ((100 <=? h11_status_code r) && (h11_status_code r <? 200))%Z
              then (inr (InformationalResponse r),
                    mkEngine (ours e) SEND_RESPONSE (out_framing e) rest)
              else (inr (ResponseEvent r),
                    mkEngine (ours e) SEND_BODY (out_framing e) rest)
          | None =>
              (inl (RemoteProtocolError "illegal status line"),
               mkEngine (ours e) ERROR (out_framing e) (inbuf e))
          end
      end
  | SEND_BODY =>
      match inbuf e with
      | [] => (inr NEED_DATA, e)
      | _ :: _ =>
          (inr (DataEvent (inbuf e)),
           mkEngine (ours e) SEND_BODY (out_framing e) [])
      end
  | _ => (inr NEED_DATA, e)
  end.

Definition receive (data : bytes) (e : engine) : engine :=
  mkEngine (ours e) (theirs e) (out_framing e) (inbuf e ++ data).

(** Modelled from the spec: [send_failed] of h11 poisons our side. *)
Definition failed (e : engine) : engine := poison e.

(** Modelled from the spec: [start_next_cycle] of h11 returns the engine to
    IDLE/IDLE when both sides are done, and refuses otherwise. *)
Definition next_cycle (e : engine) : option h11_error * engine :=
  match ours e, theirs e with
  | DONE, DONE => (None, mkEngine IDLE IDLE (ContentLength 0) (inbuf e))
  | _, _ => (Some (LocalProtocolError "not in a reusable state"), e)
  end.

Definition fresh : engine := mkEngine IDLE IDLE (ContentLength 0) [].

Lemma cut_shorter sep buf before after :
  cut sep buf = Some (before, after) ->
  List.length after + List.length sep <= List.length buf \/ sep = [].
Proof.
  revert before after.
  induction buf as [| x tl IH]; intros before after; cbn [cut].
  - destruct sep as [| a sep]; cbn; [ now right | discriminate ].
  - destruct (is_prefix sep (x :: tl)) eqn:E.
    + intros Hc. inversion Hc; subst. rewrite List.length_skipn.
      destruct sep as [| a sep]; [ now right | left ].
      assert (Hlen : forall p l, is_prefix p l = true ->
                                 List.length p <= List.length l).
      { induction p as [| b p IHp]; intros [| c l]; cbn; try lia;
          try discriminate.
        intros Hp. apply andb_prop in Hp. destruct Hp as [_ Hp].
        apply IHp in Hp. lia. }
      apply Hlen in E. lia.
    + destruct (cut sep tl) as [[b a] |]; [ | discriminate ].
      intros Hc. inversion Hc; subst.
      destruct (IH b after eq_refl) as [Hle | Hnil]; [ left | now right ].
      cbn [List.length]. lia.
Qed.

Lemma next_informational_consumes c r c' :
  next c = (inr (InformationalResponse r), c') ->
  List.length (inbuf c') < List.length (inbuf c).
Proof.
  unfold next.
  destruct (theirs c); try discriminate.
  - destruct (inbuf c); discriminate.
  - destruct (cut (CRLF ++ CRLF) (inbuf c)) as [[block rest] |] eqn:Hcut;
      [ | discriminate ].
    destruct (parse_head block) as [r0 |]; [ | discriminate ].
    destruct ((100 <=? h11_status_code r0) && (h11_status_code r0 <? 200))%Z;
      intros E; inversion E; subst; cbn.
    apply cut_shorter in Hcut. cbn in Hcut.
    destruct Hcut as [Hle | Hnil]; [ lia | discriminate ].
Qed.

#[global] Instance spec_engine : H11 engine := {
  h11_Connection_CLIENT := fresh;
  our_state := ours;
  their_state := theirs;
  send := send_event;
  receive_data := receive;
  next_event := next;
  send_failed := failed;
  start_next_cycle := next_cycle;
  buffered := fun e => List.length (inbuf e);
  informational_consumes := next_informational_consumes
}.

End SpecEngine.

(** ** A scripted engine

    An engine whose incoming events are laid down in advance, each
    [receive_data] releasing the next batch.  The engine after the
    specification stops at the response head; this one instantiates [H11]
    for the runs of the body iterator and of [_reset]. *)

Module ScriptedEngine.

Record engine := mkEngine {
  ours : h11_state;
  theirs : h11_state;
  ready : list h11_in_event;            (* parsed, not yet handed out *)
  batches : list (list h11_in_event);   (* what each read will bring *)
  received : list bytes;                (* what was fed, oldest first *)
  reusable : bool                       (* whether the next cycle may start *)
}.

Definition next (e : engine) : (h11_error + h11_in_event) * engine :=
  match ready e with
  | [] => (inr NEED_DATA, e)
  | event :: rest =>
      (inr event,
       mkEngine (ours e) (theirs e) rest (batches e) (received e) (reusable e))
  end.

Definition receive (data : bytes) (e : engine) : engine :=
  match batches e with
  | [] =>
      mkEngine (ours e) (theirs e) (ready e) [] (received e ++ [data])
        (reusable e)
  | batch :: later =>
      mkEngine (ours e) (theirs e) (ready e ++ batch) later
        (received e ++ [data]) (reusable e)
  end.

Definition send_event (ev : h11_out_event) (e : engine)
  : (h11_error + bytes) * engine :=
  match ev with
  | H11Request m t _ =>
      (inr (m ++ B " " ++ t),
       mkEngine SEND_BODY SEND_RESPONSE (ready e) (batches e) (received e)
         (reusable e))
  | H11Data d => (inr d, e)
  | H11EndOfMessage =>
      (inr [],
       mkEngine DONE (theirs e) (ready e) (batches e) (received e) (reusable e))
  end.

Definition failed (e : engine) : engine :=
  mkEngine ERROR (theirs e) (ready e) (batches e) (received e) (reusable e).

Definition next_cycle (e : engine) : option h11_error * engine :=
  if reusable e
  then (None, mkEngine IDLE IDLE (ready e) (batches e) (received e) true)
  else (Some (LocalProtocolError "not in a reusable state"), e).

Definition fresh : engine := mkEngine IDLE IDLE [] [] [] true.

Lemma ready_informational_consumes c r c' :
  next c = (inr (InformationalResponse r), c') ->
  List.length (ready c') < List.length (ready c).
Proof.
  unfold next. destruct (ready c) as [| event rest]; [ discriminate | ].
  intros E. inversion E; subst. cbn. lia.
Qed.

#[global] Instance scripted_engine : H11 engine := {
  h11_Connection_CLIENT := fresh;
  our_state := ours;
  their_state := theirs;
  send := send_event;
  receive_data := receive;
  next_event := next;
  send_failed := failed;
  start_next_cycle := next_cycle;
  buffered := fun e => List.length (ready e);
  informational_consumes := ready_informational_consumes
}.

(** A response body of two chunks: the first is parsed already, the second
    and the end of the message come with the next read. *)
Definition mid_body (reuse : bool) : engine :=
  mkEngine DONE SEND_BODY [DataEvent (B "hello")]
    [[DataEvent (B "world"); EndOfMessageEvent]] [] reuse.

(** A connection to [localhost:443] on socket 3, reading that body. *)
Definition reading (reuse : bool) : HTTP1Connection engine :=
  set__state_machine (Some (mid_body reuse))
    (set__sock (Some 3) (__init__ "localhost" 443 None None None None [])).

End ScriptedEngine.

(** ** A concrete environment for the scenarios *)

Module Scenario.
Import SpecEngine.

Definition has_colon (host : string) : bool :=
  existsb (Ascii.eqb ":") (list_ascii_of_string host).

Definition is_host_header (h : header_name * header_value) : bool :=
  match fst h with
  | NameText n =>
      match encode_latin1 n with
      | Some b => bytes_eqb (lower b) (B "host")
      | None => false
      end
  | NameBytes n => bytes_eqb (lower n) (B "host")
  end.

(** [Request.add_host]: add a [Host] header unless there is one. *)
Definition add_host_header (host : string) (port : Z) (scheme : string)
  (r : Request) : Request :=
  if existsb is_host_header (headers r) then r
  else
    mkRequest (method r) (target r)
      ((NameText (T "Host"),
        ValueText (T (host ++ ":" ++ str_of_int port)%string))
         :: headers r)
      (request_body r).

Definition san_matches (cert : certificate) (host : string) : bool :=
  existsb (fun e => String.eqb (snd e) host) (subjectAltName cert).

(** A network where connecting yields socket 3, the TLS handshake wraps
    socket [s] into [s + 100], the peer presents a certificate for
    [localhost] and [::1], and closing never fails. *)
#[global] Instance env : Environment := {
  today := mkDate 2019 11 3;
  connect_outcome := fun _ _ _ _ => inr 3;
  forceful_close_outcome := fun _ => None;
  start_tls_outcome := fun s _ _ => inr (s + 100);
  peercert := fun _ =>
    mkCertificate [("DNS", "localhost"); ("IP Address", "::1")] "localhost";
  peercert_binary := fun _ => [];
  fingerprint_outcome := fun _ _ => None;
  hostname_outcome := fun cert host =>
    if san_matches cert host then None
    else Some (CertificateError "hostname doesn't match");
  _ASYNC_MODE := false;
  is_raw_ipv6 := has_colon;
  add_host := add_host_header
}.

(** The request of [test_chunks], with the framing header the pool adds. *)
Definition chunks : list bytes :=
  [B "foo"; B "bar"; B ""; B "bazzzzzzzzzzzzzzzzzzzzzz"].

Definition chunked_request : Request :=
  mkRequest (B "GET") (B "/")
    [(NameText (T "Host"), ValueText (T "localhost"));
     (NameText (T "DNT"), ValueText (T "1"));
     (NameText (T "Transfer-Encoding"), ValueText (T "chunked"))]
    (BodyIterable chunks).

(** The request of [test_unicode_body]; the code points of the four last
    letters are 228, 246, 252 and 223. *)
Definition unicode_body : text :=
  (T "thisshouldbeonechunk" ++ [13; 10; 228; 246; 252; 223]%N)%list.

Definition unicode_request : Request :=
  mkRequest (B "GET") (B "/")
    [(NameText (T "Host"), ValueText (T "localhost"))]
    (BodyText unicode_body).

(** Bytes a peer can send. *)
Definition wire (status_line : string) : bytes :=
  (list_byte_of_string status_line ++ CRLF ++ CRLF)%list.

Definition ok_200 : bytes := wire "HTTP/1.1 200 OK".
Definition too_large_413 : bytes := wire "HTTP/1.1 413 Payload Too Large".
Definition forbidden_403 : bytes := wire "HTTP/1.1 403 Forbidden".
Definition forbidden_403_http2 : bytes := wire "HTTP/2.0 403 Forbidden".

(** A connection to [localhost:443], connected on socket 3. *)
Definition connected : HTTP1Connection engine :=
  set__state_machine (Some fresh)
    (set__sock (Some 3)
       (__init__ "localhost" 443 None None None None [])).

(** A connection that reaches [example.org:443] through a proxy. *)
Definition proxied : HTTP1Connection engine :=
  set__state_machine (Some fresh)
    (set__sock (Some 3)
       (__init__ "proxy.local" 3128 None None (Some "example.org") (Some 443%Z) [])).

(** A connection to the bracketed IPv6 literal [[::1]]. *)
Definition bracketed : HTTP1Connection engine :=
  set__state_machine (Some fresh)
    (set__sock (Some 3) (__init__ "[::1]" 443 None None None None [])).

(** The request of [test_chunks] on an idle engine, with a peer that
    answers 413 as soon as the first packet is out. *)
Definition early_response : result h11_Response * state engine :=
  _start_http_request chunked_request (Some 3) None
    (mkState fresh [] [NetWritable; NetReadable too_large_413]).

(** The same request with a peer that waits for the whole body: four
    packets, the end of the generator, then the response. *)
Definition full_send : result h11_Response * state engine :=
  _start_http_request chunked_request (Some 3) None
    (mkState fresh []
       [NetWritable; NetWritable; NetWritable; NetWritable; NetWritable;
        NetReadable ok_200]).

(** [test_unicode_body]. *)
Definition unicode_send : result h11_Response * state engine :=
  _start_http_request unicode_request (Some 3) None
    (mkState fresh [] [NetWritable; NetReadable ok_200]).

(** The CONNECT exchange through the proxy, answered by [reply]. *)
Definition tunnel_script (reply : bytes) : list net_step :=
  [NetWritable; NetWritable; NetReadable reply].

Definition tunnel_exchange (reply : bytes)
  : result h11_Response * state engine :=
  _start_http_request
    (_build_tunnel_request "example.org" 443 []) (Some 3) None
    (mkState fresh [] (tunnel_script reply)).

Definition tunnel (reply : bytes)
  : result unit * state (HTTP1Connection engine) :=
  _tunnel 3 (mkState proxied [] (tunnel_script reply)).

End Scenario.

(** ** Vocabulary of the properties *)

(** The host names handed to [match_hostname], in call order. *)
Definition checked_hosts (tr : list call) : list string :=
  flat_map (fun c =>
              match c with
              | CallMatchHostname _ host => [host]
              | _ => []
              end) tr.

(** A host name counts as set when it is there and not empty. *)
Definition host_set (o : option string) (h : string) : Prop :=
  o = Some h /\ h <> EmptyString.

Definition host_unset (o : option string) : Prop :=
  o = None \/ o = Some EmptyString.

(** As the specification words it: square brackets are stripped from an
    IPv6 literal. *)
Definition strip_brackets (host : string) : string :=
  match host with
  | String "[" rest =>
      match rev (list_ascii_of_string rest) with
      | "]"%char :: middle => string_of_list_ascii (rev middle)
      | _ => host
      end
  | _ => host
  end.

(** As the specification words it: the name that is verified, with trailing
    dots and square brackets stripped. *)
Definition claimed_check_host {SM} (assert_hostname : assert_hostname_t)
  (self : HTTP1Connection SM) : string :=
  strip_brackets (rstrip_dot (choose_check_host assert_hostname self)).

(** Nothing was called on the transport: trace and script are as before. *)
Definition quiet {O P} (s : state O) (s' : state P) : Prop :=
  trace s' = trace s /\ script s' = script s.

(** The exceptions that serialising a request can raise. *)
Definition raised_while_serialising (e : exn) : Prop :=
  match e with
  | H11Error _ | UnicodeEncodeError | InvalidBodyError _ | RuntimeError _ => True
  | _ => False
  end.

(** [r] is a value, or an exception that satisfies [P]. *)
Definition raises_only {A} (P : exn -> Prop) (r : result A) : Prop :=
  match r with
  | Raise e => P e
  | Ok _ => True
  end.

(** What one [next] of the request generator can do: nothing on the
    transport, no exception but a serialisation one, and no empty piece. *)
Definition yields_truthy (r : result (generator_result request_bytes_state)) : Prop :=
  match r with
  | Ok (Yield piece _) => truthy piece = true
  | _ => True
  end.

(** The exceptions an exchange can let through: those of serialising, of
    h11 while parsing, and of the transport. *)
Definition raised_in_exchange (e : exn) : Prop :=
  match e with
  | H11Error _ | UnicodeEncodeError | InvalidBodyError _ | RuntimeError _
  | TransportError _ => True
  | _ => False
  end.

Definition is_WireFinished (c : call) : bool :=
  match c with WireFinished _ => true | _ => false end.

(** A wire event of the loop; a piece handed to the transport is never
    empty. *)
Definition is_wire (c : call) : Prop :=
  match c with
  | WireSend _ piece => piece <> []
  | WireFinished _ => True
  | _ => False
  end.

(** A body that [_make_body_iterable] does not accept: text, or anything
    else that is not [None], not bytes, has no [read] attribute and is not a
    non-text iterable. *)
Definition unacceptable (b : body) : Prop :=
  isinstance_text_type b = true
  \/ (is_None b = false
      /\ isinstance_bytes b = false
      /\ hasattr_read b = false
      /\ ~ (isinstance_Iterable b = true /\ isinstance_text_type b = false)).

(** [m] never writes to the object. *)
Definition leaves_object {O A} (m : M O A) : Prop :=
  forall s, this (snd (m s)) = this s.

(** [m] keeps [P] true of the object, also when it raises. *)
Definition preserves {O A} (P : O -> Prop) (m : M O A) : Prop :=
  forall s, P (this s) -> P (this (snd (m s))).

(** The connection holds a socket. *)
Definition socket_held {SM} (self : HTTP1Connection SM) : Prop :=
  _sock self <> None.

(** The state machine is only defined when the socket is. *)
Definition in_sync {SM} (self : HTTP1Connection SM) : Prop :=
  _sock self = None -> _state_machine self = None.

Section Vocabulary.
Context {SM : Type} `{H11 SM}.


(** What the callbacks leave alone. *)
Definition same_locals (s s' : state (frame SM)) : Prop :=
  quiet s s'
  /\ request_bytes_iterable (this s') = request_bytes_iterable (this s)
  /\ send_aborted (this s') = send_aborted (this s).

End Vocabulary.

(** Every block has [n] bytes, but for the last one. *)
Fixpoint full_but_last (n : nat) (blocks : list bytes) : Prop :=
  match blocks with
  | [] => True
  | block :: rest =>
      match rest with
      | [] => True
      | _ :: _ => List.length block = n /\ full_but_last n rest
      end
  end.

(** What a readable brings: its pieces up to the first empty one, at
    which [_read_readable] stops. *)
Fixpoint available (r : readable) : bytes :=
  match r with
  | [] => []
  | piece :: later =>
      match piece with
      | [] => []
      | _ :: _ => (piece ++ available later)%list
      end
  end.

(** Text as a native string; it is the text itself when its code points
    are Latin-1 ones. *)
Definition native_text (s : text) : string :=
  string_of_list_ascii (map ascii_of_N s).

(** A header as native strings: text as it is, bytes decoded as Latin-1, an
    integer in decimal. *)
Definition native_name (name : header_name) : string :=
  match name with
  | NameText s => native_text s
  | NameBytes b => string_of_list_byte b
  end.

Definition native_value (value : header_value) : string :=
  match value with
  | ValueText s => native_text s
  | ValueBytes b => string_of_list_byte b
  | ValueInt n => str_of_int n
  end.

(** A header whose name is text with a code point outside ASCII. *)
Definition non_ascii_name (h : header_name * header_value) : Prop :=
  match fst h with
  | NameText s => Exists (fun c => (128 <= c)%N) s
  | NameBytes _ => False
  end.

(** A header whose value is text with a code point outside Latin-1. *)
Definition non_latin1_value (h : header_name * header_value) : Prop :=
  match snd h with
  | ValueText s => Exists (fun c => (256 <= c)%N) s
  | ValueBytes _ | ValueInt _ => False
  end.


Definition is_StartTls (c : call) : bool :=
  match c with CallStartTls _ _ _ => true | _ => false end.

Definition is_SendAndReceive (c : call) : bool :=
  match c with CallSendAndReceive _ _ => true | _ => false end.

Definition is_verification (c : call) : bool :=
  match c with
  | CallAssertFingerprint _ _ | CallMatchHostname _ _ => true
  | _ => false
  end.

(** The exceptions that stand for a failure to dial. *)
Definition is_connect_error (e : exn) : bool :=
  match e with
  | ConnectTimeoutError _ | NewConnectionError _ => true
  | _ => false
  end.

Section MoreVocabulary.
Context {SM : Type} `{H11 SM}.



(** The engine after it has handed out informational responses only. *)
Inductive skips_informational : SM -> SM -> Prop :=
| skip_none c : skips_informational c c
| skip_one c r c' c'' :
    next_event c = (inr (InformationalResponse r), c') ->
    skips_informational c' c'' ->
    skips_informational c c''.

End MoreVocabulary.

(** The exceptions a read of the body can raise: those of h11 while
    parsing, those of the transport, and the one of a missing socket. *)
Definition raised_while_reading (e : exn) : Prop :=
  match e with
  | H11Error _ | TransportError _ | AttributeError _ => True
  | _ => False
  end.

(** The exceptions of an exchange as [_start_http_request] raises them. *)
Definition raised_by_request (e : exn) : Prop :=
  match e with
  | H11Error _ | UnicodeEncodeError | InvalidBodyError _ | RuntimeError _
  | TransportError _ | AssertionError | ProtocolError _ => True
  | _ => False
  end.

(** The exceptions [_tunnel] can raise: any but those of the dial and the
    sentinel of the loop. *)
Definition raised_by_tunnel (e : exn) : Prop :=
  match e with
  | ConnectTimeoutError _ | NewConnectionError _ | LoopAbort => False
  | _ => True
  end.

Section ConnectVocabulary.
Context {SM : Type} `{H11 SM} `{Environment}.

(** The keyword arguments of the dial: the source address as it is, the
    socket options when there are some. *)
Definition dial_kw (self : HTTP1Connection SM) : extra_kw :=
  mkExtraKw (_source_address self)
    (match _socket_options self with
     | Some ((_ :: _) as opts) => Some opts
     | _ => None
     end).

Definition dial (self : HTTP1Connection SM) (connect_timeout : option Z) : call :=
  CallBackendConnect (_host self) (_port self) connect_timeout (dial_kw self).

(** The connection right after a successful dial. *)
Definition dialled (self : HTTP1Connection SM) (raw : sock) : HTTP1Connection SM :=
  set__state_machine (Some h11_Connection_CLIENT) (set__sock (Some raw) self).

(** What [connect] does after the dial when an SSL context is given. *)
Definition secure (raw : sock) (ctx : ssl_context) (fp : option string)
  (ah : assert_hostname_t) (tunnel_host : option string)
  : M (HTTP1Connection SM) unit :=
  (match tunnel_host with
   | Some _ => if _ASYNC_MODE then ret tt else _tunnel raw
   | None => ret tt
   end) ;;
  tls <- _wrap_socket raw ctx fp ah ;;
  modify (set__sock (Some tls)).

End ConnectVocabulary.

(** ** More scenarios *)

Module Cases.

(** A peer that sends [100 Continue] before its final answer, and the
    first bytes of the body with it, in one segment. *)
Definition continue_then_ok : bytes :=
  (Scenario.wire "HTTP/1.1 100 Continue" ++ Scenario.ok_200 ++ B "body")%list.

Definition after_continue : result h11_Response * state SpecEngine.engine :=
  _start_http_request Scenario.chunked_request (Some 3) None
    (mkState SpecEngine.fresh []
       [NetWritable; NetWritable; NetWritable; NetWritable; NetWritable;
        NetReadable continue_then_ok]).

(** A scripted engine with nothing parsed: the body comes with the read. *)
Definition awaiting : ScriptedEngine.engine :=
  ScriptedEngine.mkEngine DONE SEND_BODY []
    [[DataEvent (B "world"); EndOfMessageEvent]] [] true.

(** Connections that have not dialled yet: to [localhost], to a host the
    peer's certificate does not name, and through a proxy. *)
Definition unconnected : HTTP1Connection SpecEngine.engine :=
  __init__ "localhost" 443 None None None None [].

Definition elsewhere : HTTP1Connection SpecEngine.engine :=
  __init__ "example.org" 443 None None None None [].

Definition through_proxy : HTTP1Connection SpecEngine.engine :=
  __init__ "proxy.local" 3128 None None (Some "example.org") (Some 443%Z) [].

(** The environment of the scenarios, in async mode. *)
Definition async_env : Environment := {|
  today := today;
  connect_outcome := connect_outcome;
  forceful_close_outcome := forceful_close_outcome;
  start_tls_outcome := start_tls_outcome;
  peercert := peercert;
  peercert_binary := peercert_binary;
  fingerprint_outcome := fingerprint_outcome;
  hostname_outcome := hostname_outcome;
  _ASYNC_MODE := true;
  is_raw_ipv6 := is_raw_ipv6;
  add_host := add_host
|}.

(** The same, with a backend whose connect times out. *)
Definition unreachable_env : Environment := {|
  today := today;
  connect_outcome := fun _ _ _ _ => inl SocketTimeout;
  forceful_close_outcome := forceful_close_outcome;
  start_tls_outcome := start_tls_outcome;
  peercert := peercert;
  peercert_binary := peercert_binary;
  fingerprint_outcome := fingerprint_outcome;
  hostname_outcome := hostname_outcome;
  _ASYNC_MODE := false;
  is_raw_ipv6 := is_raw_ipv6;
  add_host := add_host
|}.

(** Pulling the body to its end. *)
Definition pull3 (reuse : bool)
  : list (result anext_result) * state (HTTP1Connection ScriptedEngine.engine) :=
  let s0 := mkState (ScriptedEngine.reading reuse) [] [NetReadable (B "raw")] in
  let (r1, s1) := __anext__ s0 in
  let (r2, s2) := __anext__ s1 in
  let (r3, s3) := __anext__ s2 in
  ([r1; r2; r3], s3).

(** [connect] through the proxy, which refuses the tunnel with 403. *)
Definition refused
  : result unit * state (HTTP1Connection SpecEngine.engine) :=
  connect (Some (mkSslContext CERT_REQUIRED)) None AssertNone None
    (mkState through_proxy [] (Scenario.tunnel_script Scenario.forbidden_403)).

(** [connect] through the proxy in async mode. *)
Definition handshake_at_once
  : result unit * state (HTTP1Connection SpecEngine.engine) :=
  connect (H0 := async_env)
    (Some (mkSslContext CERT_REQUIRED)) None AssertNone None
    (mkState through_proxy [] (Scenario.tunnel_script Scenario.ok_200)).

End Cases.

(** ** Properties *)

Unset Implicit Arguments.

Lemma bytes_eqb_eq (x y : bytes) : bytes_eqb x y = true <-> x = y.
Proof.
  unfold bytes_eqb. destruct (list_eq_dec Byte.byte_eq_dec x y); split;
    congruence.
Qed.

Lemma in_supported_versions (v : bytes) :
  in_bytes_set v _SUPPORTED_VERSIONS = true <-> v = B "1.0" \/ v = B "1.1".
Proof.
  unfold in_bytes_set, _SUPPORTED_VERSIONS. cbn [existsb].
  rewrite !orb_true_iff, !bytes_eqb_eq. intuition discriminate.
Qed.

Lemma response_from_h11_unsupported (Body : Type) (r : h11_Response)
  (body_obj : Body) :
  in_bytes_set (http_version r) _SUPPORTED_VERSIONS = false ->
  _response_from_h11 r body_obj = inl (BadVersionError (http_version r)).
Proof. intros E. unfold _response_from_h11. now rewrite E. Qed.

Lemma response_from_h11_supported (Body : Type) (r : h11_Response)
  (body_obj : Body) :
  in_bytes_set (http_version r) _SUPPORTED_VERSIONS = true ->
  _response_from_h11 r body_obj
  = inr (mkResponse (h11_status_code r)
           (_headers_to_native_string (h11_headers r)) body_obj
           (B "HTTP/" ++ http_version r)%list).
Proof. intros E. unfold _response_from_h11. now rewrite E. Qed.

(** C6.  [_response_from_h11] raises [BadVersionError], and builds no
    response, when the version bytes of the h11 response are neither
    [b"1.0"] nor [b"1.1"]; otherwise it returns a response whose [version]
    is [b"HTTP/"] followed by those bytes. *)
Theorem response_from_h11_version (Body : Type) (r : h11_Response)
  (body_obj : Body) :
  (http_version r <> B "1.0" /\ http_version r <> B "1.1" ->
   _response_from_h11 r body_obj = inl (BadVersionError (http_version r)))
  /\
  (http_version r = B "1.0" \/ http_version r = B "1.1" ->
   exists resp,
     _response_from_h11 r body_obj = inr resp
     /\ version resp = (B "HTTP/" ++ http_version r)%list
     /\ status_code resp = h11_status_code r
     /\ response_body resp = body_obj).
Proof.
  split.
  - intros [H0 H1]. apply response_from_h11_unsupported.
    destruct (in_bytes_set (http_version r) _SUPPORTED_VERSIONS) eqn:E;
      [ | reflexivity ].
    apply in_supported_versions in E. destruct E; contradiction.
  - intros Hv. apply in_supported_versions in Hv.
    rewrite (response_from_h11_supported _ r body_obj Hv).
    eexists. repeat split.
Qed.

Lemma response_from_h11_version_witness :
  _response_from_h11 (mkH11Response 200 [] (B "2.0")) SelfConnection
  = inl (BadVersionError (B "2.0"))
  /\
  exists resp,
    _response_from_h11 (mkH11Response 200 [] (B "1.1")) SelfConnection
    = inr resp
    /\ version resp = B "HTTP/1.1"
    /\ status_code resp = 200%Z
    /\ response_body resp = SelfConnection.
Proof.
  split.
  - apply (proj1 (response_from_h11_version body_object
                    (mkH11Response 200 [] (B "2.0")) SelfConnection)).
    split; discriminate.
  - apply (proj2 (response_from_h11_version body_object
                    (mkH11Response 200 [] (B "1.1")) SelfConnection)).
    right. reflexivity.
Defined.

Section ObjectInvariant.
Context {SM : Type} `{H11 SM} `{Environment}.

Lemma leaves_ret {O A} (a : A) : leaves_object (ret (O := O) a).
Proof. intros s. reflexivity. Qed.

Lemma leaves_raise {O A} (e : exn) : leaves_object (raise (O := O) (A := A) e).
Proof. intros s. reflexivity. Qed.

Lemma leaves_record_call {O} (c : call) : leaves_object (record_call (O := O) c).
Proof. intros s. reflexivity. Qed.

Lemma leaves_get {O} : leaves_object (get (O := O)).
Proof. intros s. reflexivity. Qed.

Lemma leaves_bind {O A C} (m : M O A) (k : A -> M O C) :
  leaves_object m -> (forall a, leaves_object (k a)) -> leaves_object (bind m k).
Proof.
  intros Hm Hk s. unfold bind. specialize (Hm s).
  destruct (m s) as [[a | e] s1]; cbn [snd] in *.
  - now rewrite Hk.
  - exact Hm.
Qed.

Lemma leaves_zoom_local {O P A} (proj : P -> O) (m : M O A) :
  leaves_object (zoom proj (fun _ p => p) m).
Proof.
  intros s. unfold zoom.
  destruct (m (mkState (proj (this s)) (trace s) (script s))). reflexivity.
Qed.

Lemma leaves_outcome {O} (o : option transport_error) :
  leaves_object (outcome (O := O) o).
Proof. destruct o; intros s; reflexivity. Qed.

Lemma leaves_lift {O A} (r : exn + A) : leaves_object (lift (O := O) r).
Proof. destruct r; intros s; reflexivity. Qed.

Lemma preserves_of_leaves {O A} (P : O -> Prop) (m : M O A) :
  leaves_object m -> preserves P m.
Proof. intros Hm s Hp. now rewrite Hm. Qed.

Lemma preserves_bind {O A C} (P : O -> Prop) (m : M O A) (k : A -> M O C) :
  preserves P m -> (forall a, preserves P (k a)) -> preserves P (bind m k).
Proof.
  intros Hm Hk s Hp. unfold bind. specialize (Hm s Hp).
  destruct (m s) as [[a | e] s1]; cbn [snd] in *.
  - now apply Hk.
  - exact Hm.
Qed.

Lemma preserves_modify {O} (P : O -> Prop) (f : O -> O) :
  (forall o, P o -> P (f o)) -> preserves P (modify f).
Proof. intros Hf s Hp. cbn. now apply Hf. Qed.

Create HintDb frame.

#[local] Hint Resolve leaves_ret leaves_raise leaves_record_call leaves_get
  leaves_zoom_local leaves_outcome leaves_lift : frame.

(** [_tunnel] works on the raw socket and on a state machine of its own. *)
Lemma tunnel_leaves_object (s : sock) :
  leaves_object (_tunnel (SM := SM) s).
Proof.
  unfold _tunnel. apply leaves_bind; [ auto with frame | ].
  intros self. destruct (_state_machine self) as [c |]; [ | auto with frame ].
  destruct (negb (is_IDLE (our_state c))); [ auto with frame | ].
  destruct (_tunnel_host self), (_tunnel_port self); auto with frame.
  apply leaves_bind; [ unfold on_local_machine; auto with frame | ].
  intros r. apply leaves_bind; [ auto with frame | ]. intros resp.
  destruct (negb (h11_status_code r =? 200)%Z); [ | auto with frame ].
  apply leaves_bind; [ | auto with frame ].
  unfold sock_forceful_close. apply leaves_bind; auto with frame.
Qed.

(** [_wrap_socket] only writes [is_verified]. *)
Lemma wrap_socket_preserves (P : HTTP1Connection SM -> Prop) s ctx fp ah :
  (forall b self, P self -> P (set_is_verified b self)) ->
  preserves P (_wrap_socket s ctx fp ah).
Proof.
  intros HP. unfold _wrap_socket.
  apply preserves_bind.
  { apply preserves_of_leaves. destruct (date_ltb today RECENT_DATE);
      auto with frame. }
  intros _. apply preserves_bind; [ apply preserves_of_leaves; auto with frame | ].
  intros self. apply preserves_bind.
  { apply preserves_of_leaves. unfold sock_start_tls.
    apply leaves_bind; [ auto with frame | ]. intros _.
    destruct (start_tls_outcome _ _ _); auto with frame. }
  intros tls. apply preserves_bind.
  { apply preserves_of_leaves.
    destruct (truthy_opt_text fp).
    - apply leaves_bind; [ auto with frame | ]. intros _.
      unfold assert_fingerprint. apply leaves_bind; auto with frame.
    - destruct (negb (verify_mode_eqb (verify_mode ctx) CERT_NONE)
                && is_not_False ah); [ | auto with frame ].
      apply leaves_bind; [ auto with frame | ]. intros _.
      apply leaves_bind.
      + destruct (subjectAltName (peercert tls)); auto with frame.
      + intros _. unfold match_hostname. apply leaves_bind; auto with frame. }
  intros _. apply preserves_bind.
  - apply preserves_modify. intros o. apply HP.
  - intros _. apply preserves_of_leaves. auto with frame.
Qed.

Lemma socket_held_in_sync (self : HTTP1Connection SM) :
  socket_held self -> in_sync self.
Proof. intros Hs Hn. contradiction. Qed.

(** The comment in [close] states the invariant: the state machine is only
    defined when the socket is.  Building, connecting and closing keep it. *)
Lemma init_in_sync host port opts src th tp ths :
  in_sync (__init__ (SM := SM) host port opts src th tp ths).
Proof. intros _. reflexivity. Qed.

Lemma close_in_sync : preserves in_sync (close (SM := SM)).
Proof.
  intros st Hs. unfold close, bind, get. cbn.
  destruct (_sock (this st)) eqn:E; cbn.
  - unfold sock_forceful_close, bind, record_call, outcome. cbn.
    destruct (forceful_close_outcome s); intros _; reflexivity.
  - exact Hs.
Qed.

Lemma connect_in_sync ssl_ctx fp ah t :
  preserves in_sync (connect (SM := SM) ssl_ctx fp ah t).
Proof.
  intros st Hs. unfold connect. unfold bind at 1. unfold get at 1.
  destruct (_sock (this st)) eqn:Hsock.
  - exact Hs.
  - unfold bind at 1. unfold bind at 1. unfold record_call at 1.
    cbn [this trace script].
    destruct (connect_outcome _ _ _ _) as [[| msg | msg] | sk];
      try exact Hs.
    unfold bind at 1. unfold modify at 1 2. cbn [this trace script].
    destruct ssl_ctx as [ctx |]; [ | apply socket_held_in_sync; discriminate ].
    apply socket_held_in_sync.
    match goal with
    | |- socket_held (this (snd (?m ?s0))) =>
        assert (Hp : preserves socket_held m); [ | apply Hp; discriminate ]
    end.
    apply preserves_bind; [ apply preserves_of_leaves; auto with frame | ].
    intros self. destruct (_sock self) as [raw |];
      [ | apply preserves_of_leaves; auto with frame ].
    apply preserves_bind.
    { apply preserves_of_leaves. destruct (_tunnel_host self);
        [ destruct _ASYNC_MODE | ]; auto with frame.
      apply tunnel_leaves_object. }
    intros _. apply preserves_bind.
    + apply wrap_socket_preserves. intros b o Ho. exact Ho.
    + intros tls. apply preserves_modify. discriminate.
Qed.

End ObjectInvariant.

Section ConnectionProperties.
Context {SM : Type} `{H11 SM} `{Environment}.

Lemma is_IDLE_true (s : h11_state) : is_IDLE s = true <-> s = IDLE.
Proof. destruct s; cbn; split; congruence. Qed.

(** C7.  [complete] is true exactly when the connection has no state
    machine, or both [our_state] and [their_state] of its state machine are
    IDLE.  A connection just built has none, so it is complete. *)
Theorem complete_iff (self : HTTP1Connection SM) :
  (complete self = true <->
   _state_machine self = None
   \/ exists c, _state_machine self = Some c
                /\ our_state c = IDLE /\ their_state c = IDLE)
  /\ (forall host port opts src th tp ths,
         complete (__init__ (SM := SM) host port opts src th tp ths) = true).
Proof.
  split; [ | reflexivity ].
  unfold complete. destruct (_state_machine self) as [c |].
  - rewrite andb_true_iff, !is_IDLE_true. split.
    + intros [Ho Ht]. right. exists c. auto.
    + intros [Hn | [c' [Hc [Ho Ht]]]]; [ discriminate | ].
      inversion Hc; subst. auto.
  - split; auto.
Qed.

(** C9.  [close] is idempotent.  On a connection that holds a socket, the
    first call leaves [_sock] and [_state_machine] at [None] and invokes
    [forceful_close] on that socket exactly once, whether or not that call
    raises; on a connection without a socket it does nothing, and such a
    connection has no state machine either when the two are in sync, as
    they are from [__init__] on.  A second call returns normally and
    changes nothing: same object, same trace. *)
Theorem close_idempotent (st : state (HTTP1Connection SM)) :
  _sock (this (snd (close st))) = None
  /\ (forall s, _sock (this st) = Some s ->
        _state_machine (this (snd (close st))) = None
        /\ trace (snd (close st)) = trace st ++ [CallForcefulClose s])
  /\ (_sock (this st) = None -> close st = (Ok tt, st))
  /\ (in_sync (this st) -> _state_machine (this (snd (close st))) = None)
  /\ close (snd (close st)) = (Ok tt, snd (close st)).
Proof.
  assert (Hsync : in_sync (this st) ->
                  _state_machine (this (snd (close st))) = None).
  { intros Hs. apply (close_in_sync st Hs).
    unfold close, bind, get. cbn. destruct (_sock (this st)) eqn:E; cbn.
    - unfold sock_forceful_close, bind, record_call, outcome. cbn.
      destruct (forceful_close_outcome s); reflexivity.
    - exact E. }
  revert Hsync.
  unfold close, bind, get, modify, sock_forceful_close, bind, record_call,
    outcome, raise, ret.
  destruct st as [self tr sc]. cbn.
  destruct (_sock self) as [s |] eqn:Hs; cbn.
  - destruct (forceful_close_outcome s); cbn; intros Hsync;
      (split; [ reflexivity | ]);
      (split; [ intros s0 E; inversion E; subst; split; reflexivity | ]);
      (split; [ discriminate | ]);
      (split; [ reflexivity | reflexivity ]).
  - rewrite Hs. intros Hsync. split; [ reflexivity | ].
    split; [ discriminate | ]. split; [ reflexivity | ].
    split; [ exact Hsync | reflexivity ].
Qed.

(** C10.  [connect] on a connection whose socket is already open returns at
    once: the object is left as it is (same socket, same state machine) and
    the only call made is [set_readable_watch_state(False)] on that socket;
    the backend's connect, the tunnel and the TLS wrapping are not run. *)
Theorem connect_already_connected (st : state (HTTP1Connection SM))
  (s : sock) (ssl_ctx : option ssl_context) (fingerprint : option string)
  (assert_hostname : assert_hostname_t) (connect_timeout : option Z) :
  _sock (this st) = Some s ->
  connect ssl_ctx fingerprint assert_hostname connect_timeout st
  = (Ok tt,
     mkState (this st) (trace st ++ [CallSetReadableWatchState s false])
       (script st)).
Proof.
  intros Hs. unfold connect, bind, get. cbn. rewrite Hs. reflexivity.
Qed.

End ConnectionProperties.

Lemma close_idempotent_witness :
  let st := mkState Scenario.connected [] [] in
  _sock (this (snd (close st))) = None
  /\ _state_machine (this (snd (close st))) = None
  /\ trace (snd (close st)) = [CallForcefulClose 3]
  /\ close (snd (close st)) = (Ok tt, snd (close st)).
Proof.
  pose proof (close_idempotent (mkState Scenario.connected [] [])) as Hc.
  destruct Hc as [Hsock [Hfirst [_ [_ Hagain]]]].
  destruct (Hfirst 3 eq_refl) as [Hsm Htr].
  cbv zeta. repeat split; assumption.
Defined.

Lemma connect_already_connected_witness :
  connect (Some (mkSslContext CERT_REQUIRED)) None AssertNone (Some 5%Z)
    (mkState Scenario.connected [] [])
  = (Ok tt, mkState Scenario.connected [CallSetReadableWatchState 3 false] []).
Proof.
  exact (connect_already_connected (mkState Scenario.connected [] []) 3
           (Some (mkSslContext CERT_REQUIRED)) None AssertNone (Some 5%Z)
           eq_refl).
Defined.

Section WrapSocketProperties.
Context {SM : Type} `{H11 SM} `{Environment}.

Lemma checked_hosts_app (a b : list call) :
  checked_hosts (a ++ b) = (checked_hosts a ++ checked_hosts b)%list.
Proof. unfold checked_hosts. apply flat_map_app. Qed.

Lemma or_else_set (o : option string) (h d : string) :
  host_set o h -> or_else o d = h.
Proof.
  intros [Ho Hne]. subst o. cbn. destruct h; [ contradiction | reflexivity ].
Qed.

Lemma or_else_unset (o : option string) (d : string) :
  host_unset o -> or_else o d = d.
Proof. intros [Ho | Ho]; subst o; reflexivity. Qed.

Lemma rstrip_dot_app_dot (s : string) :
  rstrip_dot (s ++ ".") = rstrip_dot s.
Proof.
  induction s as [| c s IH]; cbn; [ reflexivity | ].
  rewrite IH. reflexivity.
Qed.

Lemma rstrip_dot_no_trailing_dot (s : string) (c : ascii) :
  c <> "."%char -> rstrip_dot (s ++ String c EmptyString) = (s ++ String c EmptyString)%string.
Proof.
  intros Hc. induction s as [| d s IH]; cbn.
  - apply Ascii.eqb_neq in Hc. rewrite Hc. reflexivity.
  - rewrite IH. destruct s; reflexivity.
Qed.

(** C8 (amended).  When no fingerprint is supplied, hostname checking is on
    ([verify_mode] is not [CERT_NONE] and [assert_hostname] is not [False])
    and the TLS handshake succeeds, [_wrap_socket] verifies the peer
    certificate against exactly one name: [assert_hostname] if set, otherwise
    the tunnel host if set, otherwise the connection's host, with trailing
    dots stripped and nothing else changed (brackets are kept). *)
Theorem wrap_socket_checked_host (st : state (HTTP1Connection SM)) (s tls : sock)
  (ctx : ssl_context) (fingerprint : option string)
  (assert_hostname : assert_hostname_t) (chosen : string) :
  (host_set (hostname_of assert_hostname) chosen
   \/ (host_unset (hostname_of assert_hostname)
       /\ host_set (_tunnel_host (this st)) chosen)
   \/ (host_unset (hostname_of assert_hostname)
       /\ host_unset (_tunnel_host (this st))
       /\ chosen = _host (this st))) ->
  truthy_opt_text fingerprint = false ->
  verify_mode ctx <> CERT_NONE ->
  assert_hostname <> AssertFalse ->
  start_tls_outcome s (rstrip_dot chosen) ctx = inr tls ->
  exists before,
    trace (snd (_wrap_socket s ctx fingerprint assert_hostname st))
    = (trace st ++ before
       ++ [CallMatchHostname (peercert tls) (rstrip_dot chosen)])%list
    /\ checked_hosts before = []
    /\ In (CallStartTls s (rstrip_dot chosen) ctx) before.
Proof.
  intros Hchosen Hfp Hmode Hah Htls.
  assert (Hc : choose_check_host assert_hostname (this st) = chosen).
  { unfold choose_check_host.
    destruct Hchosen as [Ha | [[Hu Ht] | [Hu [Hut Hh]]]].
    - now apply or_else_set.
    - rewrite (or_else_unset _ _ Hu). now apply or_else_set.
    - rewrite (or_else_unset _ _ Hu), (or_else_unset _ _ Hut). now symmetry. }
  assert (Hm : negb (verify_mode_eqb (verify_mode ctx) CERT_NONE) = true)
    by (destruct (verify_mode ctx); cbn; congruence).
  assert (Hn : is_not_False assert_hostname = true)
    by (destruct assert_hostname; cbn; congruence).
  unfold _wrap_socket, bind, get, sock_start_tls, bind, record_call,
    match_hostname, bind, record_call, modify, outcome, ret, raise.
  destruct st as [self tr sc]. cbn [this trace script fst snd] in *.
  exists ((if date_ltb today RECENT_DATE then [CallWarn SystemTimeWarning] else [])
          ++ [CallStartTls s (rstrip_dot chosen) ctx; CallGetPeerCert tls false]
          ++ match subjectAltName (peercert tls) with
             | [] => [CallWarn SubjectAltNameWarning]
             | _ :: _ => []
             end)%list.
  destruct (date_ltb today RECENT_DATE); cbn [this trace script fst snd];
    rewrite Hc, Htls; cbn [this trace script fst snd];
    rewrite Hfp, Hm, Hn; cbn [andb this trace script fst snd];
    destruct (subjectAltName (peercert tls));
    cbn [this trace script fst snd];
    destruct (hostname_outcome (peercert tls) (rstrip_dot chosen));
    cbn [this trace script fst snd app];
    rewrite <- ?app_assoc; cbn [app];
    (split; [ reflexivity | split; [ reflexivity | cbn; tauto ] ]).
Qed.

End WrapSocketProperties.

Lemma wrap_socket_checked_host_witness :
  exists before,
    trace (snd (_wrap_socket 3 (mkSslContext CERT_REQUIRED) None
                  (AssertHost "localhost.")
                  (mkState Scenario.proxied [] [])))
    = ([] ++ before
       ++ [CallMatchHostname (peercert 103) (rstrip_dot "localhost.")])%list
    /\ checked_hosts before = []
    /\ In (CallStartTls 3 (rstrip_dot "localhost.") (mkSslContext CERT_REQUIRED))
         before.
Proof.
  apply (wrap_socket_checked_host (mkState Scenario.proxied [] []) 3 103
           (mkSslContext CERT_REQUIRED) None (AssertHost "localhost.")
           "localhost.").
  - left. split; [ reflexivity | discriminate ].
  - reflexivity.
  - discriminate.
  - discriminate.
  - reflexivity.
Defined.

(** C8 as the specification states it fails on a bracketed IPv6 literal,
    be it the connection's host or [assert_hostname]: the name handed to
    [match_hostname] still carries the brackets, where the specification
    promises [::1]. *)
Lemma wrap_socket_keeps_brackets :
  checked_hosts
    (trace (snd (_wrap_socket 3 (mkSslContext CERT_REQUIRED) None AssertNone
                   (mkState Scenario.bracketed [] []))))
  = ["[::1]"]
  /\ claimed_check_host AssertNone Scenario.bracketed = "::1"
  /\ checked_hosts
       (trace (snd (_wrap_socket 3 (mkSslContext CERT_REQUIRED) None
                      (AssertHost "[::1]")
                      (mkState Scenario.connected [] []))))
     = ["[::1]"]
  /\ claimed_check_host (AssertHost "[::1]") Scenario.connected = "::1"
  /\ checked_hosts
       (trace (snd (_wrap_socket 3 (mkSslContext CERT_REQUIRED) None AssertNone
                      (mkState Scenario.bracketed [] []))))
     <> [claimed_check_host AssertNone Scenario.bracketed].
Proof. repeat split. discriminate. Qed.

Lemma bind_inv {O A C} (m : M O A) (k : A -> M O C) s r s' :
  bind m k s = (r, s') ->
  (exists e, m s = (Raise e, s') /\ r = Raise e)
  \/ (exists a s1, m s = (Ok a, s1) /\ k a s1 = (r, s')).
Proof.
  unfold bind. destruct (m s) as [[a | e] s1]; intros E.
  - right. eauto.
  - left. inversion E; subst. eauto.
Qed.

Section SerialiserProperties.
Context {SM : Type} `{H11 SM}.



Lemma state_machine_send_quiet event s r s' :
  state_machine_send event s = (r, s') ->
  quiet s s' /\ raises_only raised_while_serialising r.
Proof.
  unfold state_machine_send, quiet.
  destruct (send event (this s)) as [[e | d] c]; intros E; inversion E; subst;
    cbn; repeat split.
Qed.

Lemma next_body_piece_quiet chunks s r s' :
  next_body_piece chunks s = (r, s') ->
  quiet s s' /\ raises_only raised_while_serialising r.
Proof.
  unfold next_body_piece.
  destruct chunks as [| chunk rest]; intros E; apply bind_inv in E;
    destruct E as [[e [E Hr]] | [a [s1 [E Hk]]]];
    apply state_machine_send_quiet in E; destruct E as [Hq He];
    try (subst r; split; [ exact Hq | exact He ]);
    inversion Hk; subst; (split; [ exact Hq | exact I ]).
Qed.

Lemma quiet_refl {O} (s : state O) : quiet s s.
Proof. split; reflexivity. Qed.

Lemma quiet_trans {O P Q} (a : state O) (b : state P) (c : state Q) :
  quiet a b -> quiet b c -> quiet a c.
Proof. unfold quiet. intros [? ?] [? ?]. split; congruence. Qed.

Lemma make_body_iterable_raises b e :
  _make_body_iterable b = inl e -> exists msg, e = InvalidBodyError msg.
Proof.
  unfold _make_body_iterable.
  destruct b; cbn; intros E; inversion E; eauto.
Qed.

Lemma all_pieces_iter_quiet request g s r s' :
  all_pieces_iter request g s = (r, s') ->
  quiet s s' /\ raises_only raised_while_serialising r.
Proof.
  unfold all_pieces_iter. destruct g as [| | rest | |].
  - destruct (_stringify_headers (headers request)).
    + intros E. apply bind_inv in E.
      destruct E as [[e [E Hr]] | [a [s1 [E Hk]]]];
        apply state_machine_send_quiet in E; destruct E as [Hq He].
      * subst r. split; [ exact Hq | exact He ].
      * inversion Hk; subst. split; [ exact Hq | exact I ].
    + intros E. inversion E; subst. split; [ apply quiet_refl | exact I ].
  - destruct (_make_body_iterable (request_body request)) as [e | chunks] eqn:Hb.
    + intros E. inversion E; subst. split; [ apply quiet_refl | ].
      apply make_body_iterable_raises in Hb. destruct Hb as [msg ->]. exact I.
    + apply next_body_piece_quiet.
  - apply next_body_piece_quiet.
  - intros E. inversion E; subst. split; [ apply quiet_refl | exact I ].
  - intros E. inversion E; subst. split; [ apply quiet_refl | exact I ].
Qed.

Lemma filter_pieces_spec request g s r s' :
  filter_pieces request g s = (r, s') ->
  quiet s s' /\ raises_only raised_while_serialising r /\ yields_truthy r.
Proof.
  funelim (filter_pieces request g s);
    match goal with
    | Hstep : all_pieces_iter _ _ _ = _ |- _ =>
        pose proof (all_pieces_iter_quiet _ _ _ _ _ Hstep) as [Hq He]
    end.
  - destruct (truthy piece) eqn:Ht.
    + intros E. inversion E; subst. split; [ exact Hq | ].
      split; [ exact I | exact Ht ].
    + intros E.
      match goal with
      | IH : forall _ _, filter_pieces _ _ _ = _ -> _ |- _ =>
          apply IH in E; destruct E as [Hq' Hrest]
      end.
      split; [ exact (quiet_trans _ _ _ Hq Hq') | exact Hrest ].
  - intros E. inversion E; subst. split; [ exact Hq | ].
    split; exact I.
  - intros E. inversion E; subst. split; [ exact Hq | ].
    split; [ exact He | exact I ].
Qed.

Lemma next_or_fail_quiet request g s r s' :
  next_or_fail request g s = (r, s') ->
  quiet s s' /\ raises_only raised_while_serialising r.
Proof.
  unfold next_or_fail. intros E. apply bind_inv in E.
  destruct E as [[e [E Hr]] | [a [s1 [E Hk]]]];
    apply all_pieces_iter_quiet in E; destruct E as [Hq He].
  - subst r. split; [ exact Hq | exact He ].
  - destruct a; inversion Hk; subst; (split; [ exact Hq | exact I ]).
Qed.

Lemma request_bytes_iterable_spec request g s r s' :
  _request_bytes_iterable request g s = (r, s') ->
  quiet s s' /\ raises_only raised_while_serialising r /\ yields_truthy r.
Proof.
  destruct g as [| remaining |]; cbn [_request_bytes_iterable].
  - intros E. apply bind_inv in E.
    destruct E as [[e [E Hr]] | [p1 [s1 [E1 E]]]].
    { apply next_or_fail_quiet in E. destruct E as [Hq He]. subst r.
      split; [ exact Hq | ]. split; [ exact He | exact I ]. }
    apply next_or_fail_quiet in E1. destruct E1 as [Hq1 _].
    apply bind_inv in E.
    destruct E as [[e [E Hr]] | [p2 [s2 [E2 E]]]].
    { apply next_or_fail_quiet in E. destruct E as [Hq He]. subst r.
      split; [ exact (quiet_trans _ _ _ Hq1 Hq) | ].
      split; [ exact He | exact I ]. }
    apply next_or_fail_quiet in E2. destruct E2 as [Hq2 _].
    pose proof (quiet_trans _ _ _ Hq1 Hq2) as Hq12.
    destruct (truthy (fst p1 ++ fst p2)) eqn:Ht.
    + inversion E; subst. split; [ exact Hq12 | ].
      split; [ exact I | exact Ht ].
    + apply filter_pieces_spec in E. destruct E as [Hq Hrest].
      split; [ exact (quiet_trans _ _ _ Hq12 Hq) | exact Hrest ].
  - apply filter_pieces_spec.
  - intros E. inversion E; subst. split; [ apply quiet_refl | ].
    split; exact I.
Qed.

End SerialiserProperties.

Section ChunkedProperties.
Context {SM : Type} `{H11 SM}.

Lemma truthy_nonempty (piece : bytes) : truthy piece = true <-> piece <> [].
Proof. destruct piece; cbn; split; congruence. Qed.




End ChunkedProperties.




Section ExchangeProperties.
Context {SM : Type} `{H11 SM}.

Lemma serialising_in_exchange {A} (r : result A) :
  raises_only raised_while_serialising r -> raises_only raised_in_exchange r.
Proof. destruct r as [a | e]; [ auto | ]. destruct e; cbn; auto. Qed.

Lemma next_events_spec s r s' :
  next_events s = (r, s') ->
  same_locals s s'
  /\ match r with
     | Ok _ => h11_response (this s') = h11_response (this s)
     | Raise LoopAbort => h11_response (this s') <> None
     | Raise e => raised_in_exchange e
     end.
Proof.
  funelim (next_events s);
    try solve [ intros E; inversion E; subst; cbn;
                repeat split; try discriminate; auto ].
  intros E.
  match goal with
  | IH : forall _ _, next_events _ = _ -> _ |- _ =>
      apply IH in E; destruct E as [[[Ht Hs] [Hg Ha]] Hr]
  end.
  cbn in *. repeat split; auto.
Qed.

Lemma consume_bytes_spec data s r s' :
  consume_bytes data s = (r, s') ->
  same_locals s s'
  /\ match r with
     | Ok _ => h11_response (this s') = h11_response (this s)
     | Raise LoopAbort => h11_response (this s') <> None
     | Raise e => raised_in_exchange e
     end.
Proof.
  unfold consume_bytes, bind, modify. intros E.
  apply next_events_spec in E. cbn in E.
  destruct E as [[[Ht Hs] [Hg Ha]] Hr]. repeat split; auto.
Qed.

Lemma produce_bytes_spec request s r s' :
  produce_bytes request s = (r, s') ->
  quiet s s'
  /\ h11_response (this s') = h11_response (this s)
  /\ match r with
     | Ok (Some piece) =>
         truthy piece = true
         /\ send_aborted (this s') = send_aborted (this s)
     | Ok None => send_aborted (this s') = false
     | Raise e =>
         raised_while_serialising e
         /\ send_aborted (this s') = send_aborted (this s)
     end.
Proof.
  unfold produce_bytes, bind, get, zoom.
  destruct (_request_bytes_iterable request (request_bytes_iterable (this s))
              (mkState (state_machine (this s)) (trace s) (script s)))
    as [[[piece g |] | e] s1] eqn:E;
    apply request_bytes_iterable_spec in E;
    destruct E as [[Ht Hs] [He Hy]]; cbn in Ht, Hs, He, Hy;
    intros E; inversion E; subst; cbn; repeat split; auto.
Qed.

Lemma catch_LoopAbort_inv {O} (m : M O unit) s r s' :
  catch_LoopAbort m s = (r, s') ->
  (exists u, m s = (Ok u, s') /\ r = Ok false)
  \/ (m s = (Raise LoopAbort, s') /\ r = Ok true)
  \/ (exists e, m s = (Raise e, s') /\ r = Raise e /\ e <> LoopAbort).
Proof.
  unfold catch_LoopAbort. destruct (m s) as [[u | e] s1].
  - intros E. inversion E; subst. left. eauto.
  - destruct e; intros E; inversion E; subst;
      try (right; right; eexists; repeat split; discriminate).
    right. left. auto.
Qed.

(** The send-and-receive loop, driven by the callbacks of
    [_start_http_request]: it only adds wire events to the trace, the
    [send_aborted] flag falls exactly when the producer reports the end, and
    the loop returns only with a response in hand. *)
Lemma transfer_spec request sk steps :
  forall fin s r s',
    transfer sk (produce_bytes request) consume_bytes steps fin s = (r, s') ->
    exists new,
      trace s' = (trace s ++ new)%list
      /\ Forall is_wire new
      /\ send_aborted (this s')
         = send_aborted (this s) && negb (existsb is_WireFinished new)
      /\ match r with
         | Ok _ => h11_response (this s') <> None
         | Raise e => raised_in_exchange e
         end.
Proof.
  assert (Hnil : forall (s s' : state (frame SM)) (r : result unit),
             trace s' = trace s ->
             send_aborted (this s') = send_aborted (this s) ->
             match r with
             | Ok _ => h11_response (this s') <> None
             | Raise e => raised_in_exchange e
             end ->
             exists new,
               trace s' = (trace s ++ new)%list
               /\ Forall is_wire new
               /\ send_aborted (this s')
                  = send_aborted (this s) && negb (existsb is_WireFinished new)
               /\ match r with
                  | Ok _ => h11_response (this s') <> None
                  | Raise e => raised_in_exchange e
                  end).
  { intros s s' r Ht Ha Hr. exists []. rewrite List.app_nil_r. cbn.
    rewrite andb_true_r. repeat split; auto. }
  induction steps as [| step rest IH]; intros fin s r s' E.
  - inversion E; subst.
    apply (Hnil _ _ (Raise (TransportError SocketTimeout))); auto. exact I.
  - cbn [transfer] in E. unfold bind at 1 in E. unfold set_script at 1 in E.
    destruct step as [| data | e].
    + destruct fin.
      * apply IH in E. exact E.
      * apply bind_inv in E. destruct E as [[e [E Hr]] | [b [s2 [E Hk]]]];
          apply produce_bytes_spec in E; destruct E as [[Ht Hs] [Hh Hb]];
          cbn [this trace script] in Ht, Hs, Hh, Hb.
        -- subst r. destruct Hb as [He Ha].
           apply (Hnil _ _ (Raise e)); auto.
           now apply (serialising_in_exchange (Raise (A := unit) e)).
        -- destruct b as [piece |]; unfold bind at 1 in Hk;
             unfold record_call at 1 in Hk; apply IH in Hk;
             destruct Hk as [new [Htr [Hw [Ha Hr]]]];
             cbn [this trace script] in Htr, Ha.
           ++ exists (WireSend sk piece :: new). destruct Hb as [Htp Hb].
              split; [ rewrite Htr, Ht, <- List.app_assoc; reflexivity | ].
              split; [ constructor; [ now apply truthy_nonempty | exact Hw ] | ].
              split; [ rewrite Ha, Hb; reflexivity | exact Hr ].
           ++ exists (WireFinished sk :: new).
              split; [ rewrite Htr, Ht, <- List.app_assoc; reflexivity | ].
              split; [ constructor; [ exact I | exact Hw ] | ].
              split; [ rewrite Ha, Hb; cbn; now rewrite andb_false_r | exact Hr ].
    + apply bind_inv in E. destruct E as [[e [E Hr]] | [b [s2 [E Hk]]]];
        apply catch_LoopAbort_inv in E.
      * destruct E as [[u [_ E]] | [[_ E] | [e0 [E [E0 Hne]]]]];
          try discriminate.
        apply consume_bytes_spec in E.
        destruct E as [[[Ht Hs] [Hg Ha]] Hx]. cbn [this trace script] in *.
        subst r. inversion E0; subst.
        apply (Hnil _ _ (Raise e0)); auto.
        destruct e0; auto. contradiction.
      * destruct E as [[u [E Eb]] | [[E Eb] | [e0 [_ [E _]]]]];
          try discriminate; inversion Eb; subst;
          apply consume_bytes_spec in E;
          destruct E as [[[Ht Hs] [Hg Ha]] Hx]; cbn [this trace script] in *.
        -- apply IH in Hk. destruct Hk as [new [Htr [Hw [Ha' Hr]]]].
           exists new. rewrite Htr, Ht, Ha', Ha. auto.
        -- inversion Hk; subst.
           apply (Hnil _ _ (Ok tt)); auto.
    + inversion E; subst.
      apply (Hnil _ _ (Raise (TransportError e))); auto. exact I.
Qed.

(** The event loop of [consume_bytes] passes over informational responses
    and stops at the first other event, which decides the outcome. *)
Lemma next_events_decides (s : state (frame SM)) r s' :
  next_events s = (r, s') ->
  exists c x,
    skips_informational (state_machine (this s)) c
    /\ next_event c = (x, state_machine (this s'))
    /\ match x with
       | inr (ResponseEvent resp) =>
           r = Raise LoopAbort /\ h11_response (this s') = Some resp
       | inr (InformationalResponse _) => False
       | inr NEED_DATA =>
           r = Ok tt /\ h11_response (this s') = h11_response (this s)
       | inl e =>
           r = Raise (H11Error e)
           /\ h11_response (this s') = h11_response (this s)
       | inr _ =>
           r = Raise (RuntimeError "Unexpected h11 event")
           /\ h11_response (this s') = h11_response (this s)
       end.
Proof.
  funelim (next_events s);
    try solve [ intros E; inversion E; subst;
                eexists; eexists;
                (split; [ apply skip_none | ]);
                (split; [ eassumption | ]); cbn; split; reflexivity ].
  intros E.
  match goal with
  | IH : forall _ _, next_events _ = _ -> _ |- _ =>
      apply IH in E; destruct E as [c1 [x [Hskip [Hnext Hx]]]]
  end.
  cbn [on_machine this state_machine set_state_machine h11_response] in *.
  exists c1, x. split; [ | split; [ exact Hnext | exact Hx ] ].
  eapply skip_one; eassumption.
Qed.

Lemma transfer_response request sk steps :
  forall fin (s : state (frame SM)) s',
    transfer sk (produce_bytes request) consume_bytes steps fin s = (Ok tt, s') ->
    exists c0 data c resp,
      skips_informational (receive_data data c0) c
      /\ next_event c = (inr (ResponseEvent resp), state_machine (this s'))
      /\ h11_response (this s') = Some resp.
Proof.
  induction steps as [| step rest IH]; intros fin s s' E.
  - discriminate.
  - cbn [transfer] in E. unfold bind at 1 in E. unfold set_script at 1 in E.
    destruct step as [| data | e].
    + destruct fin.
      * apply IH in E. exact E.
      * apply bind_inv in E. destruct E as [[e [_ Hr]] | [b [s2 [_ Hk]]]];
          [ discriminate | ].
        destruct b as [piece |]; unfold bind at 1 in Hk;
          unfold record_call at 1 in Hk; apply IH in Hk; exact Hk.
    + apply bind_inv in E. destruct E as [[e [_ Hr]] | [b [s2 [E Hk]]]];
        [ discriminate | ].
      apply catch_LoopAbort_inv in E.
      destruct E as [[u [E Eb]] | [[E Eb] | [e0 [_ [E _]]]]];
        try discriminate; inversion Eb; subst.
      * apply IH in Hk. exact Hk.
      * inversion Hk; subst.
        unfold consume_bytes in E. unfold bind at 1 in E.
        unfold modify at 1 in E. apply next_events_decides in E.
        destruct E as [c [x [Hskip [Hnext Hx]]]].
        cbn [this state_machine set_state_machine] in Hskip.
        destruct x as [e | [| r0 | resp | d | |]];
          try (destruct Hx as [Hx _]; discriminate); try contradiction.
        destruct Hx as [_ Hresp].
        exists (state_machine (this s)), data, c, resp. auto.
    + discriminate.
Qed.

End ExchangeProperties.

Section StartRequestProperties.
Context {SM : Type} `{H11 SM} `{Environment}.

(** The outcome of [exchange], seen from inside its frame. *)
Lemma exchange_spec request sk read_timeout (s : state (frame SM)) r s' :
  exchange request (Some sk) read_timeout s = (r, s') ->
  send_aborted (this s) = true ->
  exists wire,
    Forall is_wire wire
    /\ match r with
       | Ok _ =>
           trace s'
           = (trace s ++ [CallSendAndReceive sk read_timeout] ++ wire
              ++ (if existsb is_WireFinished wire then [] else [CallSendFailed]))%list
       | Raise e =>
           (raised_in_exchange e \/ e = AssertionError)
           /\ trace s'
              = (trace s ++ [CallSendAndReceive sk read_timeout] ++ wire)%list
       end.
Proof.
  intros E Hsa. unfold exchange in E. apply bind_inv in E.
  destruct E as [[e [E Hr]] | [u [s1 [E Hk]]]];
    unfold send_and_receive_for_a_while in E; unfold bind at 1 in E;
    unfold record_call at 1 in E; apply transfer_spec in E;
    destruct E as [wire [Htr [Hw [Ha Hresp]]]];
    cbn [this trace script] in Htr, Ha; rewrite Hsa in Ha; cbn [andb] in Ha;
    exists wire; (split; [ exact Hw | ]).
  - subst r. split; [ now left | ]. rewrite Htr, <- List.app_assoc. reflexivity.
  - unfold bind at 1 in Hk. unfold get at 1 in Hk.
    destruct (h11_response (this s1)) as [resp |]; [ | contradiction ].
    destruct (send_aborted (this s1));
      destruct (existsb is_WireFinished wire); try discriminate Ha;
      unfold bind, call_send_failed, bind, record_call, modify, ret in Hk;
      inversion Hk; subst; cbn [this trace script];
      rewrite Htr, <- ?List.app_assoc; cbn [app];
      try rewrite List.app_nil_r; reflexivity.
Qed.

(** When [exchange] returns, the state machine is as the [next_event] that
    reported the response left it, with [send_failed] applied on top exactly
    when the producer never reported the end. *)
Lemma exchange_returns request sk read_timeout (s : state (frame SM)) r s' :
  exchange request (Some sk) read_timeout s = (Ok r, s') ->
  send_aborted (this s) = true ->
  exists wire c c',
    Forall is_wire wire
    /\ trace s'
       = (trace s ++ [CallSendAndReceive sk read_timeout] ++ wire
          ++ (if existsb is_WireFinished wire then [] else [CallSendFailed]))%list
    /\ next_event c = (inr (ResponseEvent r), c')
    /\ state_machine (this s')
       = (if existsb is_WireFinished wire then c' else send_failed c').
Proof.
  intros E Hsa. unfold exchange in E. apply bind_inv in E.
  destruct E as [[e [_ Hr]] | [u [s1 [E Hk]]]]; [ discriminate | ].
  unfold send_and_receive_for_a_while in E. unfold bind at 1 in E.
  unfold record_call at 1 in E. destruct u.
  pose proof (transfer_spec _ _ _ _ _ _ _ E) as [wire [Htr [Hw [Ha _]]]].
  pose proof (transfer_response _ _ _ _ _ _ E)
    as [c0 [data [c [resp [_ [Hnext Hresp]]]]]].
  cbn [this trace script] in Htr, Ha. rewrite Hsa in Ha. cbn [andb] in Ha.
  unfold bind at 1 in Hk. unfold get at 1 in Hk. rewrite Hresp in Hk.
  exists wire, c, (state_machine (this s1)).
  split; [ exact Hw | ].
  destruct (send_aborted (this s1));
    destruct (existsb is_WireFinished wire); try discriminate Ha;
    unfold bind, call_send_failed, bind, record_call, modify, ret in Hk;
    inversion Hk; subst; cbn [this trace script state_machine set_state_machine];
    rewrite Htr, <- ?List.app_assoc; cbn [app];
    try rewrite List.app_nil_r; (split; [ reflexivity | ]);
    (split; [ exact Hnext | reflexivity ]).
Qed.

(** C2.  When [_start_http_request] returns a response, what it did on the
    transport and on the state machine is: the send-and-receive loop, with
    its wire events, and then [send_failed()], as the last thing before
    returning, exactly when the producer never reported the end of the
    request (no [StopIteration] was observed before the loop was aborted).
    The state machine is then left poisoned: it is [send_failed] applied to
    the state in which [next_event] reported the response.  When the
    producer did report the end, [send_failed()] is not invoked and the
    state machine is left as that [next_event] left it. *)
Theorem start_http_request_send_failed request sk read_timeout
  (s : state SM) (r : h11_Response) (s' : state SM) :
  _start_http_request request (Some sk) read_timeout s = (Ok r, s') ->
  exists wire c c',
    Forall is_wire wire
    /\ trace s'
       = (trace s ++ [CallSendAndReceive sk read_timeout] ++ wire
          ++ (if existsb is_WireFinished wire then [] else [CallSendFailed]))%list
    /\ next_event c = (inr (ResponseEvent r), c')
    /\ this s' = (if existsb is_WireFinished wire then c' else send_failed c').
Proof.
  intros E. unfold _start_http_request in E.
  unfold bind at 1 in E. unfold get at 1 in E.
  destruct (negb (is_IDLE (our_state (this s)))
            || negb (is_IDLE (their_state (this s)))); [ discriminate | ].
  unfold with_frame, zoom in E.
  destruct (exchange request (Some sk) read_timeout
              (mkState (mkFrame (this s) Fresh true None) (trace s) (script s)))
    as [r0 s1] eqn:Ebody.
  inversion E; subst. apply exchange_returns in Ebody; [ | reflexivity ].
  destruct Ebody as [wire [c [c' [Hw [Htr [Hnext Hsm]]]]]].
  exists wire, c, c'. cbn [this trace script] in *. auto.
Qed.

Lemma not_idle_guard (c : SM) :
  our_state c <> IDLE \/ their_state c <> IDLE ->
  negb (is_IDLE (our_state c)) || negb (is_IDLE (their_state c)) = true.
Proof.
  intros [Ho | Ht].
  - destruct (our_state c); cbn; congruence.
  - destruct (their_state c); cbn; try congruence;
      now rewrite orb_true_r.
Qed.

Lemma idle_guard (c : SM) :
  our_state c = IDLE -> their_state c = IDLE ->
  negb (is_IDLE (our_state c)) || negb (is_IDLE (their_state c)) = false.
Proof. intros -> ->. reflexivity. Qed.

(** C3.  If [our_state] or [their_state] of the state machine is not IDLE
    when [_start_http_request] is entered, it raises [ProtocolError] and
    nothing else has happened: the state machine, the trace and the network
    script are as they were, so no byte was produced or consumed; the same
    holds for [send_request] on a connection that holds such a state
    machine.  If both are IDLE, the exchange is started (the transport loop
    is entered) and whatever the call raises is not a [ProtocolError]. *)
Theorem start_http_request_requires_idle request (sk : option sock)
  read_timeout (s : state SM) :
  (our_state (this s) <> IDLE \/ their_state (this s) <> IDLE ->
   _start_http_request request sk read_timeout s
   = (Raise (ProtocolError "Invalid internal state transition"), s))
  /\
  (forall (st : state (HTTP1Connection SM)) c,
      _state_machine (this st) = Some c ->
      our_state c <> IDLE \/ their_state c <> IDLE ->
      send_request request read_timeout st
      = (Raise (ProtocolError "Invalid internal state transition"), st))
  /\
  (our_state (this s) = IDLE -> their_state (this s) = IDLE ->
   (forall msg,
       fst (_start_http_request request sk read_timeout s)
       <> Raise (ProtocolError msg))
   /\ (forall sock, sk = Some sock ->
          exists rest,
            trace (snd (_start_http_request request sk read_timeout s))
            = (trace s ++ CallSendAndReceive sock read_timeout :: rest)%list)).
Proof.
  split; [ | split ].
  - intros Hni. unfold _start_http_request, bind, get.
    rewrite (not_idle_guard _ Hni). reflexivity.
  - intros st c Hc Hni. unfold send_request, bind, get. rewrite Hc.
    unfold on_state_machine, zoom, _start_http_request, bind, get.
    cbn [this]. rewrite (not_idle_guard _ Hni). cbn.
    destruct st as [self tr sc]. cbn in *. f_equal. f_equal.
    destruct self. cbn in *. subst. reflexivity.
  - intros Ho Ht.
    assert (Hrun : _start_http_request request sk read_timeout s
                   = with_frame (exchange request sk read_timeout) s).
    { unfold _start_http_request, bind, get. now rewrite (idle_guard _ Ho Ht). }
    rewrite Hrun. unfold with_frame, zoom.
    destruct (exchange request sk read_timeout
                (mkState (mkFrame (this s) Fresh true None) (trace s) (script s)))
      as [r0 s1] eqn:Ebody.
    cbn [fst snd trace].
    destruct sk as [sock |].
    + apply exchange_spec in Ebody; [ | reflexivity ].
      destruct Ebody as [wire [Hw Hr]]. cbn [this trace script] in Hr. split.
      * intros msg Hm. subst r0. destruct Hr as [[Hr | Hr] _];
          [ exact Hr | discriminate ].
      * intros sock' E. inversion E; subst sock'.
        destruct r0 as [r | e]; [ | destruct Hr as [_ Hr] ];
          rewrite Hr; eexists; cbn [app]; reflexivity.
    + split; [ | discriminate ].
      unfold exchange, bind, raise in Ebody. inversion Ebody; subst.
      discriminate.
Qed.

End StartRequestProperties.

Section RequestBytesProperties.
Context {SM : Type} `{H11 SM}.


End RequestBytesProperties.


(** The wire of [test_chunks]: three chunk frames and the terminator. *)
Example test_chunks_wire :
  fst (exhaust Scenario.chunked_request Fresh (mkState SpecEngine.fresh [] []))
  = Ok [ (SpecEngine.request_head (B "GET") (B "/")
            [(B "Host", B "localhost"); (B "DNT", B "1");
             (B "Transfer-Encoding", B "chunked")]
          ++ B "3" ++ SpecEngine.CRLF ++ B "foo" ++ SpecEngine.CRLF)%list;
         (B "3" ++ SpecEngine.CRLF ++ B "bar" ++ SpecEngine.CRLF)%list;
         (B "18" ++ SpecEngine.CRLF ++ B "bazzzzzzzzzzzzzzzzzzzzzz"
          ++ SpecEngine.CRLF)%list;
         (B "0" ++ SpecEngine.CRLF ++ SpecEngine.CRLF)%list ].
Proof. vm_compute. reflexivity. Qed.


Section InvalidBodyProperties.
Context {SM : Type} `{H11 SM}.

Lemma unacceptable_raises (b : body) :
  unacceptable b ->
  _make_body_iterable b
  = inl (InvalidBodyError ("Unacceptable body type: " ++ type_name_of b)%string).
Proof.
  intros [Ht | [Hn [Hb [Hr Hi]]]].
  - destruct b; try discriminate. reflexivity.
  - destruct b; try discriminate; try reflexivity.
    exfalso. apply Hi. split; reflexivity.
Qed.

(** The first pull of the generator fails when the body is unacceptable:
    nothing is yielded. *)
Lemma first_pull_raises request (s : state SM) :
  unacceptable (request_body request) ->
  exists e s',
    _request_bytes_iterable request Fresh s = (Raise e, s')
    /\ (forall hs head c,
           _stringify_headers (headers request) = Some hs ->
           send (H11Request (method request) (target request) hs) (this s)
           = (inr head, c) ->
           e = InvalidBodyError
                 ("Unacceptable body type: "
                  ++ type_name_of (request_body request))%string).
Proof.
  intros Hu. apply unacceptable_raises in Hu.
  cbn [_request_bytes_iterable]. unfold bind at 1. unfold next_or_fail at 1.
  unfold bind at 1. cbn [all_pieces_iter].
  destruct (_stringify_headers (headers request)) as [hs |].
  - unfold bind at 1. unfold state_machine_send at 1.
    destruct (send (H11Request (method request) (target request) hs) (this s))
      as [[e | head] c] eqn:Hsend.
    + eexists. eexists. split; [ reflexivity | ].
      intros hs' head' c' Hhs Hs. inversion Hhs; subst. congruence.
    + cbn [ret fst snd]. unfold bind at 1. unfold next_or_fail at 1.
      unfold bind at 1. cbn [all_pieces_iter]. rewrite Hu. cbn [raise].
      eexists. eexists. split; [ reflexivity | ]. reflexivity.
  - eexists. eexists. split; [ reflexivity | ]. discriminate.
Qed.

Lemma produce_fresh_raises request (s : state (frame SM)) :
  unacceptable (request_body request) ->
  request_bytes_iterable (this s) = Fresh ->
  exists e s',
    produce_bytes request s = (Raise e, s')
    /\ trace s' = trace s
    /\ (forall hs head c,
           _stringify_headers (headers request) = Some hs ->
           send (H11Request (method request) (target request) hs)
             (state_machine (this s)) = (inr head, c) ->
           e = InvalidBodyError
                 ("Unacceptable body type: "
                  ++ type_name_of (request_body request))%string).
Proof.
  intros Hu Hg. unfold produce_bytes, bind, get, zoom. rewrite Hg.
  destruct (first_pull_raises request
              (mkState (state_machine (this s)) (trace s) (script s)) Hu)
    as [e [s1 [E He]]].
  rewrite E. pose proof (request_bytes_iterable_spec _ _ _ _ _ E) as [[Ht _] _].
  eexists. eexists. split; [ reflexivity | ]. split; [ exact Ht | exact He ].
Qed.

Lemma transfer_unacceptable request sk steps :
  unacceptable (request_body request) ->
  forall s r s',
    request_bytes_iterable (this s) = Fresh ->
    transfer sk (produce_bytes request) consume_bytes steps false s = (r, s') ->
    trace s' = trace s.
Proof.
  intros Hu. induction steps as [| step rest IH]; intros s r s' Hg E.
  - inversion E; subst. reflexivity.
  - cbn [transfer] in E. unfold bind at 1 in E. unfold set_script at 1 in E.
    destruct step as [| data | e].
    + destruct (produce_fresh_raises request
                  (mkState (this s) (trace s) rest) Hu Hg)
        as [e [s1 [Ep [Ht _]]]].
      unfold bind at 1 in E. rewrite Ep in E. inversion E; subst. exact Ht.
    + apply bind_inv in E. destruct E as [[e [E Hr]] | [b [s2 [E Hk]]]];
        apply catch_LoopAbort_inv in E.
      * destruct E as [[u [_ E]] | [[_ E] | [e0 [E _]]]]; try discriminate.
        apply consume_bytes_spec in E. destruct E as [[[Ht _] _] _]. exact Ht.
      * destruct E as [[u [E Eb]] | [[E Eb] | [e0 [_ [E _]]]]];
          try discriminate; inversion Eb; subst;
          apply consume_bytes_spec in E;
          destruct E as [[[Ht Hs] [Hg' Ha]] Hx]; cbn [this trace script] in *.
        -- apply IH in Hk; [ congruence | congruence ].
        -- inversion Hk; subst. exact Ht.
    + inversion E; subst. reflexivity.
Qed.

(** C5.  A body that is text, or that is otherwise neither [None], bytes,
    readable nor a non-text iterable, makes [_make_body_iterable] raise
    [InvalidBodyError].  The error comes before any byte of the request is
    on the wire: the first pull of the request generator raises without
    yielding (with [InvalidBodyError] once the engine has accepted the
    request line), no run of [_start_http_request] hands a piece to the
    transport, and when the transport asks for bytes first, the call raises
    [InvalidBodyError]. *)
Theorem invalid_body_rejected (request : Request) :
  unacceptable (request_body request) ->
  (exists msg, _make_body_iterable (request_body request)
               = inl (InvalidBodyError msg))
  /\ (forall s : state SM,
         exists e s',
           _request_bytes_iterable request Fresh s = (Raise e, s')
           /\ forall hs head c,
               _stringify_headers (headers request) = Some hs ->
               send (H11Request (method request) (target request) hs) (this s)
               = (inr head, c) ->
               exists msg, e = InvalidBodyError msg)
  /\ (forall sk read_timeout (s : state SM),
         exists tail,
           trace (snd (_start_http_request request (Some sk) read_timeout s))
           = (trace s ++ tail)%list
           /\ Forall (fun c => forall piece, c <> WireSend sk piece) tail)
  /\ (forall sk read_timeout (s : state SM) rest hs head c,
         our_state (this s) = IDLE -> their_state (this s) = IDLE ->
         script s = NetWritable :: rest ->
         _stringify_headers (headers request) = Some hs ->
         send (H11Request (method request) (target request) hs) (this s)
         = (inr head, c) ->
         exists msg,
           fst (_start_http_request request (Some sk) read_timeout s)
           = Raise (InvalidBodyError msg)).
Proof.
  intros Hu. split; [ | split; [ | split ] ].
  - eexists. now apply unacceptable_raises.
  - intros s. destruct (first_pull_raises request s Hu) as [e [s' [E He]]].
    exists e, s'. split; [ exact E | ].
    intros hs head c Hhs Hs. eexists. eapply He; eassumption.
  - intros sk read_timeout s. unfold _start_http_request, bind, get.
    destruct (negb (is_IDLE (our_state (this s)))
              || negb (is_IDLE (their_state (this s)))).
    + exists []. cbn. rewrite List.app_nil_r. split; [ reflexivity | constructor ].
    + unfold with_frame, zoom.
      destruct (exchange request (Some sk) read_timeout
                  (mkState (mkFrame (this s) Fresh true None) (trace s) (script s)))
        as [r0 s1] eqn:Ebody.
      cbn [snd trace]. unfold exchange in Ebody. apply bind_inv in Ebody.
      destruct Ebody as [[e [E Hr]] | [u [s2 [E Hk]]]];
        unfold send_and_receive_for_a_while in E; unfold bind at 1 in E;
        unfold record_call at 1 in E;
        apply (transfer_unacceptable request sk _ Hu) in E; try reflexivity;
        cbn [this trace script] in E.
      * exists [CallSendAndReceive sk read_timeout]. split; [ exact E | ].
        constructor; [ discriminate | constructor ].
      * unfold bind at 1 in Hk. unfold get at 1 in Hk.
        destruct (h11_response (this s2)).
        -- destruct (send_aborted (this s2));
             unfold bind, call_send_failed, bind, record_call, modify, ret in Hk;
             inversion Hk; subst; cbn [this trace script]; rewrite E.
           ++ exists [CallSendAndReceive sk read_timeout; CallSendFailed].
              rewrite <- List.app_assoc. split; [ reflexivity | ].
              repeat constructor; discriminate.
           ++ exists [CallSendAndReceive sk read_timeout].
              split; [ reflexivity | ]. repeat constructor; discriminate.
        -- inversion Hk; subst. rewrite E.
           exists [CallSendAndReceive sk read_timeout].
           split; [ reflexivity | ]. repeat constructor; discriminate.
  - intros sk read_timeout s rest hs head c Ho Ht Hsc Hhs Hs.
    unfold _start_http_request, bind, get.
    rewrite Ho, Ht. cbn [is_IDLE negb orb].
    unfold with_frame, zoom, exchange.
    unfold bind at 1. unfold send_and_receive_for_a_while at 1.
    unfold bind at 1. unfold record_call at 1. cbn [this trace script].
    rewrite Hsc. cbn [transfer]. unfold bind at 1. unfold set_script at 1.
    cbn [this trace script]. unfold bind at 1.
    match goal with
    | |- context [produce_bytes request ?s0] =>
        destruct (produce_fresh_raises request s0 Hu eq_refl)
          as [e [s1 [Ep [_ He]]]]
    end.
    rewrite Ep. cbn [fst]. eexists. f_equal. eapply He; eassumption.
Qed.

End InvalidBodyProperties.

Section TunnelProperties.
Context {SM : Type} `{H11 SM} `{Environment}.

(** C4 (amended).  Let the CONNECT exchange of [_tunnel], run on a state
    machine of its own, return the proxy's response.  If its HTTP version is
    1.0 or 1.1 and its status is not exactly 200 (any other 2xx included),
    [forceful_close] is invoked on the raw socket and [FailedTunnelError] is
    raised with the tunnel response attached (the exception of
    [forceful_close] instead, if that call raises); if the status is 200 the
    tunnel completes without error and without closing.  A response with
    another HTTP version raises [BadVersionError] whatever its status, and
    the socket is not closed.  The connection object is never touched. *)
Theorem tunnel_status (st : state (HTTP1Connection SM)) (s : sock) (c : SM)
  (host : string) (port : Z) (r : h11_Response) (se : state SM) :
  _state_machine (this st) = Some c ->
  our_state c = IDLE ->
  _tunnel_host (this st) = Some host ->
  _tunnel_port (this st) = Some port ->
  _start_http_request
    (_build_tunnel_request host port (_tunnel_headers (this st))) (Some s) None
    (mkState h11_Connection_CLIENT (trace st) (script st)) = (Ok r, se) ->
  (http_version r = B "1.0" \/ http_version r = B "1.1" ->
   exists tunnel_response,
     _response_from_h11 r SelfConnection = inr tunnel_response
     /\ (h11_status_code r <> 200%Z ->
         _tunnel s st
         = (match forceful_close_outcome s with
            | None =>
                Raise (FailedTunnelError "Unable to establish CONNECT tunnel"
                         tunnel_response)
            | Some e => Raise (TransportError e)
            end,
            mkState (this st) (trace se ++ [CallForcefulClose s]) (script se)))
     /\ (h11_status_code r = 200%Z ->
         _tunnel s st = (Ok tt, mkState (this st) (trace se) (script se))))
  /\
  (http_version r <> B "1.0" /\ http_version r <> B "1.1" ->
   _tunnel s st
   = (Raise (BadVersionError (http_version r)),
      mkState (this st) (trace se) (script se))).
Proof.
  intros Hsm Hidle Hth Htp Hex.
  assert (Hrun :
            _tunnel s st
            = (tunnel_response <- lift (_response_from_h11 r SelfConnection) ;;
               if negb (h11_status_code r =? 200)%Z then
                 sock_forceful_close s ;;
                 raise (FailedTunnelError "Unable to establish CONNECT tunnel"
                          tunnel_response)
               else ret tt)%py
                (mkState (this st) (trace se) (script se))).
  { unfold _tunnel. unfold bind at 1. unfold get at 1.
    rewrite Hsm, Hidle, Hth, Htp. cbn [is_IDLE negb].
    unfold bind at 1. unfold on_local_machine, zoom. cbn [this trace script].
    rewrite Hex. reflexivity. }
  rewrite Hrun. clear Hrun.
  split.
  - intros Hv. apply in_supported_versions in Hv.
    pose proof (response_from_h11_supported _ r SelfConnection Hv) as Hr.
    eexists. split; [ exact Hr | ]. unfold bind at 1. rewrite Hr.
    cbn [lift ret]. split.
    + intros Hne. apply Z.eqb_neq in Hne. rewrite Hne. cbn [negb].
      unfold sock_forceful_close, bind, record_call, outcome, raise, ret.
      cbn [this trace script].
      destruct (forceful_close_outcome s); reflexivity.
    + intros He. apply Z.eqb_eq in He. rewrite He. reflexivity.
  - intros [H1 H2]. unfold bind at 1.
    rewrite (response_from_h11_unsupported _ r SelfConnection);
      [ reflexivity | ].
    destruct (in_bytes_set (http_version r) _SUPPORTED_VERSIONS) eqn:E;
      [ | reflexivity ].
    apply in_supported_versions in E. destruct E; contradiction.
Qed.

End TunnelProperties.

(** ** The scenarios of the specification, run *)

Lemma start_http_request_send_failed_witness :
  (exists wire c c',
      Forall is_wire wire
      /\ trace (snd Scenario.early_response)
         = ([] ++ [CallSendAndReceive 3 None] ++ wire
            ++ (if existsb is_WireFinished wire then [] else [CallSendFailed]))%list
      /\ next_event c
         = (inr (ResponseEvent (mkH11Response 413 [] (B "1.1"))), c')
      /\ this (snd Scenario.early_response)
         = (if existsb is_WireFinished wire then c' else send_failed c'))
  /\
  (exists wire c c',
      Forall is_wire wire
      /\ trace (snd Scenario.full_send)
         = ([] ++ [CallSendAndReceive 3 None] ++ wire
            ++ (if existsb is_WireFinished wire then [] else [CallSendFailed]))%list
      /\ next_event c
         = (inr (ResponseEvent (mkH11Response 200 [] (B "1.1"))), c')
      /\ this (snd Scenario.full_send)
         = (if existsb is_WireFinished wire then c' else send_failed c')).
Proof.
  split.
  - apply (start_http_request_send_failed Scenario.chunked_request 3 None
             (mkState SpecEngine.fresh []
                [NetWritable; NetReadable Scenario.too_large_413])
             (mkH11Response 413 [] (B "1.1")) (snd Scenario.early_response)).
    vm_compute. reflexivity.
  - apply (start_http_request_send_failed Scenario.chunked_request 3 None
             (mkState SpecEngine.fresh []
                [NetWritable; NetWritable; NetWritable; NetWritable;
                 NetWritable; NetReadable Scenario.ok_200])
             (mkH11Response 200 [] (B "1.1")) (snd Scenario.full_send)).
    vm_compute. reflexivity.
Defined.

(** Scenario 7: the response that arrives early is surfaced, [send_failed]
    has been called, and the engine refuses the next cycle. *)
Example early_response_poisons :
  fst Scenario.early_response = Ok (mkH11Response 413 [] (B "1.1"))
  /\ last (trace (snd Scenario.early_response)) (CallWarn SystemTimeWarning)
     = CallSendFailed
  /\ our_state (this (snd Scenario.early_response)) = ERROR
  /\ fst (start_next_cycle (this (snd Scenario.early_response)))
     = Some (LocalProtocolError "not in a reusable state").
Proof. vm_compute. repeat split. Qed.

Example full_send_not_poisoned :
  fst Scenario.full_send = Ok (mkH11Response 200 [] (B "1.1"))
  /\ existsb (fun c => match c with CallSendFailed => true | _ => false end)
       (trace (snd Scenario.full_send)) = false
  /\ last (trace (snd Scenario.full_send)) (CallWarn SystemTimeWarning)
     = WireFinished 3
  /\ our_state (this (snd Scenario.full_send)) = DONE.
Proof. vm_compute. repeat split. Qed.

Lemma start_http_request_requires_idle_witness :
  _start_http_request Scenario.chunked_request (Some 3) None
    (snd Scenario.early_response)
  = (Raise (ProtocolError "Invalid internal state transition"),
     snd Scenario.early_response)
  /\
  exists rest,
    trace (snd Scenario.full_send)
    = ([] ++ CallSendAndReceive 3 None :: rest)%list.
Proof.
  split.
  - apply (proj1 (start_http_request_requires_idle
                    Scenario.chunked_request (Some 3) None
                    (snd Scenario.early_response))).
    left. vm_compute. discriminate.
  - destruct (proj2 (proj2 (start_http_request_requires_idle
                              (H := SpecEngine.spec_engine)
                              Scenario.chunked_request (Some 3) None
                              (mkState SpecEngine.fresh []
                                 [NetWritable; NetWritable; NetWritable;
                                  NetWritable; NetWritable;
                                  NetReadable Scenario.ok_200])))
                eq_refl eq_refl) as [_ Hstart].
    exact (Hstart 3 eq_refl).
Defined.

Lemma invalid_body_rejected_witness :
  (exists msg,
      _make_body_iterable (BodyText Scenario.unicode_body)
      = inl (InvalidBodyError msg))
  /\ (exists tail,
         trace (snd Scenario.unicode_send) = ([] ++ tail)%list
         /\ Forall (fun c => forall piece, c <> WireSend 3 piece) tail)
  /\ exists msg, fst Scenario.unicode_send = Raise (InvalidBodyError msg).
Proof.
  destruct (invalid_body_rejected (SM := SpecEngine.engine)
              Scenario.unicode_request (or_introl eq_refl))
    as [Hmake [_ [Hwire Hraise]]].
  split; [ exact Hmake | ]. split.
  - exact (Hwire 3 None
             (mkState SpecEngine.fresh []
                [NetWritable; NetReadable Scenario.ok_200])).
  - apply (Hraise 3 None
             (mkState SpecEngine.fresh []
                [NetWritable; NetReadable Scenario.ok_200])
             [NetReadable Scenario.ok_200]
             [(B "Host", B "localhost")]
             (SpecEngine.request_head (B "GET") (B "/")
                [(B "Host", B "localhost")])
             (SpecEngine.mkEngine SEND_BODY SEND_RESPONSE
                (SpecEngine.ContentLength 0) []));
      reflexivity.
Defined.

(** Scenario 2: the text body is refused and only the call that opens the
    loop is on the trace. *)
Example test_unicode_body :
  Scenario.unicode_send
  = (Raise (InvalidBodyError "Unacceptable body type: <class 'str'>"),
     mkState
       (SpecEngine.mkEngine SEND_BODY SEND_RESPONSE (SpecEngine.ContentLength 0) [])
       [CallSendAndReceive 3 None] [NetReadable Scenario.ok_200]).
Proof. vm_compute. reflexivity. Qed.

Lemma tunnel_status_witness :
  Scenario.tunnel Scenario.forbidden_403
  = (Raise (FailedTunnelError "Unable to establish CONNECT tunnel"
              (mkResponse 403 [] SelfConnection (B "HTTP/1.1"))),
     mkState Scenario.proxied
       (trace (snd (Scenario.tunnel_exchange Scenario.forbidden_403))
        ++ [CallForcefulClose 3]) [])
  /\
  Scenario.tunnel Scenario.ok_200
  = (Ok tt,
     mkState Scenario.proxied
       (trace (snd (Scenario.tunnel_exchange Scenario.ok_200))) []).
Proof.
  split.
  - destruct (proj1 (tunnel_status (H := SpecEngine.spec_engine)
                       (H0 := Scenario.env)
                       (mkState Scenario.proxied []
                          (Scenario.tunnel_script Scenario.forbidden_403))
                       3 SpecEngine.fresh "example.org" 443
                       (mkH11Response 403 [] (B "1.1"))
                       (snd (Scenario.tunnel_exchange Scenario.forbidden_403))
                       eq_refl eq_refl eq_refl eq_refl
                       ltac:(vm_compute; reflexivity))
                (or_intror eq_refl))
      as [resp [Hresp [Hfail _]]].
    vm_compute in Hresp. inversion Hresp; subst resp.
    unfold Scenario.tunnel. rewrite (Hfail ltac:(discriminate)). reflexivity.
  - destruct (proj1 (tunnel_status (H := SpecEngine.spec_engine)
                       (H0 := Scenario.env)
                       (mkState Scenario.proxied []
                          (Scenario.tunnel_script Scenario.ok_200))
                       3 SpecEngine.fresh "example.org" 443
                       (mkH11Response 200 [] (B "1.1"))
                       (snd (Scenario.tunnel_exchange Scenario.ok_200))
                       eq_refl eq_refl eq_refl eq_refl
                       ltac:(vm_compute; reflexivity))
                (or_intror eq_refl))
      as [resp [_ [_ Hok]]].
    unfold Scenario.tunnel. rewrite (Hok eq_refl). reflexivity.
Defined.

(** C4 as the specification states it fails when the proxy answers with an
    HTTP version the module does not support: the status is 403, not 200,
    yet [_tunnel] raises [BadVersionError], not [FailedTunnelError], and
    [forceful_close] is not invoked. *)
Lemma tunnel_bad_version_keeps_socket :
  fst (Scenario.tunnel_exchange Scenario.forbidden_403_http2)
  = Ok (mkH11Response 403 [] (B "2.0"))
  /\ fst (Scenario.tunnel Scenario.forbidden_403_http2)
     = Raise (BadVersionError (B "2.0"))
  /\ ~ In (CallForcefulClose 3)
         (trace (snd (Scenario.tunnel Scenario.forbidden_403_http2))).
Proof.
  split; [ vm_compute; reflexivity | ].
  split; [ vm_compute; reflexivity | ].
  vm_compute. intros [E | [E | [E | []]]]; discriminate.
Qed.

(** ** Further properties of the module *)

(** *** Request bodies and headers *)

Lemma blocksize_pos : 0 < blocksize.
Proof. unfold blocksize. lia. Qed.

Lemma firstn_nil_inv (n : nat) (content : bytes) :
  0 < n -> firstn n content = [] -> content = [].
Proof.
  destruct n as [| n]; [ lia | ]. destruct content; [ reflexivity | discriminate ].
Qed.

Lemma available_cons (piece : bytes) (later : readable) :
  piece <> [] -> available (piece :: later) = (piece ++ available later)%list.
Proof. destruct piece; [ contradiction | reflexivity ]. Qed.

Lemma available_buffer (content : bytes) : available [content] = content.
Proof. destruct content; cbn; [ | rewrite List.app_nil_r ]; reflexivity. Qed.

(** One read: nothing, at the end or at an empty piece, or a block of at
    most [n] bytes that is the beginning of what is available. *)
Lemma read_spec (n : nat) (r : readable) datablock rest :
  0 < n ->
  read n r = (datablock, rest) ->
  (datablock = [] /\ available r = [])
  \/ (datablock <> [] /\ List.length datablock <= n
      /\ available r = (datablock ++ available rest)%list).
Proof.
  intros Hn. unfold read. destruct r as [| piece later].
  { intros E. inversion E; subst. left. split; reflexivity. }
  destruct (List.length piece <=? n)%nat eqn:Hlen.
  - apply Nat.leb_le in Hlen. intros E. inversion E; subst.
    destruct datablock as [| x datablock]; [ left; split; reflexivity | right ].
    split; [ discriminate | ]. split; [ exact Hlen | reflexivity ].
  - apply Nat.leb_gt in Hlen. intros E. inversion E; subst. right.
    assert (Hpiece : piece <> []) by (destruct piece; cbn in Hlen; [ lia | discriminate ]).
    split.
    { intros Hf. apply firstn_nil_inv in Hf; [ contradiction | exact Hn ]. }
    split; [ apply firstn_le_length | ].
    rewrite (available_cons piece later Hpiece).
    rewrite available_cons.
    + now rewrite List.app_assoc, firstn_skipn.
    + intros Hs. apply (f_equal (@List.length byte)) in Hs.
      rewrite List.length_skipn in Hs. cbn in Hs. lia.
Qed.

Lemma read_blocks_eq (n : nat) (r : readable) :
  read_blocks n r
  = match read n r with
    | ([], _) => []
    | (datablock, rest) => datablock :: read_blocks n rest
    end.
Proof.
  funelim (read_blocks n r);
    match goal with
    | Hread : read _ _ = _ |- _ => rewrite Hread
    end; reflexivity.
Qed.

Lemma read_blocks_spec (n : nat) (r : readable) :
  0 < n ->
  List.concat (read_blocks n r) = available r
  /\ Forall (fun block => block <> [] /\ List.length block <= n)
       (read_blocks n r).
Proof.
  intros Hn. funelim (read_blocks n r);
    match goal with
    | Hread : read _ _ = _ |- _ =>
        destruct (read_spec _ _ _ _ Hn Hread) as [[Hd Ha] | [Hd [Hl Ha]]]
    end; try discriminate; try (contradiction Hd; reflexivity).
  - rewrite Ha. split; constructor.
  - match goal with
    | IH : 0 < _ -> _ |- _ => destruct (IH Hn) as [Hc Hall]
    end.
    split.
    + cbn [List.concat]. now rewrite Hc, Ha.
    + constructor; [ split; assumption | exact Hall ].
Qed.

(** An in-memory buffer is read in full blocks, but for the last one. *)
Lemma buffer_blocks (n : nat) :
  0 < n ->
  forall m content,
    List.length content <= m ->
    full_but_last n (read_blocks n [content]).
Proof.
  intros Hn.
  induction m as [| m IH]; intros content Hm.
  - destruct content; [ | cbn in Hm; lia ].
    rewrite read_blocks_eq. exact I.
  - rewrite read_blocks_eq. unfold read.
    destruct (List.length content <=? n)%nat eqn:Hlen.
    + destruct content; [ exact I | ]. cbv iota. rewrite read_blocks_eq.
      exact I.
    + apply Nat.leb_gt in Hlen.
      destruct (firstn n content) as [| x block] eqn:Hf.
      { apply firstn_nil_inv in Hf; [ | exact Hn ]. subst. cbn in Hlen. lia. }
      assert (Hrest : full_but_last n (read_blocks n [skipn n content])).
      { apply IH. rewrite List.length_skipn. lia. }
      cbv iota. cbn [full_but_last].
      destruct (read_blocks n [skipn n content]); [ exact I | ].
      split; [ | exact Hrest ].
      rewrite <- Hf. apply firstn_length_le. lia.
Qed.

(** X1.  [_read_readable] yields, in order and without loss, what the
    readable brings up to its first empty read: the blocks concatenate to
    that content, and nothing after an empty read is taken.  No block is
    empty and none is longer than 8192 bytes; a block can be shorter, as a
    read can be.  When the readable is an in-memory buffer, the blocks
    concatenate to its whole content and every block but the last has
    exactly 8192 bytes. *)
Theorem read_readable_blocks (r : readable) :
  List.concat (_read_readable r) = available r
  /\ Forall (fun block => block <> [] /\ List.length block <= blocksize)
       (_read_readable r)
  /\ (forall content,
         List.concat (_read_readable [content]) = content
         /\ full_but_last blocksize (_read_readable [content]))
  /\ N.of_nat blocksize = 8192%N.
Proof.
  destruct (read_blocks_spec blocksize r blocksize_pos) as [Hc Ha].
  split; [ exact Hc | ]. split; [ exact Ha | ]. split.
  - intros content. split.
    + rewrite <- (available_buffer content) at 2.
      apply (read_blocks_spec blocksize [content] blocksize_pos).
    + apply (buffer_blocks blocksize blocksize_pos (List.length content)).
      apply Nat.le_refl.
  - unfold blocksize. apply N2Nat.id.
Qed.

(** X2.  [_make_body_iterable] raises exactly on the unacceptable bodies.
    Of the others, [None] gives no chunk, a bytes object gives itself as
    the single chunk (also when it is empty), a readable gives blocks that
    concatenate to what it brings up to its first empty read (to its whole
    content when it is an in-memory buffer), and an iterable is used as it
    is. *)
Theorem make_body_iterable_accepts :
  (forall b, (exists e, _make_body_iterable b = inl e) <-> unacceptable b)
  /\ _make_body_iterable BodyNone = inr []
  /\ (forall data, _make_body_iterable (BodyBytes data) = inr [data])
  /\ (forall content,
         exists blocks,
           _make_body_iterable (BodyReadable [content]) = inr blocks
           /\ List.concat blocks = content)
  /\ (forall r,
         exists blocks,
           _make_body_iterable (BodyReadable r) = inr blocks
           /\ List.concat blocks = available r)
  /\ (forall chunks, _make_body_iterable (BodyIterable chunks) = inr chunks).
Proof.
  split; [ | repeat split ].
  - intros b. split.
    + intros [e E]. unfold unacceptable.
      destruct b; cbn in E; try discriminate.
      * left. reflexivity.
      * right. repeat split; try reflexivity. intros [Hi _]. discriminate.
    + intros Hu. eexists. now apply unacceptable_raises.
  - intros content. eexists. split; [ reflexivity | ].
    rewrite <- (available_buffer content) at 2.
    apply (read_blocks_spec blocksize [content] blocksize_pos).
  - intros r. eexists. split; [ reflexivity | ].
    apply (read_blocks_spec blocksize r blocksize_pos).
Qed.

Lemma encode_latin1_none (s : text) :
  encode_latin1 s = None <-> Exists (fun c => (256 <= c)%N) s.
Proof.
  induction s as [| c rest IH]; cbn [encode_latin1].
  - split; [ discriminate | ]. intros Hex. inversion Hex.
  - destruct (Byte.of_N c) as [b |] eqn:Hb.
    + assert (Hc : (c <= 255)%N).
      { apply Byte.to_of_N in Hb. subst c. apply Byte.to_N_bounded. }
      destruct (encode_latin1 rest) as [tl |].
      * split; [ discriminate | ]. intros Hex.
        inversion Hex as [? ? Hhd | ? ? Htl]; subst; [ lia | ].
        apply IH in Htl. discriminate.
      * split; [ | reflexivity ]. intros _. apply Exists_cons_tl.
        now apply IH.
    + split; [ | reflexivity ]. intros _. apply Exists_cons_hd.
      apply Byte.of_N_None_iff in Hb. lia.
Qed.

Lemma encode_ascii_none (s : text) :
  encode_ascii s = None <-> Exists (fun c => (128 <= c)%N) s.
Proof.
  unfold encode_ascii. destruct (forallb is_ascii s) eqn:Hall.
  - rewrite forallb_forall in Hall. split.
    + intros Hn. apply encode_latin1_none in Hn. apply Exists_exists in Hn.
      destruct Hn as [c [Hin Hc]]. apply Hall in Hin. unfold is_ascii in Hin.
      apply N.ltb_lt in Hin. lia.
    + intros Hex. apply Exists_exists in Hex. destruct Hex as [c [Hin Hc]].
      apply Hall in Hin. unfold is_ascii in Hin. apply N.ltb_lt in Hin. lia.
  - split; [ intros _ | reflexivity ].
    apply Exists_exists.
    assert (Hex : existsb (fun c => negb (is_ascii c)) s = true).
    { clear - Hall. induction s as [| c rest IH]; [ discriminate | ].
      cbn in *. destruct (is_ascii c); cbn in *; [ now apply IH | reflexivity ]. }
    apply existsb_exists in Hex. destruct Hex as [c [Hin Hc]].
    exists c. split; [ exact Hin | ]. unfold is_ascii in Hc.
    apply negb_true_iff, N.ltb_ge in Hc. exact Hc.
Qed.

Lemma stringify_name_none (name : header_name) (value : header_value) :
  stringify_name name = None <-> non_ascii_name (name, value).
Proof.
  unfold non_ascii_name, stringify_name. destruct name as [s | b]; cbn [fst].
  - apply encode_ascii_none.
  - split; [ discriminate | contradiction ].
Qed.

Lemma stringify_value_none (name : header_name) (value : header_value) :
  stringify_value value = None <-> non_latin1_value (name, value).
Proof.
  unfold non_latin1_value, stringify_value. destruct value as [s | b | n];
    cbn [snd].
  - apply encode_latin1_none.
  - split; [ discriminate | contradiction ].
  - split; [ discriminate | contradiction ].
Qed.

(** X3.  [_stringify_headers] fails (the encoding error of
    [name.encode("ascii")] or of [value.encode("latin-1")]) exactly when
    some header has a text name with a code point outside ASCII or a text
    value with a code point outside Latin-1; names and values that are
    bytes, and integer values, never make it fail.  When it succeeds it
    yields one pair for each header, in order, the value of each being the
    encoded value of that header. *)
Theorem stringify_headers_fails_iff (hs : list (header_name * header_value)) :
  (_stringify_headers hs = None <->
   Exists (fun h => non_ascii_name h \/ non_latin1_value h) hs)
  /\ (forall out, _stringify_headers hs = Some out ->
        List.length out = List.length hs
        /\ map (fun nv => Some (snd nv)) out
           = map (fun h => stringify_value (snd h)) hs).
Proof.
  induction hs as [| [name value] rest [IHnone IHsome]].
  - split.
    + split; [ discriminate | ]. intros Hex. inversion Hex.
    + intros out E. inversion E; subst. split; reflexivity.
  - cbn [_stringify_headers]. split.
    + destruct (stringify_name name) as [n |] eqn:En.
      2:{ split; [ | reflexivity ]. intros _. apply Exists_cons_hd. left.
          now apply (stringify_name_none name value). }
      destruct (stringify_value value) as [v |] eqn:Ev.
      2:{ split; [ | reflexivity ]. intros _. apply Exists_cons_hd. right.
          now apply (stringify_value_none name value). }
      destruct (_stringify_headers rest) as [tl |].
      * split; [ discriminate | ]. intros Hex.
        inversion Hex as [? ? [Hhd | Hhd] | ? ? Htl]; subst.
        -- apply (stringify_name_none name value) in Hhd. congruence.
        -- apply (stringify_value_none name value) in Hhd. congruence.
        -- apply IHnone in Htl. discriminate.
      * split; [ | reflexivity ]. intros _. apply Exists_cons_tl.
        now apply IHnone.
    + intros out E.
      destruct (stringify_name name) as [n |]; [ | discriminate ].
      destruct (stringify_value value) as [v |] eqn:Ev; [ | discriminate ].
      destruct (_stringify_headers rest) as [tl |]; [ | discriminate ].
      inversion E; subst. destruct (IHsome tl eq_refl) as [Hl Hm].
      cbn [List.length map snd]. split; [ now rewrite Hl | ].
      now rewrite Hm, Ev.
Qed.

Lemma encode_latin1_native (s : text) (b : bytes) :
  encode_latin1 s = Some b -> string_of_list_byte b = native_text s.
Proof.
  revert b. induction s as [| c rest IH]; intros b; cbn [encode_latin1].
  - intros E. inversion E; subst. reflexivity.
  - destruct (Byte.of_N c) as [x |] eqn:Hx; [ | discriminate ].
    destruct (encode_latin1 rest) as [tl |]; [ | discriminate ].
    intros E. inversion E; subst.
    unfold string_of_list_byte, native_text in *.
    cbn [map string_of_list_ascii]. rewrite (IH tl eq_refl).
    apply Byte.to_of_N in Hx. subst c. now rewrite ascii_of_byte_via_N.
Qed.

(** A text literal comes back as it was written. *)
Lemma native_text_literal (s : string) : native_text (T s) = s.
Proof.
  unfold native_text, T. rewrite map_map.
  induction s as [| c s IH]; [ reflexivity | ].
  cbn [list_ascii_of_string map string_of_list_ascii].
  now rewrite ascii_N_embedding, IH.
Qed.

Lemma stringify_name_native (name : header_name) (n : bytes) :
  stringify_name name = Some n -> string_of_list_byte n = native_name name.
Proof.
  unfold stringify_name, encode_ascii. destruct name as [s | b];
    cbn [native_name].
  - destruct (forallb is_ascii s); [ apply encode_latin1_native | discriminate ].
  - intros E. now inversion E.
Qed.

Lemma stringify_value_native (value : header_value) (v : bytes) :
  stringify_value value = Some v -> string_of_list_byte v = native_value value.
Proof.
  destruct value as [s | b | n]; cbn [stringify_value native_value].
  - apply encode_latin1_native.
  - intros E. now inversion E.
  - intros E. inversion E; subst. apply string_of_list_byte_of_string.
Qed.

(** X4.  Round trip of the two header shims: what [_stringify_headers]
    encodes for h11, [_headers_to_native_string] decodes back to the same
    headers as native strings: text is recovered as it was, bytes are read
    as Latin-1 and an integer value comes back in decimal. *)
Theorem headers_round_trip (hs : list (header_name * header_value))
  (out : list (bytes * bytes)) :
  _stringify_headers hs = Some out ->
  _headers_to_native_string out
  = map (fun h => (native_name (fst h), native_value (snd h))) hs.
Proof.
  revert out. induction hs as [| [name value] rest IH]; intros out E.
  - inversion E; subst. reflexivity.
  - cbn [_stringify_headers] in E.
    destruct (stringify_name name) as [n |] eqn:En; [ | discriminate ].
    destruct (stringify_value value) as [v |] eqn:Ev; [ | discriminate ].
    destruct (_stringify_headers rest) as [tl |]; [ | discriminate ].
    inversion E; subst. unfold _headers_to_native_string in *.
    cbn [map fst snd]. rewrite (IH tl eq_refl).
    rewrite (stringify_name_native _ _ En), (stringify_value_native _ _ Ev).
    reflexivity.
Qed.

Lemma headers_round_trip_witness :
  _headers_to_native_string
    [(B "Host", B "localhost"); (B "Content-Length", B "42")]
  = [("Host", "localhost"); ("Content-Length", "42")].
Proof.
  exact (headers_round_trip
           [(NameText (T "Host"), ValueText (T "localhost"));
            (NameBytes (B "Content-Length"), ValueInt 42)]
           [(B "Host", B "localhost"); (B "Content-Length", B "42")]
           eq_refl).
Defined.

(** *** The request on the wire *)

Section SerialisationProperties.
Context {SM : Type} `{H11 SM}.




End SerialisationProperties.


(** With [Content-Length] framing the engine refuses a body longer than
    declared: the generator raises on that chunk and the end of the message
    is never sent. *)
Example body_longer_than_declared :
  exhaust
    (mkRequest (B "POST") (B "/")
       [(NameText (T "Content-Length"), ValueInt 3)]
       (BodyIterable [B "foo"; B "bar"]))
    Fresh (mkState SpecEngine.fresh [] [])
  = (Raise (H11Error
              (LocalProtocolError "Too much data for declared Content-Length")),
     mkState (SpecEngine.mkEngine ERROR SEND_RESPONSE (SpecEngine.ContentLength 0) [])
       [] []).
Proof. vm_compute. reflexivity. Qed.

(** *** The response head *)

Section ResponseProperties.
Context {SM : Type} `{H11 SM}.

(** X6.  The response that [_start_http_request] returns is the first
    event other than an informational (1xx) response that h11 reported
    after some read, and h11 reported it as a [Response].  Nothing is read
    from h11 after it: the state machine is left as that [next_event] left
    it, or poisoned by [send_failed] on top of that, so the events of the
    response body are still to come. *)
Theorem start_http_request_final_response (request : Request)
  (sk : option sock) (read_timeout : option Z) (s : state SM)
  (r : h11_Response) (s' : state SM) :
  _start_http_request request sk read_timeout s = (Ok r, s') ->
  exists c0 data c c',
    skips_informational (receive_data data c0) c
    /\ next_event c = (inr (ResponseEvent r), c')
    /\ (this s' = c' \/ this s' = send_failed c').
Proof.
  intros E. unfold _start_http_request in E.
  unfold bind at 1 in E. unfold get at 1 in E.
  destruct (negb (is_IDLE (our_state (this s)))
            || negb (is_IDLE (their_state (this s)))); [ discriminate | ].
  unfold with_frame, zoom in E.
  destruct (exchange request sk read_timeout
              (mkState (mkFrame (this s) Fresh true None) (trace s) (script s)))
    as [r0 s1] eqn:Ebody.
  inversion E; subst. clear E. unfold exchange in Ebody.
  apply bind_inv in Ebody.
  destruct Ebody as [[e [_ Hr]] | [u [s2 [Et Hk]]]]; [ discriminate | ].
  destruct sk as [sock |]; [ | discriminate ].
  unfold send_and_receive_for_a_while in Et. unfold bind at 1 in Et.
  unfold record_call at 1 in Et. destruct u.
  apply transfer_response in Et.
  destruct Et as [c0 [data [c [resp [Hskip [Hnext Hresp]]]]]].
  unfold bind at 1 in Hk. unfold get at 1 in Hk. rewrite Hresp in Hk.
  exists c0, data, c, (state_machine (this s2)).
  destruct (send_aborted (this s2));
    unfold bind, call_send_failed, bind, record_call, modify, ret in Hk;
    inversion Hk; subst; cbn [this state_machine set_state_machine];
    auto.
Qed.

End ResponseProperties.

Lemma start_http_request_final_response_witness :
  exists c0 data c c',
    skips_informational (receive_data data c0) c
    /\ next_event c = (inr (ResponseEvent (mkH11Response 200 [] (B "1.1"))), c')
    /\ (this (snd Cases.after_continue) = c'
        \/ this (snd Cases.after_continue) = send_failed c').
Proof.
  apply (start_http_request_final_response Scenario.chunked_request (Some 3)
           None
           (mkState SpecEngine.fresh []
              [NetWritable; NetWritable; NetWritable; NetWritable; NetWritable;
               NetReadable Cases.continue_then_ok])
           (mkH11Response 200 [] (B "1.1")) (snd Cases.after_continue)).
  vm_compute. reflexivity.
Defined.

(** The [100 Continue] is passed over, the 200 is returned, and the bytes
    after the head stay buffered in the engine for the body iterator. *)
Example informational_skipped :
  fst Cases.after_continue = Ok (mkH11Response 200 [] (B "1.1"))
  /\ SpecEngine.inbuf (this (snd Cases.after_continue)) = B "body"
  /\ their_state (this (snd Cases.after_continue)) = SEND_BODY.
Proof. vm_compute. repeat split. Qed.

(** *** The response body *)

Section ReadProperties.
Context {SM : Type} `{H11 SM}.

Lemma read_until_event_eq (s : option sock) (read_timeout : option Z)
  (st : state SM) :
  _read_until_event s read_timeout st
  = match next_event (this st) with
    | (inl e, c) => (Raise (H11Error e), with_machine c st)
    | (inr NEED_DATA, c) =>
        match s with
        | None =>
            (Raise (AttributeError
                      "'NoneType' object has no attribute 'receive_some'"),
             with_machine c st)
        | Some sk =>
            match receive_some sk read_timeout (with_machine c st) with
            | (Raise e, st1) => (Raise e, st1)
            | (Ok data, st1) =>
                _read_until_event (Some sk) read_timeout
                  (with_machine (receive_data data (this st1)) st1)
            end
        end
    | (inr event, c) => (Ok event, with_machine c st)
    end.
Proof.
  funelim (_read_until_event s read_timeout st);
    match goal with
    | Hnext : next_event _ = _ |- _ => rewrite Hnext
    end;
    try match goal with
      | Hread : receive_some _ _ _ = _ |- _ => rewrite Hread
      end; reflexivity.
Qed.

(** The steps a read passes over or takes are a prefix of the script. *)
Lemma next_read_suffix (steps : list net_step) r rest :
  next_read steps = (r, rest) -> exists taken, steps = (taken ++ rest)%list.
Proof.
  revert r rest. induction steps as [| step steps IH]; intros r rest;
    cbn [next_read].
  - intros E. inversion E; subst. now exists [].
  - destruct step as [| d | e].
    + intros E. apply IH in E. destruct E as [taken ->].
      now exists (NetWritable :: taken).
    + intros E. inversion E; subst. now exists [NetReadable d].
    + intros E. inversion E; subst. now exists [NetFails e].
Qed.

Lemma receive_some_spec {O} (sk : sock) (read_timeout : option Z)
  (st : state O) r st' :
  receive_some sk read_timeout st = (r, st') ->
  trace st' = trace st
  /\ (exists taken, script st = (taken ++ script st')%list)
  /\ match r with
     | Ok _ => True
     | Raise e => exists te, e = TransportError te
     end.
Proof.
  unfold receive_some.
  destruct (next_read (script st)) as [[te | d] rest] eqn:Hn;
    intros E; inversion E; subst; cbn [trace script];
    (split; [ reflexivity | ]);
    (split; [ eapply next_read_suffix; eassumption | ]); eauto.
Qed.

Lemma read_until_event_spec (s : option sock) (read_timeout : option Z)
  (st : state SM) r st' :
  _read_until_event s read_timeout st = (r, st') ->
  trace st' = trace st
  /\ (exists taken, script st = (taken ++ script st')%list)
  /\ match r with
     | Ok event =>
         event <> NEED_DATA
         /\ exists c, next_event c = (inr event, this st')
     | Raise e => raised_while_reading e
     end.
Proof.
  funelim (_read_until_event s read_timeout st);
    try solve [ intros E; inversion E; subst; cbn;
                (split; [ reflexivity | ]);
                (split; [ now exists [] | ]);
                try exact I;
                (split; [ discriminate | eexists; eassumption ]) ].
  - (* the read brought data: once more *)
    intros E.
    match goal with
    | IH : forall _ _, _read_until_event _ _ _ = _ -> _ |- _ =>
        apply IH in E; destruct E as [Ht [[taken Hs] Hr]]
    end.
    match goal with
    | Hread : receive_some _ _ _ = _ |- _ =>
        destruct (receive_some_spec _ _ _ _ _ Hread) as [Htr [[taken0 Hs0] _]]
    end.
    cbn [with_machine this trace script] in Ht, Hs, Htr, Hs0.
    split; [ congruence | ]. split; [ | exact Hr ].
    exists (taken0 ++ taken)%list. rewrite Hs0, Hs. now rewrite List.app_assoc.
  - (* the read raised *)
    intros E. inversion E; subst.
    match goal with
    | Hread : receive_some _ _ _ = _ |- _ =>
        destruct (receive_some_spec _ _ _ _ _ Hread) as [Htr [Hs0 Hre]]
    end.
    cbn [with_machine this trace script] in Htr, Hs0.
    split; [ exact Htr | ]. split; [ exact Hs0 | ].
    destruct Hre as [te ->]. exact I.
Qed.

(** X7.  [_read_until_event] never returns [NEED_DATA]: what it returns is
    the last event h11 handed out.  It calls nothing on the transport but
    reads, which take the network's steps in order.  When h11 has an event
    at once, that event is returned and no read is issued; when it needs
    data first and the event comes with the first read, exactly that read
    is issued.  When nothing arrives any more, the read times out and the
    timeout is raised as it is. *)
Theorem read_until_event_returns_event (s : option sock)
  (read_timeout : option Z) (st : state SM) :
  (forall event st',
      _read_until_event s read_timeout st = (Ok event, st') ->
      event <> NEED_DATA
      /\ (exists c, next_event c = (inr event, this st'))
      /\ trace st' = trace st
      /\ exists taken, script st = (taken ++ script st')%list)
  /\ (forall event c,
         next_event (this st) = (inr event, c) ->
         event <> NEED_DATA ->
         _read_until_event s read_timeout st = (Ok event, with_machine c st))
  /\ (forall sk c data rest event c',
         s = Some sk ->
         next_event (this st) = (inr NEED_DATA, c) ->
         next_read (script st) = (inr data, rest) ->
         next_event (receive_data data c) = (inr event, c') ->
         event <> NEED_DATA ->
         _read_until_event s read_timeout st
         = (Ok event, mkState c' (trace st) rest))
  /\ (forall sk c,
         s = Some sk ->
         next_event (this st) = (inr NEED_DATA, c) ->
         script st = [] ->
         _read_until_event s read_timeout st
         = (Raise (TransportError SocketTimeout), mkState c (trace st) [])).
Proof.
  split; [ | split; [ | split ] ].
  - intros event st' E. apply read_until_event_spec in E.
    destruct E as [Ht [Hs [Hne Hc]]]. auto.
  - intros event c Hnext Hne. rewrite read_until_event_eq, Hnext.
    destruct event; try reflexivity. contradiction.
  - intros sk c data rest event c' -> Hnext Hread Hnext' Hne.
    rewrite read_until_event_eq, Hnext. unfold receive_some.
    cbn [with_machine this trace script]. rewrite Hread.
    rewrite read_until_event_eq. cbn [with_machine this trace script].
    rewrite Hnext'. destruct event; try reflexivity. contradiction.
  - intros sk c -> Hnext Hscript. rewrite read_until_event_eq, Hnext.
    unfold receive_some. cbn [with_machine this trace script].
    rewrite Hscript. reflexivity.
Qed.

End ReadProperties.

Section IteratorProperties.
Context {SM : Type} `{H11 SM} `{Environment}.

(** X8.  [_reset] on a connected connection decides between reuse and
    teardown.  When h11 starts the next cycle, the socket is kept and put
    under readable watch, and nothing else is called.  When h11 refuses with
    [LocalProtocolError], the connection is closed: [forceful_close] is
    invoked once on the socket, [_sock] and [_state_machine] are [None]
    whether or not that call raises, and [complete] is true afterwards.  Any
    other error of h11 is let through, and the socket is neither watched nor
    closed. *)
Theorem reset_reuses_or_closes (st : state (HTTP1Connection SM)) (sk : sock)
  (c : SM) :
  _sock (this st) = Some sk ->
  _state_machine (this st) = Some c ->
  (forall c', start_next_cycle c = (None, c') ->
     _reset st
     = (Ok tt,
        mkState (set__state_machine (Some c') (this st))
          (trace st ++ [CallSetReadableWatchState sk true]) (script st)))
  /\ (forall msg c',
        start_next_cycle c = (Some (LocalProtocolError msg), c') ->
        _reset st
        = (match forceful_close_outcome sk with
           | None => Ok tt
           | Some e => Raise (TransportError e)
           end,
           mkState (set__sock None (set__state_machine None (this st)))
             (trace st ++ [CallForcefulClose sk]) (script st))
        /\ complete (this (snd (_reset st))) = true)
  /\ (forall msg c',
        start_next_cycle c = (Some (RemoteProtocolError msg), c') ->
        _reset st
        = (Raise (H11Error (RemoteProtocolError msg)),
           mkState (set__state_machine (Some c') (this st)) (trace st)
             (script st))).
Proof.
  intros Hsock Hsm.
  split; [ | split ].
  - intros c' Hc. unfold _reset, bind, get. rewrite Hsm, Hc, Hsock.
    reflexivity.
  - intros msg c' Hc.
    assert (E : _reset st
                = (match forceful_close_outcome sk with
                   | None => Ok tt
                   | Some e => Raise (TransportError e)
                   end,
                   mkState (set__sock None (set__state_machine None (this st)))
                     (trace st ++ [CallForcefulClose sk]) (script st))).
    { unfold _reset, bind, get. rewrite Hsm, Hc.
      unfold modify at 1. cbn [this trace script].
      unfold close, bind, get. cbn [this _sock set__state_machine].
      rewrite Hsock. unfold modify, sock_forceful_close, bind, record_call,
        outcome, raise, ret. cbn [this trace script].
      destruct (forceful_close_outcome sk); reflexivity. }
    split; [ exact E | ]. rewrite E. reflexivity.
  - intros msg c' Hc. unfold _reset, bind, get. rewrite Hsm, Hc. reflexivity.
Qed.

(** X9.  One pull of the body iterator.  [__anext__] reads until h11 has
    an event, on the connection's socket and with its read timeout, and the
    connection keeps the state machine as the read left it.  A [Data] event
    gives its bytes as the chunk and nothing is called on the socket; at
    [EndOfMessage] the connection is reset and the iteration stops (or the
    exception of the reset is raised); any other event is a
    [RuntimeError]; an exception of the read is raised as it is. *)
Theorem anext_chunk_or_stop (st : state (HTTP1Connection SM)) (c : SM)
  (r : result h11_in_event) (se : state SM) :
  _state_machine (this st) = Some c ->
  _read_until_event (_sock (this st)) (conn_read_timeout (this st))
    (mkState c (trace st) (script st)) = (r, se) ->
  let read :=
    mkState (set__state_machine (Some (this se)) (this st)) (trace st)
      (script se) in
  match r with
  | Ok (DataEvent data) => __anext__ st = (Ok (Chunk data), read)
  | Ok EndOfMessageEvent =>
      __anext__ st
      = (match fst (_reset read) with
         | Ok _ => Ok StopAsyncIteration
         | Raise e => Raise e
         end, snd (_reset read))
  | Ok _ => __anext__ st = (Raise (RuntimeError "Unexpected h11 event"), read)
  | Raise e => __anext__ st = (Raise e, read)
  end.
Proof.
  intros Hsm Hread. cbv zeta.
  pose proof (read_until_event_spec _ _ _ _ _ Hread) as [Htr _].
  cbn [trace] in Htr.
  assert (Hrun :
            __anext__ st
            = match r with
              | Ok event =>
                  match event with
                  | DataEvent data => ret (Chunk data)
                  | EndOfMessageEvent => _reset ;; ret StopAsyncIteration
                  | _ => raise (RuntimeError "Unexpected h11 event")
                  end
                    (mkState (set__state_machine (Some (this se)) (this st))
                       (trace st) (script se))
              | Raise e =>
                  (Raise e,
                   mkState (set__state_machine (Some (this se)) (this st))
                     (trace st) (script se))
              end).
  { unfold __anext__. unfold bind at 1. unfold get at 1. rewrite Hsm.
    unfold bind at 1. unfold on_state_machine, zoom. cbn [this trace script].
    rewrite Hread, Htr. reflexivity. }
  rewrite Hrun.
  destruct r as [[| r0 | r0 | data | |] | e]; try reflexivity.
  unfold bind. destruct (_reset _) as [[u | e] s2]; reflexivity.
Qed.

Lemma in_sync_set_state_machine (self : HTTP1Connection SM) (m : option SM) :
  socket_held self -> in_sync (set__state_machine m self).
Proof. intros Hs. apply socket_held_in_sync. exact Hs. Qed.

Lemma in_sync_held (self : HTTP1Connection SM) (c : SM) :
  in_sync self -> _state_machine self = Some c -> socket_held self.
Proof. intros Hs Hc Hn. apply Hs in Hn. congruence. Qed.

Lemma reset_in_sync : preserves in_sync (_reset (SM := SM)).
Proof.
  intros st Hs. unfold _reset. unfold bind at 1. unfold get at 1.
  destruct (_state_machine (this st)) as [c |] eqn:Hsm; [ | exact Hs ].
  pose proof (in_sync_held _ _ Hs Hsm) as Hheld.
  destruct (start_next_cycle c) as [[[msg | msg] |] c'];
    unfold bind at 1; unfold modify at 1; cbn [this trace script].
  - apply close_in_sync. cbn [this]. now apply in_sync_set_state_machine.
  - now apply in_sync_set_state_machine.
  - destruct (_sock (this st)); cbn; now apply in_sync_set_state_machine.
Qed.

Lemma on_state_machine_in_sync {A} (c : SM) (m : M SM A) :
  forall st : state (HTTP1Connection SM),
    socket_held (this st) ->
    socket_held (this (snd (on_state_machine c m st))).
Proof.
  intros st Hs. unfold on_state_machine, zoom.
  destruct (m _) as [r s1]. exact Hs.
Qed.

Lemma send_request_in_sync request read_timeout :
  preserves in_sync (send_request (SM := SM) request read_timeout).
Proof.
  intros st Hs. unfold send_request. unfold bind at 1. unfold get at 1.
  destruct (_state_machine (this st)) as [c |] eqn:Hsm; [ | exact Hs ].
  pose proof (in_sync_held _ _ Hs Hsm) as Hheld.
  apply socket_held_in_sync. unfold bind.
  pose proof (on_state_machine_in_sync c
                (_start_http_request request (_sock (this st)) read_timeout)
                st Hheld) as Hon.
  destruct (on_state_machine c _ st) as [[r | e] s1]; cbn [snd] in *;
    [ | exact Hon ].
  destruct (_response_from_h11 r SelfConnection); exact Hon.
Qed.

Lemma anext_in_sync : preserves in_sync (__anext__ (SM := SM)).
Proof.
  intros st Hs. unfold __anext__. unfold bind at 1. unfold get at 1.
  destruct (_state_machine (this st)) as [c |] eqn:Hsm; [ | exact Hs ].
  pose proof (in_sync_held _ _ Hs Hsm) as Hheld.
  unfold bind at 1.
  pose proof (on_state_machine_in_sync c
                (_read_until_event (_sock (this st))
                   (conn_read_timeout (this st))) st Hheld) as Hon.
  destruct (on_state_machine c _ st) as [[event | e] s1]; cbn [snd] in *;
    [ | now apply socket_held_in_sync ].
  apply socket_held_in_sync in Hon.
  destruct event; try exact Hon.
  unfold bind. pose proof (reset_in_sync s1 Hon) as Hr.
  destruct (_reset s1) as [[u | e] s2]; exact Hr.
Qed.

(** X10.  The invariant that the comment in [close] states, that the state
    machine is only defined when the socket is, holds of a connection just
    built and is kept by every method, whatever it returns or raises:
    [connect], [send_request], the body iterator, [_reset] and [close]. *)
Theorem in_sync_invariant (st : state (HTTP1Connection SM)) :
  in_sync (this st) ->
  (forall ssl_ctx fp ah t, in_sync (this (snd (connect ssl_ctx fp ah t st))))
  /\ (forall request t, in_sync (this (snd (send_request request t st))))
  /\ in_sync (this (snd (__anext__ st)))
  /\ in_sync (this (snd (_reset st)))
  /\ in_sync (this (snd (close st))).
Proof.
  intros Hs. split; [ | split; [ | split; [ | split ] ] ].
  - intros ssl_ctx fp ah t. now apply connect_in_sync.
  - intros request t. now apply send_request_in_sync.
  - now apply anext_in_sync.
  - now apply reset_in_sync.
  - now apply close_in_sync.
Qed.

End IteratorProperties.

(** *** The TLS handshake *)

Section HandshakeProperties.
Context {SM : Type} `{H11 SM} `{Environment}.

(** [_wrap_socket], flattened: the calls it makes, in order, and what it
    leaves behind, by the outcome of the handshake and of the one
    verification it runs. *)
Lemma wrap_socket_run (s : sock) (ctx : ssl_context) (fp : option string)
  (ah : assert_hostname_t) (st : state (HTTP1Connection SM)) :
  let host := rstrip_dot (choose_check_host ah (this st)) in
  let warn :=
    if date_ltb today RECENT_DATE then [CallWarn SystemTimeWarning] else [] in
  let verified :=
    set_is_verified
      (verify_mode_eqb (verify_mode ctx) CERT_REQUIRED
       && (is_not_False ah || truthy_opt_text fp)) (this st) in
  _wrap_socket s ctx fp ah st
  = match start_tls_outcome s host ctx with
    | inl e =>
        (Raise (TransportError e),
         mkState (this st) (trace st ++ warn ++ [CallStartTls s host ctx])
           (script st))
    | inr tls =>
        if truthy_opt_text fp then
          let f := match fp with Some f => f | None => EmptyString end in
          let tr :=
            (trace st ++ warn
             ++ [CallStartTls s host ctx; CallGetPeerCert tls true;
                 CallAssertFingerprint (peercert_binary tls) f])%list in
          match fingerprint_outcome (peercert_binary tls) f with
          | Some e => (Raise (TransportError e), mkState (this st) tr (script st))
          | None => (Ok tls, mkState verified tr (script st))
          end
        else if negb (verify_mode_eqb (verify_mode ctx) CERT_NONE)
                && is_not_False ah then
          let tr :=
            (trace st ++ warn
             ++ [CallStartTls s host ctx; CallGetPeerCert tls false]
             ++ match subjectAltName (peercert tls) with
                | [] => [CallWarn SubjectAltNameWarning]
                | _ :: _ => []
                end
             ++ [CallMatchHostname (peercert tls) host])%list in
          match hostname_outcome (peercert tls) host with
          | Some e => (Raise (TransportError e), mkState (this st) tr (script st))
          | None => (Ok tls, mkState verified tr (script st))
          end
        else
          (Ok tls,
           mkState verified (trace st ++ warn ++ [CallStartTls s host ctx])
             (script st))
    end.
Proof.
  cbv zeta.
  unfold _wrap_socket, bind, get, sock_start_tls, assert_fingerprint,
    match_hostname, bind, record_call, modify, outcome, ret, raise.
  destruct st as [self tr sc]. cbn [this trace script fst snd].
  destruct (date_ltb today RECENT_DATE); cbn [this trace script fst snd];
    destruct (start_tls_outcome s (rstrip_dot (choose_check_host ah self)) ctx)
      as [e | tls];
    cbn [this trace script fst snd];
    rewrite <- ?List.app_assoc; cbn [app]; try reflexivity;
    destruct (truthy_opt_text fp); cbn [this trace script fst snd];
    [ destruct (fingerprint_outcome _ _) | | destruct (fingerprint_outcome _ _) | ];
    cbn [this trace script fst snd];
    rewrite <- ?List.app_assoc; cbn [app]; try reflexivity;
    destruct (negb (verify_mode_eqb (verify_mode ctx) CERT_NONE)
              && is_not_False ah);
    cbn [this trace script fst snd];
    rewrite <- ?List.app_assoc; cbn [app]; try reflexivity;
    destruct (subjectAltName (peercert tls)); cbn [this trace script fst snd];
    destruct (hostname_outcome _ _); cbn [this trace script fst snd];
    rewrite <- ?List.app_assoc; cbn [app]; reflexivity.
Qed.

Lemma verify_mode_eqb_eq (a b : verify_mode_t) :
  verify_mode_eqb a b = true <-> a = b.
Proof. destruct a, b; cbn; split; congruence. Qed.

Lemma is_not_False_true (ah : assert_hostname_t) :
  is_not_False ah = true <-> ah <> AssertFalse.
Proof. destruct ah; cbn; split; congruence. Qed.

(** X11.  [_wrap_socket] returns the socket that [start_tls] made of the
    one it was given, the handshake being for the chosen host name with its
    trailing dots stripped.  When it returns, [is_verified] is true exactly
    when [verify_mode] is [CERT_REQUIRED] and a verification was asked for
    ([assert_hostname] is not [False], or a fingerprint is given), and it is
    the only attribute written.  When it raises, the exception is the
    transport's or the verification's own and the connection object is as
    before: [is_verified] is not touched. *)
Theorem wrap_socket_is_verified (s : sock) (ctx : ssl_context)
  (fp : option string) (ah : assert_hostname_t)
  (st : state (HTTP1Connection SM)) :
  (forall tls st',
      _wrap_socket s ctx fp ah st = (Ok tls, st') ->
      start_tls_outcome s (rstrip_dot (choose_check_host ah (this st))) ctx
      = inr tls
      /\ (is_verified (this st') = true <->
          verify_mode ctx = CERT_REQUIRED
          /\ (ah <> AssertFalse \/ truthy_opt_text fp = true))
      /\ exists b, this st' = set_is_verified b (this st))
  /\ (forall e st',
         _wrap_socket s ctx fp ah st = (Raise e, st') ->
         this st' = this st /\ exists te, e = TransportError te).
Proof.
  pose proof (wrap_socket_run s ctx fp ah st) as Hrun. cbv zeta in Hrun.
  assert (Hv : forall st' : state (HTTP1Connection SM),
             this st'
             = set_is_verified
                 (verify_mode_eqb (verify_mode ctx) CERT_REQUIRED
                  && (is_not_False ah || truthy_opt_text fp)) (this st) ->
             (is_verified (this st') = true <->
              verify_mode ctx = CERT_REQUIRED
              /\ (ah <> AssertFalse \/ truthy_opt_text fp = true))
             /\ exists b, this st' = set_is_verified b (this st)).
  { intros st' ->. split; [ | eauto ]. cbn [is_verified set_is_verified].
    rewrite andb_true_iff, orb_true_iff, verify_mode_eqb_eq, is_not_False_true.
    reflexivity. }
  rewrite Hrun. clear Hrun.
  destruct (start_tls_outcome s (rstrip_dot (choose_check_host ah (this st))) ctx)
    as [e0 | tls0].
  { split; intros x st' E; inversion E; subst. split; eauto. }
  destruct (truthy_opt_text fp).
  - destruct (fingerprint_outcome _ _); split; intros x st' E; inversion E; subst;
      [ split; eauto | split; [ reflexivity | now apply Hv ] ].
  - destruct (negb (verify_mode_eqb (verify_mode ctx) CERT_NONE)
              && is_not_False ah).
    + destruct (hostname_outcome _ _); split; intros x st' E; inversion E; subst;
        [ split; eauto | split; [ reflexivity | now apply Hv ] ].
    + split; intros x st' E; inversion E; subst.
      split; [ reflexivity | now apply Hv ].
Qed.

Lemma filter_verification_app (a b : list call) :
  filter is_verification (a ++ b)
  = (filter is_verification a ++ filter is_verification b)%list.
Proof. apply filter_app. Qed.

(** X12.  After the handshake [_wrap_socket] runs one verification or none,
    and returns exactly when that one passes.  With a fingerprint it is
    [assert_fingerprint] on the binary certificate, and the host name is
    not matched, whatever [verify_mode] and [assert_hostname] are.  Without
    a fingerprint, with [verify_mode] other than [CERT_NONE] and
    [assert_hostname] not [False], it is [match_hostname] on the chosen
    host.  Otherwise nothing is verified, the call returns, and the
    connection is marked not verified. *)
Theorem wrap_socket_verification (s tls : sock) (ctx : ssl_context)
  (fp : option string) (ah : assert_hostname_t)
  (st : state (HTTP1Connection SM)) :
  let host := rstrip_dot (choose_check_host ah (this st)) in
  start_tls_outcome s host ctx = inr tls ->
  exists new,
    trace (snd (_wrap_socket s ctx fp ah st)) = (trace st ++ new)%list
    /\ (forall f, fp = Some f -> f <> EmptyString ->
          filter is_verification new
          = [CallAssertFingerprint (peercert_binary tls) f]
          /\ (fst (_wrap_socket s ctx fp ah st) = Ok tls <->
              fingerprint_outcome (peercert_binary tls) f = None))
    /\ (truthy_opt_text fp = false ->
        verify_mode ctx <> CERT_NONE -> ah <> AssertFalse ->
        filter is_verification new = [CallMatchHostname (peercert tls) host]
        /\ (fst (_wrap_socket s ctx fp ah st) = Ok tls <->
            hostname_outcome (peercert tls) host = None))
    /\ (truthy_opt_text fp = false ->
        verify_mode ctx = CERT_NONE \/ ah = AssertFalse ->
        filter is_verification new = []
        /\ fst (_wrap_socket s ctx fp ah st) = Ok tls
        /\ is_verified (this (snd (_wrap_socket s ctx fp ah st))) = false).
Proof.
  cbv zeta. intros Htls.
  pose proof (wrap_socket_run s ctx fp ah st) as Hrun. cbv zeta in Hrun.
  rewrite Hrun, Htls. clear Hrun.
  assert (Hwarn : filter is_verification
                    (if date_ltb today RECENT_DATE
                     then [CallWarn SystemTimeWarning] else []) = [])
    by (destruct (date_ltb today RECENT_DATE); reflexivity).
  destruct (truthy_opt_text fp) eqn:Hfp.
  - destruct fp as [f0 |]; [ | discriminate ].
    eexists. split.
    { destruct (fingerprint_outcome _ _); cbn [snd trace]; reflexivity. }
    split; [ | split; discriminate ].
    intros f Ef Hne. inversion Ef; subst f0.
    rewrite filter_verification_app, Hwarn. split; [ reflexivity | ].
    destruct (fingerprint_outcome _ _); cbn [fst]; split; congruence.
  - destruct (negb (verify_mode_eqb (verify_mode ctx) CERT_NONE)
              && is_not_False ah) eqn:Hon.
    + apply andb_true_iff in Hon. destruct Hon as [Hm Hn].
      apply negb_true_iff in Hm. apply is_not_False_true in Hn.
      eexists. split.
      { destruct (hostname_outcome _ _); cbn [snd trace]; reflexivity. }
      split; [ | split ].
      * intros f -> Hne. destruct f; [ contradiction | discriminate ].
      * intros _ _ _. rewrite filter_verification_app, Hwarn.
        split.
        -- destruct (subjectAltName (peercert tls)); reflexivity.
        -- destruct (hostname_outcome _ _); cbn [fst]; split; congruence.
      * intros _ [Hnone | Hfalse]; [ | contradiction ].
        rewrite Hnone in Hm. discriminate.
    + eexists. split; [ cbn [snd trace]; reflexivity | ].
      split; [ | split ].
      * intros f -> Hne. destruct f; [ contradiction | discriminate ].
      * intros _ Hm Hn. apply andb_false_iff in Hon.
        destruct Hon as [Hon | Hon].
        -- apply negb_false_iff, verify_mode_eqb_eq in Hon. contradiction.
        -- apply is_not_False_true in Hn. congruence.
      * intros _ Hoff. rewrite filter_verification_app, Hwarn.
        split; [ reflexivity | ]. split; [ reflexivity | ].
        cbn [snd this is_verified set_is_verified]. rewrite orb_false_r.
        destruct Hoff as [Hnone | Hfalse].
        -- rewrite Hnone. reflexivity.
        -- subst ah. cbn. apply andb_false_r.
Qed.

(** The calls of [_wrap_socket] begin with the clock warning, if the clock
    is off, and the one handshake. *)
Lemma wrap_socket_handshake_first (s : sock) (ctx : ssl_context)
  (fp : option string) (ah : assert_hostname_t)
  (st : state (HTTP1Connection SM)) :
  exists rest,
    trace (snd (_wrap_socket s ctx fp ah st))
    = (trace st
       ++ (if date_ltb today RECENT_DATE
           then [CallWarn SystemTimeWarning] else [])
       ++ CallStartTls s (rstrip_dot (choose_check_host ah (this st))) ctx
          :: rest)%list
    /\ ~ In (CallWarn SystemTimeWarning) rest
    /\ existsb is_StartTls rest = false.
Proof.
  pose proof (wrap_socket_run s ctx fp ah st) as Hrun. cbv zeta in Hrun.
  rewrite Hrun. clear Hrun.
  destruct (start_tls_outcome _ _ _) as [e | tls].
  { exists []. cbn. repeat split; tauto. }
  destruct (truthy_opt_text fp).
  - eexists. split.
    { destruct (fingerprint_outcome _ _); cbn [snd trace]; reflexivity. }
    split; [ | reflexivity ].
    cbn. intros [E | [E | []]]; discriminate.
  - destruct (negb (verify_mode_eqb (verify_mode ctx) CERT_NONE)
              && is_not_False ah).
    + eexists. split.
      { destruct (hostname_outcome _ _); cbn [snd trace app]; reflexivity. }
      split.
      * destruct (subjectAltName (peercert tls)); cbn;
          intuition discriminate.
      * destruct (subjectAltName (peercert tls)); reflexivity.
    + exists []. cbn. repeat split; tauto.
Qed.

(** X13.  [_wrap_socket] warns of a system clock that is off
    ([SystemTimeWarning]) exactly when today's date is earlier than
    [RECENT_DATE], the first of January 2019, before anything else and only
    once.  The warning changes nothing else: in either case one handshake is
    attempted, and only one. *)
Theorem wrap_socket_time_warning (s : sock) (ctx : ssl_context)
  (fp : option string) (ah : assert_hostname_t)
  (st : state (HTTP1Connection SM)) :
  exists rest,
    trace (snd (_wrap_socket s ctx fp ah st))
    = (trace st
       ++ (if date_ltb today RECENT_DATE
           then [CallWarn SystemTimeWarning] else [])
       ++ CallStartTls s (rstrip_dot (choose_check_host ah (this st))) ctx
          :: rest)%list
    /\ ~ In (CallWarn SystemTimeWarning) rest
    /\ existsb is_StartTls rest = false
    /\ RECENT_DATE = mkDate 2019 1 1.
Proof.
  destruct (wrap_socket_handshake_first s ctx fp ah st)
    as [rest [Htr [Hwarn Hone]]].
  exists rest. repeat split; assumption.
Qed.

End HandshakeProperties.

(** *** Connecting *)

Section ConnectProperties.
Context {SM : Type} `{H11 SM} `{Environment}.

(** [connect] on a connection without a socket, flattened. *)
Lemma connect_run (ssl_ctx : option ssl_context) (fp : option string)
  (ah : assert_hostname_t) (t : option Z) (st : state (HTTP1Connection SM)) :
  _sock (this st) = None ->
  let self := this st in
  let tr := (trace st ++ [dial self t])%list in
  connect ssl_ctx fp ah t st
  = match connect_outcome (_host self) (_port self) t (dial_kw self) with
    | inl SocketTimeout =>
        (Raise (ConnectTimeoutError
                  ("Connection to " ++ _host self
                   ++ " timed out. (connect timeout="
                   ++ str_of_timeout t ++ ")")%string),
         mkState self tr (script st))
    | inl (SocketError e) =>
        (Raise (NewConnectionError
                  ("Failed to establish a new connection: " ++ e)%string),
         mkState self tr (script st))
    | inl e => (Raise (TransportError e), mkState self tr (script st))
    | inr raw =>
        match ssl_ctx with
        | None => (Ok tt, mkState (dialled self raw) tr (script st))
        | Some ctx =>
            secure raw ctx fp ah (_tunnel_host self)
              (mkState (dialled self raw) tr (script st))
        end
    end.
Proof.
  intros Hsock. cbv zeta. unfold connect. unfold bind at 1. unfold get at 1.
  rewrite Hsock. unfold bind at 1. unfold bind at 1. unfold record_call at 1.
  cbn [this trace script]. fold (dial_kw (this st)). fold (dial (this st) t).
  destruct (connect_outcome _ _ _ _) as [[| msg | msg] | raw]; try reflexivity.
  unfold bind at 1. unfold modify at 1 2. cbn [this trace script].
  destruct ssl_ctx as [ctx |]; [ | reflexivity ].
  unfold bind at 1. unfold get at 1. cbn [this trace script _sock set__sock
    set__state_machine _tunnel_host].
  reflexivity.
Qed.

Lemma wire_no_StartTls (wire : list call) :
  Forall is_wire wire -> existsb is_StartTls wire = false.
Proof.
  induction 1 as [| c wire Hc _ IH]; [ reflexivity | ].
  cbn [existsb]. rewrite IH. destruct c; cbn in Hc |- *; tauto.
Qed.

Lemma existsb_StartTls_app (a b : list call) :
  existsb is_StartTls (a ++ b)
  = existsb is_StartTls a || existsb is_StartTls b.
Proof. apply existsb_app. Qed.

Lemma start_http_request_outcome request sk read_timeout (s : state SM) r s' :
  _start_http_request request (Some sk) read_timeout s = (r, s') ->
  (exists new,
      trace s' = (trace s ++ new)%list /\ existsb is_StartTls new = false)
  /\ raises_only raised_by_request r.
Proof.
  intros E. unfold _start_http_request in E.
  unfold bind at 1 in E. unfold get at 1 in E.
  destruct (negb (is_IDLE (our_state (this s)))
            || negb (is_IDLE (their_state (this s)))).
  { inversion E; subst. split; [ | exact I ].
    exists []. now rewrite List.app_nil_r. }
  unfold with_frame, zoom in E.
  destruct (exchange request (Some sk) read_timeout
              (mkState (mkFrame (this s) Fresh true None) (trace s) (script s)))
    as [r0 s1] eqn:Ebody.
  inversion E; subst. clear E. apply exchange_spec in Ebody; [ | reflexivity ].
  destruct Ebody as [wire [Hw Hr]]. cbn [this trace script] in *.
  pose proof (wire_no_StartTls _ Hw) as Hno.
  destruct r as [resp | e].
  - split; [ | exact I ]. eexists. split; [ exact Hr | ].
    cbn [app existsb is_StartTls orb]. rewrite existsb_StartTls_app, Hno.
    destruct (existsb is_WireFinished wire); reflexivity.
  - destruct Hr as [He Hr]. split.
    + eexists. split; [ exact Hr | ]. cbn [app existsb is_StartTls orb].
      exact Hno.
    + destruct He as [He | ->]; [ | exact I ]. destruct e; cbn in *; tauto.
Qed.

Lemma tunnel_outcome (raw : sock) (st : state (HTTP1Connection SM)) r st' :
  _tunnel raw st = (r, st') ->
  this st' = this st
  /\ exists new,
       trace st' = (trace st ++ new)%list
       /\ existsb is_StartTls new = false
       /\ match r with
          | Ok _ => True
          | Raise (FailedTunnelError _ _) =>
              exists before, new = (before ++ [CallForcefulClose raw])%list
          | Raise e => raised_by_tunnel e
          end.
Proof.
  intros E. split.
  { pose proof (tunnel_leaves_object raw st) as Hl. now rewrite E in Hl. }
  unfold _tunnel in E. unfold bind at 1 in E. unfold get at 1 in E.
  destruct (_state_machine (this st)) as [c |].
  2:{ inversion E; subst. exists []. rewrite List.app_nil_r.
      repeat split. }
  destruct (negb (is_IDLE (our_state c))).
  { inversion E; subst. exists []. rewrite List.app_nil_r. repeat split. }
  destruct (_tunnel_host (this st)) as [host |], (_tunnel_port (this st)) as [port |];
    try solve [ inversion E; subst; exists []; rewrite List.app_nil_r;
                repeat split ].
  apply bind_inv in E.
  destruct E as [[e [E Hr]] | [resp [s1 [E Hk]]]];
    unfold on_local_machine, zoom in E; cbn [this trace script] in E;
    destruct (_start_http_request _ _ _ _) as [r0 s0] eqn:Ereq;
    apply start_http_request_outcome in Ereq;
    destruct Ereq as [[new [Htr Hno]] Hraise];
    cbn [this trace script] in Htr; inversion E; subst; clear E;
    cbn [trace].
  - exists new. split; [ exact Htr | ]. split; [ exact Hno | ].
    cbn in Hraise. destruct e; try exact I; contradiction.
  - apply bind_inv in Hk. cbn [this trace script] in Hk.
    destruct Hk as [[e [E Hr]] | [tunnel_response [s2 [E Hk]]]].
    + unfold lift in E.
      destruct (_response_from_h11 resp SelfConnection) as [e0 | ok] eqn:Eresp;
        [ | discriminate ].
      inversion E; subst. exists new.
      split; [ exact Htr | ]. split; [ exact Hno | ].
      unfold _response_from_h11 in Eresp.
      destruct (negb _) in Eresp; inversion Eresp; subst. exact I.
    + unfold lift in E.
      destruct (_response_from_h11 resp SelfConnection) as [e0 | ok];
        [ discriminate | ].
      inversion E; subst. clear E. cbn [trace] in *.
      destruct (negb (h11_status_code resp =? 200)%Z).
      * unfold bind, sock_forceful_close, bind, record_call, outcome, raise,
          ret in Hk.
        cbn [this trace script] in Hk.
        exists (new ++ [CallForcefulClose raw])%list.
        destruct (forceful_close_outcome raw); inversion Hk; subst;
          cbn [trace]; rewrite Htr, <- List.app_assoc;
          (split; [ reflexivity | ]);
          rewrite existsb_StartTls_app, Hno;
          (split; [ reflexivity | ]); [ exact I | eauto ].
      * inversion Hk; subst. exists new. auto.
Qed.

Lemma wrap_socket_outcome (s : sock) (ctx : ssl_context) (fp : option string)
  (ah : assert_hostname_t) (st : state (HTTP1Connection SM)) r st' :
  _wrap_socket s ctx fp ah st = (r, st') ->
  script st' = script st
  /\ (exists new,
         trace st' = (trace st ++ new)%list
         /\ existsb is_SendAndReceive new = false)
  /\ match r with
     | Ok tls =>
         start_tls_outcome s (rstrip_dot (choose_check_host ah (this st))) ctx
         = inr tls
         /\ this st'
            = set_is_verified
                (verify_mode_eqb (verify_mode ctx) CERT_REQUIRED
                 && (is_not_False ah || truthy_opt_text fp)) (this st)
     | Raise e => this st' = this st /\ exists te, e = TransportError te
     end.
Proof.
  pose proof (wrap_socket_run s ctx fp ah st) as Hrun. cbv zeta in Hrun.
  rewrite Hrun. clear Hrun.
  assert (Hwarn : existsb is_SendAndReceive
                    (if date_ltb today RECENT_DATE
                     then [CallWarn SystemTimeWarning] else []) = false)
    by (destruct (date_ltb today RECENT_DATE); reflexivity).
  destruct (start_tls_outcome _ _ _) as [e0 | tls0].
  { intros E. inversion E; subst. cbn [this trace script].
    split; [ reflexivity | ]. split; [ | eauto ].
    eexists. split; [ reflexivity | ]. now rewrite existsb_app, Hwarn. }
  destruct (truthy_opt_text fp).
  - destruct (fingerprint_outcome _ _); intros E; inversion E; subst;
      cbn [this trace script];
      (split; [ reflexivity | ]);
      (split; [ eexists; split; [ reflexivity | ];
                now rewrite existsb_app, Hwarn | eauto ]).
  - destruct (negb (verify_mode_eqb (verify_mode ctx) CERT_NONE)
              && is_not_False ah).
    + destruct (hostname_outcome _ _); intros E; inversion E; subst;
        cbn [this trace script];
        (split; [ reflexivity | ]);
        (split; [ eexists; split; [ reflexivity | ];
                  rewrite existsb_app, Hwarn;
                  destruct (subjectAltName (peercert tls0)); reflexivity
                | eauto ]).
    + intros E; inversion E; subst; cbn [this trace script].
      split; [ reflexivity | ].
      split; [ eexists; split; [ reflexivity | ];
               now rewrite existsb_app, Hwarn | eauto ].
Qed.

(** The tunnel step of [connect]: the CONNECT exchange in the synchronous
    copy, nothing at all in async mode, where the coroutine is not awaited. *)
Lemma tunnel_step_outcome (th : option string) (raw : sock)
  (s1 : state (HTTP1Connection SM)) r sa :
  match th with
  | Some _ => if _ASYNC_MODE then ret tt else _tunnel raw
  | None => ret tt
  end s1 = (r, sa) ->
  this sa = this s1
  /\ (exists new,
         trace sa = (trace s1 ++ new)%list
         /\ existsb is_StartTls new = false
         /\ match r with
            | Ok _ => True
            | Raise (FailedTunnelError _ _) =>
                exists before, new = (before ++ [CallForcefulClose raw])%list
            | Raise e => raised_by_tunnel e
            end)
  /\ (_ASYNC_MODE = true -> r = Ok tt /\ sa = s1)
  /\ (th = None -> r = Ok tt /\ sa = s1).
Proof.
  assert (Hret : forall r0 sa0,
             ret (O := HTTP1Connection SM) tt s1 = (r0, sa0) ->
             this sa0 = this s1
             /\ (exists new,
                    trace sa0 = (trace s1 ++ new)%list
                    /\ existsb is_StartTls new = false
                    /\ match r0 with
                       | Ok _ => True
                       | Raise (FailedTunnelError _ _) =>
                           exists before,
                             new = (before ++ [CallForcefulClose raw])%list
                       | Raise e => raised_by_tunnel e
                       end)
             /\ r0 = Ok tt /\ sa0 = s1).
  { intros r0 sa0 E. inversion E; subst. split; [ reflexivity | ].
    split; [ exists []; now rewrite List.app_nil_r | auto ]. }
  destruct th as [host |].
  - destruct _ASYNC_MODE eqn:Hmode.
    + intros E. apply Hret in E. destruct E as [Ht [Hn He]].
      split; [ exact Ht | ]. split; [ exact Hn | ]. split; [ auto | auto ].
    + intros E. apply tunnel_outcome in E. destruct E as [Ht Hn].
      split; [ exact Ht | ]. split; [ exact Hn | ].
      split; discriminate.
  - intros E. apply Hret in E. destruct E as [Ht [Hn He]].
    split; [ exact Ht | ]. split; [ exact Hn | ]. split; auto.
Qed.

Lemma secure_inv (raw : sock) (ctx : ssl_context) (fp : option string)
  (ah : assert_hostname_t) (th : option string)
  (s1 : state (HTTP1Connection SM)) r s2 :
  secure raw ctx fp ah th s1 = (r, s2) ->
  (exists e,
      match th with
      | Some _ => if _ASYNC_MODE then ret tt else _tunnel raw
      | None => ret tt
      end s1 = (Raise e, s2)
      /\ r = Raise e)
  \/ exists sa,
       match th with
       | Some _ => if _ASYNC_MODE then ret tt else _tunnel raw
       | None => ret tt
       end s1 = (Ok tt, sa)
       /\ ((exists e, _wrap_socket raw ctx fp ah sa = (Raise e, s2)
                      /\ r = Raise e)
           \/ (exists tls sb,
                  _wrap_socket raw ctx fp ah sa = (Ok tls, sb)
                  /\ r = Ok tt
                  /\ s2 = mkState (set__sock (Some tls) (this sb)) (trace sb)
                            (script sb))).
Proof.
  unfold secure. intros E. apply bind_inv in E.
  destruct E as [[e [E Hr]] | [u [sa [E Hk]]]]; [ left; eauto | right ].
  destruct u. exists sa. split; [ exact E | ].
  apply bind_inv in Hk.
  destruct Hk as [[e [Ew Hr]] | [tls [sb [Ew Hk]]]]; [ left; eauto | right ].
  exists tls, sb. split; [ exact Ew | ].
  unfold modify in Hk. inversion Hk; subst. auto.
Qed.

Lemma secure_trace (raw : sock) (ctx : ssl_context) (fp : option string)
  (ah : assert_hostname_t) (th : option string)
  (s1 : state (HTTP1Connection SM)) r s2 :
  secure raw ctx fp ah th s1 = (r, s2) ->
  raises_only raised_by_tunnel r
  /\ exists new, trace s2 = (trace s1 ++ new)%list.
Proof.
  intros Es. apply secure_inv in Es.
  destruct Es as [[e [E ->]] | [sa [E Hw]]];
    apply tunnel_step_outcome in E;
    destruct E as [_ [[new [Htr [_ He]]] _]].
  - split.
    + cbn. destruct e; try exact I; exact He.
    + exists new. exact Htr.
  - destruct Hw as [[e [Ew ->]] | [tls [sb [Ew [-> ->]]]]];
      apply wrap_socket_outcome in Ew;
      destruct Ew as [_ [[new' [Htr' _]] Hres]]; cbn [trace].
    + split.
      * destruct Hres as [_ [te ->]]. exact I.
      * exists (new ++ new')%list. rewrite Htr', Htr, <- !List.app_assoc.
        reflexivity.
    + split; [ exact I | ].
      exists (new ++ new')%list. rewrite Htr', Htr, <- !List.app_assoc.
      reflexivity.
Qed.

(** On a connection without a socket the dial comes first. *)
Lemma connect_trace (ssl_ctx : option ssl_context) (fp : option string)
  (ah : assert_hostname_t) (t : option Z) (st : state (HTTP1Connection SM)) :
  _sock (this st) = None ->
  exists rest,
    trace (snd (connect ssl_ctx fp ah t st))
    = (trace st ++ dial (this st) t :: rest)%list.
Proof.
  intros Hsock.
  pose proof (connect_run ssl_ctx fp ah t st Hsock) as Hrun. cbv zeta in Hrun.
  rewrite Hrun. clear Hrun.
  destruct (connect_outcome _ _ _ _) as [[| e0 | e0] | raw];
    try (exists []; reflexivity).
  destruct ssl_ctx as [ctx |]; [ | exists []; reflexivity ].
  destruct (secure _ _ _ _ _ _) as [r s2] eqn:Es.
  apply secure_trace in Es. destruct Es as [_ [new Htr]].
  cbn [snd trace] in *. exists new. rewrite Htr, <- List.app_assoc.
  reflexivity.
Qed.

(** X14.  Dialling.  [connect] on a connection without a socket first
    calls the backend's connect, once.  It raises [ConnectTimeoutError]
    exactly when that call times out and [NewConnectionError] exactly when
    it fails with a socket error, the message naming the host and the
    timeout, or the error: a timeout or socket error later on, in the tunnel
    or in the TLS handshake, is never reported as one of the two.  When the
    dial fails the connection is left as it was, unconnected.  When it
    succeeds and no SSL context is given, the connection holds the new
    socket and a fresh state machine, and nothing else was called. *)
Theorem connect_dial (ssl_ctx : option ssl_context) (fp : option string)
  (ah : assert_hostname_t) (t : option Z) (st : state (HTTP1Connection SM)) :
  _sock (this st) = None ->
  let self := this st in
  let answer := connect_outcome (_host self) (_port self) t (dial_kw self) in
  let r := connect ssl_ctx fp ah t st in
  (exists rest, trace (snd r) = (trace st ++ dial self t :: rest)%list)
  /\ (forall msg,
         fst r = Raise (ConnectTimeoutError msg) <->
         answer = inl SocketTimeout
         /\ msg = ("Connection to " ++ _host self
                   ++ " timed out. (connect timeout="
                   ++ str_of_timeout t ++ ")")%string)
  /\ (forall msg,
         fst r = Raise (NewConnectionError msg) <->
         exists e,
           answer = inl (SocketError e)
           /\ msg = ("Failed to establish a new connection: " ++ e)%string)
  /\ (forall err, answer = inl err ->
         snd r = mkState self (trace st ++ [dial self t]) (script st))
  /\ (forall raw, answer = inr raw -> ssl_ctx = None ->
         r = (Ok tt,
              mkState (dialled self raw) (trace st ++ [dial self t])
                (script st))).
Proof.
  intros Hsock. cbv zeta.
  pose proof (connect_run ssl_ctx fp ah t st Hsock) as Hrun. cbv zeta in Hrun.
  rewrite Hrun. clear Hrun.
  destruct (connect_outcome _ _ _ _) as [[| e0 | e0] | raw].
  - split; [ exists []; reflexivity | ].
    split; [ intros msg; cbn [fst]; split;
             [ intros E; inversion E; auto | intros [_ ->]; reflexivity ] | ].
    split; [ intros msg; cbn [fst]; split;
             [ discriminate | intros [e [E _]]; discriminate ] | ].
    split; [ reflexivity | discriminate ].
  - split; [ exists []; reflexivity | ].
    split; [ intros msg; cbn [fst]; split;
             [ discriminate | intros [E _]; discriminate ] | ].
    split; [ intros msg; cbn [fst]; split;
             [ intros E; inversion E; eauto
             | intros [e [E ->]]; inversion E; reflexivity ] | ].
    split; [ reflexivity | discriminate ].
  - split; [ exists []; reflexivity | ].
    split; [ intros msg; cbn [fst]; split;
             [ discriminate | intros [E _]; discriminate ] | ].
    split; [ intros msg; cbn [fst]; split;
             [ discriminate | intros [e [E _]]; discriminate ] | ].
    split; [ reflexivity | discriminate ].
  - destruct ssl_ctx as [ctx |].
    + destruct (secure raw ctx fp ah (_tunnel_host (this st))
                  (mkState (dialled (this st) raw)
                     (trace st ++ [dial (this st) t]) (script st)))
        as [r s2] eqn:Es.
      cbn [fst snd].
      assert (Hr : raises_only raised_by_tunnel r
                   /\ exists rest,
                        trace s2 = (trace st ++ dial (this st) t :: rest)%list).
      { apply secure_trace in Es. destruct Es as [Hr [new Htr]].
        split; [ exact Hr | ]. cbn [trace] in Htr. exists new.
        rewrite Htr, <- List.app_assoc. reflexivity. }
      destruct Hr as [Hr Htr].
      split; [ exact Htr | ].
      split; [ intros msg; split;
               [ intros E; subst r; contradiction
               | intros [E _]; discriminate ] | ].
      split; [ intros msg; split;
               [ intros E; subst r; contradiction
               | intros [e [E _]]; discriminate ] | ].
      split; discriminate.
    + split; [ exists []; reflexivity | ].
      split; [ intros msg; cbn [fst]; split;
               [ discriminate | intros [E _]; discriminate ] | ].
      split; [ intros msg; cbn [fst]; split;
               [ discriminate | intros [e [E _]]; discriminate ] | ].
      split; [ discriminate | ].
      intros raw0 E _. inversion E; subst. reflexivity.
Qed.

(** X15.  [connect] with an SSL context, once the dial has given a socket.
    When it returns, the connection holds the socket that [start_tls] made
    of the dialled one, and [is_verified] is true exactly when [verify_mode]
    is [CERT_REQUIRED] and a verification was asked for.  When it raises,
    in the tunnel, the handshake or the verification, the connection is
    left holding the dialled socket and its fresh state machine, with
    [is_verified] as before: it counts as connected, and another [connect]
    returns at once without a handshake. *)
Theorem connect_tls (ctx : ssl_context) (fp : option string)
  (ah : assert_hostname_t) (t : option Z) (st : state (HTTP1Connection SM))
  (raw : sock) :
  _sock (this st) = None ->
  connect_outcome (_host (this st)) (_port (this st)) t (dial_kw (this st))
  = inr raw ->
  let r := connect (Some ctx) fp ah t st in
  (fst r = Ok tt ->
     exists tls,
       start_tls_outcome raw (rstrip_dot (choose_check_host ah (this st))) ctx
       = inr tls
       /\ _sock (this (snd r)) = Some tls
       /\ _state_machine (this (snd r)) = Some h11_Connection_CLIENT
       /\ (is_verified (this (snd r)) = true <->
           verify_mode ctx = CERT_REQUIRED
           /\ (ah <> AssertFalse \/ truthy_opt_text fp = true)))
  /\ (forall e, fst r = Raise e ->
        _sock (this (snd r)) = Some raw
        /\ _state_machine (this (snd r)) = Some h11_Connection_CLIENT
        /\ is_verified (this (snd r)) = is_verified (this st)
        /\ connect (Some ctx) fp ah t (snd r)
           = (Ok tt,
              mkState (this (snd r))
                (trace (snd r) ++ [CallSetReadableWatchState raw false])
                (script (snd r)))).
Proof.
  intros Hsock Hdial. cbv zeta.
  pose proof (connect_run (Some ctx) fp ah t st Hsock) as Hrun.
  cbv zeta in Hrun. rewrite Hdial in Hrun. rewrite Hrun. clear Hrun.
  destruct (secure raw ctx fp ah (_tunnel_host (this st))
              (mkState (dialled (this st) raw)
                 (trace st ++ [dial (this st) t]) (script st)))
    as [r s2] eqn:Es.
  cbn [fst snd].
  assert (Hraise : this s2 = dialled (this st) raw ->
            _sock (this s2) = Some raw
            /\ _state_machine (this s2) = Some h11_Connection_CLIENT
            /\ is_verified (this s2) = is_verified (this st)
            /\ connect (Some ctx) fp ah t s2
               = (Ok tt,
                  mkState (this s2)
                    (trace s2 ++ [CallSetReadableWatchState raw false])
                    (script s2))).
  { intros Hthis. destruct s2 as [self2 tr2 sc2]. cbn [this] in Hthis.
    subst self2. repeat split. }
  apply secure_inv in Es.
  destruct Es as [[e [E ->]] | [sa [E Hw]]];
    apply tunnel_step_outcome in E; destruct E as [Ht _];
    cbn [this] in Ht.
  - split; [ discriminate | ]. intros e0 _. now apply Hraise.
  - destruct Hw as [[e [Ew ->]] | [tls [sb [Ew [-> ->]]]]];
      apply wrap_socket_outcome in Ew; destruct Ew as [_ [_ Hres]].
    + split; [ discriminate | ]. intros e0 _. apply Hraise.
      destruct Hres as [Hthis _]. congruence.
    + split; [ | discriminate ]. intros _.
      destruct Hres as [Htls Hthis]. rewrite Ht in Htls, Hthis.
      exists tls. split; [ exact Htls | ]. cbn [this]. rewrite Hthis.
      split; [ reflexivity | ]. split; [ reflexivity | ].
      cbn [is_verified set__sock set_is_verified].
      rewrite andb_true_iff, orb_true_iff, verify_mode_eqb_eq,
        is_not_False_true.
      reflexivity.
Qed.

(** X16.  A refused tunnel.  [connect] raises [FailedTunnelError] only in
    the synchronous copy, with a tunnel host set, after the dial has
    succeeded and the CONNECT exchange has been answered with a status other
    than 200.  No TLS handshake has been started then, [forceful_close] on
    the dialled socket is the last call made, and the connection still
    holds that socket. *)
Theorem connect_tunnel_refused (ssl_ctx : option ssl_context)
  (fp : option string) (ah : assert_hostname_t) (t : option Z)
  (st : state (HTTP1Connection SM)) (msg : string)
  (resp : Response body_object) (st' : state (HTTP1Connection SM)) :
  _sock (this st) = None ->
  connect ssl_ctx fp ah t st = (Raise (FailedTunnelError msg resp), st') ->
  exists raw before,
    connect_outcome (_host (this st)) (_port (this st)) t (dial_kw (this st))
    = inr raw
    /\ trace st'
       = (trace st ++ dial (this st) t :: before ++ [CallForcefulClose raw])%list
    /\ existsb is_StartTls before = false
    /\ _sock (this st') = Some raw
    /\ _ASYNC_MODE = false
    /\ _tunnel_host (this st) <> None
    /\ status_code resp <> 200%Z.
Proof.
  intros Hsock E.
  pose proof (connect_run ssl_ctx fp ah t st Hsock) as Hrun. cbv zeta in Hrun.
  rewrite Hrun in E. clear Hrun.
  destruct (connect_outcome _ _ _ _) as [[| e0 | e0] | raw]; try discriminate.
  destruct ssl_ctx as [ctx |]; [ | discriminate ].
  apply secure_inv in E.
  destruct E as [[e [E He]] | [sa [_ [[e [Ew He]] | [tls [sb [_ [He _]]]]]]]];
    try discriminate.
  2:{ apply wrap_socket_outcome in Ew. destruct Ew as [_ [_ [_ [te ->]]]].
      discriminate. }
  inversion He; subst e. clear He.
  pose proof (tunnel_step_outcome _ _ _ _ _ E)
    as [Hthis [[new [Htr [Hno [before ->]]]] [Hmode Hth]]].
  cbn [this trace script] in Hthis, Htr.
  exists raw, before. split; [ reflexivity | ].
  split; [ rewrite Htr, <- List.app_assoc; reflexivity | ].
  rewrite existsb_StartTls_app in Hno. apply orb_false_iff in Hno.
  split; [ apply Hno | ]. split; [ rewrite Hthis; reflexivity | ].
  assert (Hsync : _ASYNC_MODE = false).
  { destruct _ASYNC_MODE; [ | reflexivity ].
    destruct (Hmode eq_refl) as [Hr _]. discriminate. }
  split; [ exact Hsync | ].
  split.
  { intros Hnone. destruct (Hth Hnone) as [Hr _]. discriminate. }
  (* the status attached is the one that was tested *)
  destruct (_tunnel_host (this st)) as [host |] eqn:Hhost;
    [ | destruct (Hth eq_refl) as [Hr _]; discriminate ].
  rewrite Hsync in E. unfold _tunnel in E.
  unfold bind at 1 in E. unfold get at 1 in E. cbn [this] in E.
  destruct (_state_machine _) as [c |]; [ | discriminate ].
  destruct (negb (is_IDLE (our_state c))); [ discriminate | ].
  destruct (_tunnel_host (dialled (this st) raw)); [ | discriminate ].
  destruct (_tunnel_port (dialled (this st) raw)); [ | discriminate ].
  apply bind_inv in E. destruct E as [[e [E He]] | [h [s1 [E Hk]]]].
  { inversion He; subst e.
    unfold on_local_machine, zoom in E.
    destruct (_start_http_request _ _ _ _) as [r0 s0] eqn:Ereq.
    apply start_http_request_outcome in Ereq. destruct Ereq as [_ Hraise].
    inversion E; subst. contradiction. }
  apply bind_inv in Hk. destruct Hk as [[e [El He]] | [tr [s3 [El Hk]]]].
  { unfold lift in El. unfold _response_from_h11 in El.
    destruct (negb (in_bytes_set _ _)); inversion El; subst.
    discriminate. }
  unfold lift in El. unfold _response_from_h11 in El.
  destruct (negb (in_bytes_set _ _)); inversion El; subst. clear El.
  destruct (negb (h11_status_code h =? 200)%Z) eqn:Hcode; [ | discriminate ].
  unfold bind, sock_forceful_close, bind, record_call, outcome, raise, ret in Hk.
  destruct (forceful_close_outcome raw); inversion Hk; subst.
  cbn [status_code]. apply negb_true_iff, Z.eqb_neq in Hcode. exact Hcode.
Qed.

(** X17.  In async mode, as the module is written, [connect] does not
    await the tunnel coroutine: whatever the tunnel host, no send-and-receive
    loop is run, so no CONNECT request is sent and nothing is read from the
    network.  With an SSL context, what follows a successful dial is at
    once [_wrap_socket] on the dialled socket, whose result becomes the
    connection's socket: the handshake is made on the socket as it was
    dialled, right after the dial (and the clock warning, if any), for the
    name [_wrap_socket] chooses. *)
Theorem connect_async_skips_tunnel (ssl_ctx : option ssl_context)
  (fp : option string) (ah : assert_hostname_t) (t : option Z)
  (st : state (HTTP1Connection SM)) :
  _ASYNC_MODE = true ->
  (exists new,
      trace (snd (connect ssl_ctx fp ah t st)) = (trace st ++ new)%list
      /\ existsb is_SendAndReceive new = false
      /\ script (snd (connect ssl_ctx fp ah t st)) = script st)
  /\ (forall ctx raw,
         ssl_ctx = Some ctx ->
         _sock (this st) = None ->
         connect_outcome (_host (this st)) (_port (this st)) t
           (dial_kw (this st)) = inr raw ->
         connect ssl_ctx fp ah t st
         = (tls <- _wrap_socket raw ctx fp ah ;; modify (set__sock (Some tls)))
             (mkState (dialled (this st) raw)
                (trace st ++ [dial (this st) t]) (script st))
         /\ exists rest,
              trace (snd (connect ssl_ctx fp ah t st))
              = (trace st
                 ++ dial (this st) t
                    :: (if date_ltb today RECENT_DATE
                        then [CallWarn SystemTimeWarning] else [])
                    ++ CallStartTls raw
                         (rstrip_dot (choose_check_host ah (this st))) ctx
                       :: rest)%list).
Proof.
  intros Hmode. split.
  - destruct (_sock (this st)) as [sk |] eqn:Hsock.
    { unfold connect, bind, get. rewrite Hsock. cbn.
      eexists. split; [ reflexivity | ]. split; reflexivity. }
    pose proof (connect_run ssl_ctx fp ah t st Hsock) as Hrun.
    cbv zeta in Hrun. rewrite Hrun. clear Hrun.
    destruct (connect_outcome _ _ _ _) as [[| e0 | e0] | raw];
      try (exists [dial (this st) t]; repeat split; reflexivity).
    destruct ssl_ctx as [ctx |];
      [ | exists [dial (this st) t]; repeat split; reflexivity ].
    destruct (secure raw ctx fp ah (_tunnel_host (this st))
                (mkState (dialled (this st) raw)
                   (trace st ++ [dial (this st) t]) (script st)))
      as [r s2] eqn:Es.
    cbn [snd]. apply secure_inv in Es.
    destruct Es as [[e [E ->]] | [sa [E Hw]]];
      apply tunnel_step_outcome in E;
      destruct E as [_ [_ [Has _]]]; destruct (Has Hmode) as [Hr Hsa].
    + discriminate.
    + subst sa.
      destruct Hw as [[e [Ew ->]] | [tls [sb [Ew [-> ->]]]]];
        apply wrap_socket_outcome in Ew;
        destruct Ew as [Hsc [[new [Htr Hno]] _]];
        cbn [this trace script] in Hsc, Htr |- *;
        exists (dial (this st) t :: new);
        (split; [ rewrite Htr, <- List.app_assoc; reflexivity | ]);
        (split; [ exact Hno | exact Hsc ]).
  - intros ctx raw -> Hsock Hdial.
    pose proof (connect_run (Some ctx) fp ah t st Hsock) as Hrun.
    cbv zeta in Hrun. rewrite Hdial in Hrun.
    assert (Hsecure :
              secure raw ctx fp ah (_tunnel_host (this st))
                (mkState (dialled (this st) raw)
                   (trace st ++ [dial (this st) t]) (script st))
              = (tls <- _wrap_socket raw ctx fp ah ;;
                 modify (set__sock (Some tls)))
                  (mkState (dialled (this st) raw)
                     (trace st ++ [dial (this st) t]) (script st))).
    { unfold secure. rewrite Hmode.
      destruct (_tunnel_host (this st)); reflexivity. }
    rewrite Hsecure in Hrun. split; [ exact Hrun | ].
    rewrite Hrun. unfold bind.
    pose proof (wrap_socket_handshake_first raw ctx fp ah
                  (mkState (dialled (this st) raw)
                     (trace st ++ [dial (this st) t]) (script st)))
      as [rest [Htr _]].
    destruct (_wrap_socket raw ctx fp ah _) as [[tls | e] s2];
      unfold modify; cbn [snd trace this] in Htr |- *;
      exists rest; rewrite Htr, <- List.app_assoc; reflexivity.
Qed.

(** X18.  What the dial is given.  A connection built by [__init__] and
    then connected dials its host and port with the connect timeout and the
    source address it was built with.  The socket options are
    [default_socket_options], that is [TCP_NODELAY] set to 1, when none were
    given to [__init__]; the given ones when there are some; and no
    [socket_options] argument at all when [None] or an empty list was
    given. *)
Theorem connect_dials_with_options (host : string) (port : Z)
  (opts : option (option (list socket_option))) (src : option (string * Z))
  (th : option string) (tp : option Z)
  (ths : list (header_name * header_value))
  (ssl_ctx : option ssl_context) (fp : option string) (ah : assert_hostname_t)
  (t : option Z) (tr : list call) (sc : list net_step) :
  (exists rest,
      trace (snd (connect ssl_ctx fp ah t
                    (mkState (__init__ (SM := SM) host port opts src th tp ths)
                       tr sc)))
      = (tr
         ++ CallBackendConnect host port t
              (mkExtraKw src
                 match opts with
                 | None => Some default_socket_options
                 | Some (Some (o :: os)) => Some (o :: os)
                 | Some _ => None
                 end)
            :: rest)%list)
  /\ default_socket_options = [(6, 1, 1)%Z].
Proof.
  split; [ | reflexivity ].
  destruct (connect_trace ssl_ctx fp ah t
              (mkState (__init__ (SM := SM) host port opts src th tp ths) tr sc)
              eq_refl) as [rest Hrest].
  exists rest. rewrite Hrest. cbn [trace this]. unfold dial, dial_kw.
  cbn [__init__ _host _port _source_address _socket_options].
  destruct opts as [[[| o os] |] |]; reflexivity.
Qed.

End ConnectProperties.
(** *** The tunnel *)

Section TunnelObjectProperties.
Context {SM : Type} `{H11 SM} `{Environment}.

(** X19.  [_tunnel] leaves the connection object as it is, whatever it
    returns or raises: the CONNECT exchange runs on a state machine of its
    own, so the connection's state machine is still the one [connect]
    created when the request proper is sent.  That state machine is only
    looked at by the sanity check: when [our_state] is not IDLE the call
    raises [AssertionError] and does nothing, and when it is IDLE the
    outcome and the calls made do not depend on it. *)
Theorem tunnel_keeps_connection (raw : sock)
  (st : state (HTTP1Connection SM)) :
  this (snd (_tunnel raw st)) = this st
  /\ (forall c, _state_machine (this st) = Some c -> our_state c <> IDLE ->
        _tunnel raw st = (Raise AssertionError, st))
  /\ (forall c c', _state_machine (this st) = Some c ->
        our_state c = IDLE -> our_state c' = IDLE ->
        let st' :=
          mkState (set__state_machine (Some c') (this st)) (trace st)
            (script st) in
        fst (_tunnel raw st') = fst (_tunnel raw st)
        /\ trace (snd (_tunnel raw st')) = trace (snd (_tunnel raw st))
        /\ script (snd (_tunnel raw st')) = script (snd (_tunnel raw st))).
Proof.
  split; [ apply tunnel_leaves_object | split ].
  - intros c Hsm Hne. unfold _tunnel, bind, get. rewrite Hsm.
    destruct (our_state c); try reflexivity. contradiction.
  - intros c c' Hsm Hc Hc'. cbv zeta.
    unfold _tunnel, bind, get, on_local_machine, zoom.
    cbn [this trace script _state_machine set__state_machine _tunnel_host
           _tunnel_port _tunnel_headers].
    rewrite Hsm, Hc, Hc'. cbn [is_IDLE negb].
    destruct (_tunnel_host (this st)) as [host |],
             (_tunnel_port (this st)) as [port |];
      try (repeat split; reflexivity).
    destruct (_start_http_request _ _ _ _) as [[r | e] s0];
      [ | repeat split; reflexivity ].
    unfold lift.
    destruct (_response_from_h11 r SelfConnection) as [e0 | ok];
      [ repeat split; reflexivity | ].
    cbn [ret].
    destruct (negb (h11_status_code r =? 200)%Z); [ | repeat split; reflexivity ].
    unfold sock_forceful_close, bind, record_call, outcome, raise, ret.
    cbn [this trace script].
    destruct (forceful_close_outcome raw); repeat split; reflexivity.
Qed.

End TunnelObjectProperties.

(** *** Sending a request *)

Section SendRequestProperties.
Context {SM : Type} `{H11 SM} `{Environment}.

(** X20.  [send_request] runs the exchange on the connection's own state
    machine and socket, and the connection keeps the state machine as the
    exchange left it, whatever the outcome; the socket is not replaced.
    From a response of HTTP version 1.0 or 1.1 it builds the response it
    returns: same status, the headers as native strings, the version
    prefixed with [HTTP/], and the connection itself as the body.  A
    response of another version raises [BadVersionError], after the
    exchange has taken place; an exception of the exchange is raised as it
    is. *)
Theorem send_request_response (request : Request) (read_timeout : option Z)
  (st : state (HTTP1Connection SM)) (c : SM) (r : result h11_Response)
  (se : state SM) :
  _state_machine (this st) = Some c ->
  _start_http_request request (_sock (this st)) read_timeout
    (mkState c (trace st) (script st)) = (r, se) ->
  let after :=
    mkState (set__state_machine (Some (this se)) (this st)) (trace se)
      (script se) in
  _sock (this after) = _sock (this st)
  /\ match r with
     | Raise e => send_request request read_timeout st = (Raise e, after)
     | Ok h =>
         (http_version h = B "1.0" \/ http_version h = B "1.1" ->
          send_request request read_timeout st
          = (Ok (mkResponse (h11_status_code h)
                   (_headers_to_native_string (h11_headers h)) SelfConnection
                   (B "HTTP/" ++ http_version h)%list), after))
         /\ (http_version h <> B "1.0" /\ http_version h <> B "1.1" ->
             send_request request read_timeout st
             = (Raise (BadVersionError (http_version h)), after))
     end.
Proof.
  intros Hsm Hex. cbv zeta. split; [ reflexivity | ].
  assert (Hrun :
            send_request request read_timeout st
            = match r with
              | Ok h =>
                  lift (_response_from_h11 h SelfConnection)
                    (mkState (set__state_machine (Some (this se)) (this st))
                       (trace se) (script se))
              | Raise e =>
                  (Raise e,
                   mkState (set__state_machine (Some (this se)) (this st))
                     (trace se) (script se))
              end).
  { unfold send_request. unfold bind at 1. unfold get at 1. rewrite Hsm.
    unfold bind at 1. unfold on_state_machine, zoom. cbn [this trace script].
    rewrite Hex. destruct r; reflexivity. }
  rewrite Hrun. destruct r as [h | e]; [ | reflexivity ].
  split.
  - intros Hv. apply in_supported_versions in Hv.
    rewrite (response_from_h11_supported _ h SelfConnection Hv). reflexivity.
  - intros [H1 H2].
    rewrite (response_from_h11_unsupported _ h SelfConnection);
      [ reflexivity | ].
    destruct (in_bytes_set (http_version h) _SUPPORTED_VERSIONS) eqn:E;
      [ | reflexivity ].
    apply in_supported_versions in E. destruct E; contradiction.
Qed.

End SendRequestProperties.

(** *** The further scenarios, run *)

Lemma stringify_headers_fails_iff_witness :
  List.length [(B "Host", B "localhost"); (B "Content-Length", B "42")]
  = List.length
      [(NameText (T "Host"), ValueText (T "localhost"));
       (NameBytes (B "Content-Length"), ValueInt 42)]
  /\ map (fun nv => Some (snd nv))
       [(B "Host", B "localhost"); (B "Content-Length", B "42")]
     = map (fun h => stringify_value (snd h))
         [(NameText (T "Host"), ValueText (T "localhost"));
          (NameBytes (B "Content-Length"), ValueInt 42)].
Proof.
  exact (proj2 (stringify_headers_fails_iff
                  [(NameText (T "Host"), ValueText (T "localhost"));
                   (NameBytes (B "Content-Length"), ValueInt 42)])
           [(B "Host", B "localhost"); (B "Content-Length", B "42")] eq_refl).
Defined.

(** A header name with a code point outside ASCII (here 233) cannot be
    encoded; the same code point in a value can, as Latin-1; a value
    with a code point outside Latin-1 (here 8364, the euro sign) cannot. *)
Example non_ascii_header :
  _stringify_headers [(NameText (233%N :: T "tag"), ValueText (T "x"))] = None
  /\ _stringify_headers [(NameText (T "tag"), ValueText (233%N :: T "x"))]
     = Some [(B "tag", [xe9; x78])]
  /\ _stringify_headers [(NameText (T "price"), ValueText (T "5 " ++ [8364%N]))]
     = None.
Proof. repeat split. Qed.

(** A buffer of 8192 + 3 bytes is read as a full block and a block of
    three. *)
Example read_readable_two_blocks :
  map (fun block => N.of_nat (List.length block))
    (_read_readable [repeat x61 blocksize ++ B "end"])
  = [8192%N; 3%N].
Proof. vm_compute. reflexivity. Qed.

(** A pipe brings its content in pieces: the reads are short, and the
    first empty one ends the body. *)
Example read_readable_short_reads :
  _read_readable [B "ab"; B "c"; []; B "never read"] = [B "ab"; B "c"].
Proof. vm_compute. reflexivity. Qed.

Lemma read_until_event_returns_event_witness :
  _read_until_event (Some 3) None
    (mkState (ScriptedEngine.mid_body true) [] [NetReadable (B "raw")])
  = (Ok (DataEvent (B "hello")),
     mkState
       (ScriptedEngine.mkEngine DONE SEND_BODY []
          [[DataEvent (B "world"); EndOfMessageEvent]] [] true)
       [] [NetReadable (B "raw")])
  /\ _read_until_event (Some 3) None
       (mkState Cases.awaiting [] [NetWritable; NetReadable (B "raw")])
     = (Ok (DataEvent (B "world")),
        mkState
          (ScriptedEngine.mkEngine DONE SEND_BODY [EndOfMessageEvent] []
             [B "raw"] true)
          [] [])
  /\ _read_until_event (Some 3) None (mkState Cases.awaiting [] [])
     = (Raise (TransportError SocketTimeout), mkState Cases.awaiting [] []).
Proof.
  pose proof (read_until_event_returns_event (H := ScriptedEngine.scripted_engine)
                (Some 3) None
                (mkState (ScriptedEngine.mid_body true) [] [NetReadable (B "raw")]))
    as [_ [Hnow _]].
  pose proof (read_until_event_returns_event (H := ScriptedEngine.scripted_engine)
                (Some 3) None
                (mkState Cases.awaiting [] [NetWritable; NetReadable (B "raw")]))
    as [_ [_ [Hread _]]].
  pose proof (read_until_event_returns_event (H := ScriptedEngine.scripted_engine)
                (Some 3) None (mkState Cases.awaiting [] []))
    as [_ [_ [_ Htimeout]]].
  split; [ | split ].
  - apply (Hnow (DataEvent (B "hello"))); [ reflexivity | discriminate ].
  - apply (Hread 3 Cases.awaiting (B "raw") []); try reflexivity. discriminate.
  - apply (Htimeout 3 Cases.awaiting); reflexivity.
Defined.

Lemma anext_chunk_or_stop_witness :
  __anext__ (mkState (ScriptedEngine.reading true) [] [NetReadable (B "raw")])
  = (Ok (Chunk (B "hello")),
     mkState
       (set__state_machine
          (Some (ScriptedEngine.mkEngine DONE SEND_BODY []
                   [[DataEvent (B "world"); EndOfMessageEvent]] [] true))
          (ScriptedEngine.reading true))
       [] [NetReadable (B "raw")]).
Proof.
  exact (anext_chunk_or_stop (H := ScriptedEngine.scripted_engine)
           (H0 := Scenario.env)
           (mkState (ScriptedEngine.reading true) [] [NetReadable (B "raw")])
           (ScriptedEngine.mid_body true) (Ok (DataEvent (B "hello")))
           (mkState
              (ScriptedEngine.mkEngine DONE SEND_BODY []
                 [[DataEvent (B "world"); EndOfMessageEvent]] [] true)
              [] [NetReadable (B "raw")])
           eq_refl ltac:(vm_compute; reflexivity)).
Defined.

(** A body of two chunks: the first pull gives what is parsed already and
    reads nothing, the second reads once, the third meets the end of the
    message.  When h11 starts the next cycle the socket is kept, under
    watch; when it refuses, the connection is closed. *)
Example body_iterated :
  fst (Cases.pull3 true)
  = [Ok (Chunk (B "hello")); Ok (Chunk (B "world")); Ok StopAsyncIteration]
  /\ trace (snd (Cases.pull3 true)) = [CallSetReadableWatchState 3 true]
  /\ _sock (this (snd (Cases.pull3 true))) = Some 3
  /\ complete (this (snd (Cases.pull3 true))) = true
  /\ fst (Cases.pull3 false) = fst (Cases.pull3 true)
  /\ trace (snd (Cases.pull3 false)) = [CallForcefulClose 3]
  /\ _sock (this (snd (Cases.pull3 false))) = None
  /\ _state_machine (this (snd (Cases.pull3 false))) = None.
Proof. vm_compute. repeat split. Qed.

Lemma reset_reuses_or_closes_witness :
  _reset (mkState (ScriptedEngine.reading true) [] [])
  = (Ok tt,
     mkState
       (set__state_machine
          (Some (ScriptedEngine.mkEngine IDLE IDLE [DataEvent (B "hello")]
                   [[DataEvent (B "world"); EndOfMessageEvent]] [] true))
          (ScriptedEngine.reading true))
       [CallSetReadableWatchState 3 true] [])
  /\ _reset (mkState (ScriptedEngine.reading false) [] [])
     = (Ok tt,
        mkState
          (set__sock None
             (set__state_machine None (ScriptedEngine.reading false)))
          [CallForcefulClose 3] []).
Proof.
  split.
  - exact (proj1 (reset_reuses_or_closes (H := ScriptedEngine.scripted_engine)
                    (H0 := Scenario.env)
                    (mkState (ScriptedEngine.reading true) [] []) 3
                    (ScriptedEngine.mid_body true) eq_refl eq_refl)
             _ eq_refl).
  - exact (proj1 (proj1 (proj2 (reset_reuses_or_closes
                                  (H := ScriptedEngine.scripted_engine)
                                  (H0 := Scenario.env)
                                  (mkState (ScriptedEngine.reading false) [] []) 3
                                  (ScriptedEngine.mid_body false)
                                  eq_refl eq_refl))
                    "not in a reusable state" _ eq_refl)).
Defined.

Lemma in_sync_invariant_witness :
  (forall ssl_ctx fp ah t,
      in_sync (this (snd (connect ssl_ctx fp ah t
                            (mkState Cases.unconnected [] [])))))
  /\ (forall request t,
         in_sync (this (snd (send_request request t
                               (mkState Cases.unconnected [] [])))))
  /\ in_sync (this (snd (__anext__ (mkState Cases.unconnected [] []))))
  /\ in_sync (this (snd (_reset (mkState Cases.unconnected [] []))))
  /\ in_sync (this (snd (close (mkState Cases.unconnected [] [])))).
Proof.
  exact (in_sync_invariant (H := SpecEngine.spec_engine) (H0 := Scenario.env)
           (mkState Cases.unconnected [] []) (fun _ => eq_refl)).
Defined.

Lemma wrap_socket_is_verified_witness :
  start_tls_outcome 3
    (rstrip_dot (choose_check_host AssertNone Scenario.connected))
    (mkSslContext CERT_REQUIRED) = inr 103
  /\ (is_verified
        (this (snd (_wrap_socket 3 (mkSslContext CERT_REQUIRED) None AssertNone
                      (mkState Scenario.connected [] [])))) = true <->
      verify_mode (mkSslContext CERT_REQUIRED) = CERT_REQUIRED
      /\ (AssertNone <> AssertFalse \/ truthy_opt_text None = true))
  /\ exists b,
       this (snd (_wrap_socket 3 (mkSslContext CERT_REQUIRED) None AssertNone
                    (mkState Scenario.connected [] [])))
       = set_is_verified b Scenario.connected.
Proof.
  exact (proj1 (wrap_socket_is_verified (SM := SpecEngine.engine)
              (H0 := Scenario.env) 3 (mkSslContext CERT_REQUIRED) None
                  AssertNone (mkState Scenario.connected [] []))
           103
           (snd (_wrap_socket 3 (mkSslContext CERT_REQUIRED) None AssertNone
                   (mkState Scenario.connected [] [])))
           eq_refl).
Defined.

(** The certificate of the scenarios names [localhost], not
    [example.org]: the verification raises and the connection is not marked
    verified. *)
Example wrong_host_not_verified :
  _wrap_socket 3 (mkSslContext CERT_REQUIRED) None (AssertHost "example.org")
    (mkState Scenario.connected [] [])
  = (Raise (TransportError (CertificateError "hostname doesn't match")),
     mkState Scenario.connected
       [CallStartTls 3 "example.org" (mkSslContext CERT_REQUIRED);
        CallGetPeerCert 103 false;
        CallMatchHostname (peercert 103) "example.org"] []).
Proof. vm_compute. reflexivity. Qed.

Lemma wrap_socket_verification_witness :
  exists new,
    trace (snd (_wrap_socket 3 (mkSslContext CERT_REQUIRED) (Some "AA:BB")
                  AssertNone (mkState Scenario.connected [] [])))
    = ([] ++ new)%list
    /\ filter is_verification new = [CallAssertFingerprint [] "AA:BB"]
    /\ fst (_wrap_socket 3 (mkSslContext CERT_REQUIRED) (Some "AA:BB")
              AssertNone (mkState Scenario.connected [] [])) = Ok 103.
Proof.
  destruct (wrap_socket_verification (SM := SpecEngine.engine)
              (H0 := Scenario.env) 3 103 (mkSslContext CERT_REQUIRED)
              (Some "AA:BB") AssertNone (mkState Scenario.connected [] [])
              eq_refl) as [new [Htr [Hfp _]]].
  exists new. split; [ exact Htr | ].
  destruct (Hfp "AA:BB" eq_refl ltac:(discriminate)) as [Hcalls Hok].
  split; [ exact Hcalls | ]. apply Hok. reflexivity.
Defined.

(** With [assert_hostname=False] nothing is verified, even under
    [CERT_REQUIRED], and the connection is not marked verified. *)
Example hostname_check_disabled :
  _wrap_socket 3 (mkSslContext CERT_REQUIRED) None AssertFalse
    (mkState Scenario.connected [] [])
  = (Ok 103,
     mkState Scenario.connected
       [CallStartTls 3 "localhost" (mkSslContext CERT_REQUIRED)] [])
  /\ is_verified Scenario.connected = false.
Proof. vm_compute. split; reflexivity. Qed.

Lemma connect_dial_witness :
  fst (connect (H0 := Cases.unreachable_env) None None AssertNone (Some 5%Z)
         (mkState Cases.unconnected [] []))
  = Raise (ConnectTimeoutError
             "Connection to localhost timed out. (connect timeout=5)")
  /\ snd (connect (H0 := Cases.unreachable_env) None None AssertNone (Some 5%Z)
            (mkState Cases.unconnected [] []))
     = mkState Cases.unconnected
         [CallBackendConnect "localhost" 443 (Some 5%Z)
            (mkExtraKw None (Some default_socket_options))] []
  /\ connect (H0 := Scenario.env) None None AssertNone (Some 5%Z)
       (mkState Cases.unconnected [] [])
     = (Ok tt,
        mkState Scenario.connected
          [CallBackendConnect "localhost" 443 (Some 5%Z)
             (mkExtraKw None (Some default_socket_options))] []).
Proof.
  pose proof (connect_dial (H := SpecEngine.spec_engine)
                (H0 := Cases.unreachable_env) None None AssertNone (Some 5%Z)
                (mkState Cases.unconnected [] []) eq_refl)
    as [_ [Htimeout [_ [Hleft _]]]].
  pose proof (connect_dial (H := SpecEngine.spec_engine)
                (H0 := Scenario.env) None None AssertNone (Some 5%Z)
                (mkState Cases.unconnected [] []) eq_refl)
    as [_ [_ [_ [_ Hplain]]]].
  split; [ | split ].
  - apply Htimeout. split; reflexivity.
  - exact (Hleft SocketTimeout eq_refl).
  - exact (Hplain 3 eq_refl eq_refl).
Defined.

Lemma connect_tls_witness :
  (exists tls,
      start_tls_outcome 3
        (rstrip_dot (choose_check_host AssertNone Cases.unconnected))
        (mkSslContext CERT_REQUIRED) = inr tls
      /\ _sock (this (snd (connect (Some (mkSslContext CERT_REQUIRED)) None
                             AssertNone None
                             (mkState Cases.unconnected [] [])))) = Some tls
      /\ _state_machine
           (this (snd (connect (Some (mkSslContext CERT_REQUIRED)) None
                         AssertNone None (mkState Cases.unconnected [] []))))
         = Some SpecEngine.fresh
      /\ (is_verified
            (this (snd (connect (Some (mkSslContext CERT_REQUIRED)) None
                          AssertNone None (mkState Cases.unconnected [] []))))
          = true <->
          verify_mode (mkSslContext CERT_REQUIRED) = CERT_REQUIRED
          /\ (AssertNone <> AssertFalse \/ truthy_opt_text None = true)))
  /\
  (let st' :=
     snd (connect (Some (mkSslContext CERT_REQUIRED)) None AssertNone None
            (mkState Cases.elsewhere [] [])) in
   _sock (this st') = Some 3
   /\ _state_machine (this st') = Some SpecEngine.fresh
   /\ is_verified (this st') = false
   /\ connect (Some (mkSslContext CERT_REQUIRED)) None AssertNone None st'
      = (Ok tt,
         mkState (this st') (trace st' ++ [CallSetReadableWatchState 3 false])
           (script st'))).
Proof.
  split.
  - apply (proj1 (connect_tls (H := SpecEngine.spec_engine)
                    (H0 := Scenario.env) (mkSslContext CERT_REQUIRED) None
                    AssertNone None (mkState Cases.unconnected [] []) 3
                    eq_refl eq_refl)).
    vm_compute. reflexivity.
  - cbv zeta.
    apply (proj2 (connect_tls (H := SpecEngine.spec_engine)
                    (H0 := Scenario.env) (mkSslContext CERT_REQUIRED) None
                    AssertNone None (mkState Cases.elsewhere [] []) 3
                    eq_refl eq_refl)
             (TransportError (CertificateError "hostname doesn't match"))).
    vm_compute. reflexivity.
Defined.

(** The certificate does not name [example.org]: [connect] raises, and the
    connection is left on the socket of the handshake's plain side. *)
Example failed_handshake_keeps_socket :
  connect (Some (mkSslContext CERT_REQUIRED)) None AssertNone None
    (mkState Cases.elsewhere [] [])
  = (Raise (TransportError (CertificateError "hostname doesn't match")),
     mkState
       (set__state_machine (Some SpecEngine.fresh)
          (set__sock (Some 3) Cases.elsewhere))
       [CallBackendConnect "example.org" 443 None
          (mkExtraKw None (Some default_socket_options));
        CallStartTls 3 "example.org" (mkSslContext CERT_REQUIRED);
        CallGetPeerCert 103 false;
        CallMatchHostname (peercert 103) "example.org"] []).
Proof. vm_compute. reflexivity. Qed.

Lemma connect_tunnel_refused_witness :
  exists raw before,
    connect_outcome "proxy.local" 3128 None
      (mkExtraKw None (Some default_socket_options)) = inr raw
    /\ trace (snd Cases.refused)
       = ([] ++ CallBackendConnect "proxy.local" 3128 None
                  (mkExtraKw None (Some default_socket_options))
               :: before ++ [CallForcefulClose raw])%list
    /\ existsb is_StartTls before = false
    /\ _sock (this (snd Cases.refused)) = Some raw
    /\ _ASYNC_MODE = false
    /\ _tunnel_host Cases.through_proxy <> None
    /\ status_code (mkResponse 403 [] SelfConnection (B "HTTP/1.1")) <> 200%Z.
Proof.
  assert (Hrun : Cases.refused
                 = (Raise (FailedTunnelError "Unable to establish CONNECT tunnel"
                             (mkResponse 403 [] SelfConnection (B "HTTP/1.1"))),
                    snd Cases.refused))
    by (vm_compute; reflexivity).
  exact (connect_tunnel_refused (H := SpecEngine.spec_engine)
           (H0 := Scenario.env) (Some (mkSslContext CERT_REQUIRED)) None
           AssertNone None
           (mkState Cases.through_proxy []
              (Scenario.tunnel_script Scenario.forbidden_403))
           "Unable to establish CONNECT tunnel"
           (mkResponse 403 [] SelfConnection (B "HTTP/1.1"))
           (snd Cases.refused) eq_refl Hrun).
Defined.

(** The proxy answers 403: the tunnel is refused, the socket to the proxy
    is closed, and no handshake is attempted. *)
Example refused_tunnel_no_handshake :
  fst Cases.refused
  = Raise (FailedTunnelError "Unable to establish CONNECT tunnel"
             (mkResponse 403 [] SelfConnection (B "HTTP/1.1")))
  /\ existsb is_StartTls (trace (snd Cases.refused)) = false
  /\ last (trace (snd Cases.refused)) (CallWarn SystemTimeWarning)
     = CallForcefulClose 3.
Proof. vm_compute. repeat split. Qed.

Lemma connect_async_skips_tunnel_witness :
  (exists new,
      trace (snd Cases.handshake_at_once) = ([] ++ new)%list
      /\ existsb is_SendAndReceive new = false
      /\ script (snd Cases.handshake_at_once)
         = Scenario.tunnel_script Scenario.ok_200)
  /\ exists rest,
       trace (snd Cases.handshake_at_once)
       = ([] ++ dial Cases.through_proxy None
             :: (if date_ltb (today (Environment := Cases.async_env)) RECENT_DATE
                 then [CallWarn SystemTimeWarning] else [])
             ++ CallStartTls 3 "example.org" (mkSslContext CERT_REQUIRED)
                :: rest)%list.
Proof.
  destruct (connect_async_skips_tunnel (H := SpecEngine.spec_engine)
              (H0 := Cases.async_env) (Some (mkSslContext CERT_REQUIRED)) None
              AssertNone None
              (mkState Cases.through_proxy []
                 (Scenario.tunnel_script Scenario.ok_200))
              eq_refl) as [Hskip Htls].
  split; [ exact Hskip | ].
  destruct (Htls (mkSslContext CERT_REQUIRED) 3 eq_refl eq_refl eq_refl)
    as [_ Hhandshake].
  exact Hhandshake.
Defined.

(** Through a proxy: the synchronous copy sends CONNECT and, once the
    proxy has answered 200, starts TLS for the tunnel host; in async mode
    the handshake is made at once, and the bytes scripted from the proxy are
    not read. *)
Example tunnel_then_tls :
  map is_SendAndReceive
    (trace (snd (connect (H0 := Scenario.env)
                   (Some (mkSslContext CERT_NONE)) None AssertNone None
                   (mkState Cases.through_proxy []
                      (Scenario.tunnel_script Scenario.ok_200)))))
  = [false; true; false; false; false]
  /\ trace (snd (connect (H0 := Cases.async_env)
                   (Some (mkSslContext CERT_NONE)) None AssertNone None
                   (mkState Cases.through_proxy []
                      (Scenario.tunnel_script Scenario.ok_200))))
     = [CallBackendConnect "proxy.local" 3128 None
          (mkExtraKw None (Some default_socket_options));
        CallStartTls 3 "example.org" (mkSslContext CERT_NONE)].
Proof. vm_compute. split; reflexivity. Qed.

Lemma tunnel_keeps_connection_witness :
  _tunnel 3 (mkState (set__state_machine
                        (Some (SpecEngine.poison SpecEngine.fresh))
                        Scenario.proxied) [] [])
  = (Raise AssertionError,
     mkState (set__state_machine (Some (SpecEngine.poison SpecEngine.fresh))
                Scenario.proxied) [] []).
Proof.
  apply (proj1 (proj2 (tunnel_keeps_connection (H := SpecEngine.spec_engine)
                         (H0 := Scenario.env) 3
                         (mkState (set__state_machine
                                     (Some (SpecEngine.poison SpecEngine.fresh))
                                     Scenario.proxied) [] [])))
           (SpecEngine.poison SpecEngine.fresh) eq_refl).
  discriminate.
Defined.

Lemma send_request_response_witness :
  send_request Scenario.chunked_request None
    (mkState Scenario.connected []
       [NetWritable; NetWritable; NetWritable; NetWritable; NetWritable;
        NetReadable Scenario.ok_200])
  = (Ok (mkResponse 200 (_headers_to_native_string []) SelfConnection
           (B "HTTP/" ++ B "1.1")%list),
     mkState
       (set__state_machine (Some (this (snd Scenario.full_send)))
          Scenario.connected)
       (trace (snd Scenario.full_send)) (script (snd Scenario.full_send))).
Proof.
  assert (Hrun : Scenario.full_send
                 = (Ok (mkH11Response 200 [] (B "1.1")), snd Scenario.full_send))
    by (vm_compute; reflexivity).
  exact (proj1 (proj2 (send_request_response (H := SpecEngine.spec_engine)
                         Scenario.chunked_request None
                         (mkState Scenario.connected []
                            [NetWritable; NetWritable; NetWritable;
                             NetWritable; NetWritable;
                             NetReadable Scenario.ok_200])
                         SpecEngine.fresh
                         (Ok (mkH11Response 200 [] (B "1.1")))
                         (snd Scenario.full_send) eq_refl Hrun))
           (or_intror eq_refl)).
Defined.

